(** * voice-daily-note: tagged-entry extraction, remote refinement and
      idempotent publishing

    A shallow embedding of the Python sources
    [share_pipeline.py], [share_to_social.py], [share_to_linkedin.py],
    [refine.py] and [config.py], and the properties of the specification
    that were checked against it.

    Conventions.
    - A Python [str] is a sequence of Unicode code points: [list N].
    - The regular expressions of the sources are rendered as the functions
      they compute; every such function quotes its pattern.
    - [print], [time.sleep] and HTTP requests are recorded as events.
    - A raised exception ([SystemExit], [ValueError], [OSError]) is an
      explicit result.
    - What the outside decides is a parameter: the answers of the service,
      the tables of the interpreter ([isdecimal], [isword], the ISO
      calendar) and the paths that the file system cannot take. *)

From Stdlib Require Import NArith ZArith List Bool Ascii String Lia.
From Stdlib Require Import DecimalString DecimalN Sorted.
From stdpp Require Import base option list gmap.

Set Default Proof Using "Type".
Local Open Scope N_scope.
Local Open Scope list_scope.

(** ** Python strings *)

Module Py.

(** A code point. *)
Abbreviation char := N.
Abbreviation str := (list N).

(** An ASCII literal as a Python string. *)
Definition lit (s : string) : str :=
  List.map N_of_ascii (list_ascii_of_string s).

Definition nl : char := 10.
Definition cr : char := 13.
Definition space : char := 32.

(** [str.isspace] on one code point; it is also the class [\s] of [re]
    on [str] patterns and the set removed by [str.strip()]. *)
Definition isspace (c : char) : bool :=
  ((9 <=? c) && (c <=? 13)) || ((28 <=? c) && (c <=? 32))
  || (c =? 133) || (c =? 160) || (c =? 5760)
  || ((8192 <=? c) && (c <=? 8202))
  || (c =? 8232) || (c =? 8233) || (c =? 8239) || (c =? 8287)
  || (c =? 12288).

Definition eqb_str (a b : str) : bool := bool_decide (a = b).

(** [s.lstrip()] *)
Fixpoint lstrip (s : str) : str :=
  match s with
  | c :: r => if isspace c then lstrip r else s
  | [] => []
  end.

(** [s.rstrip()] *)
Fixpoint rstrip (s : str) : str :=
  match s with
  | [] => []
  | c :: r =>
      match rstrip r with
      | [] => if isspace c then [] else [c]
      | r' => c :: r'
      end
  end.

(** [s.strip()] *)
Definition strip (s : str) : str := rstrip (lstrip s).

(** [s.strip(chars)]: strips the code points listed in [chars]. *)
Fixpoint lstrip_chars (chars s : str) : str :=
  match s with
  | c :: r => if bool_decide (c ∈ chars) then lstrip_chars chars r else s
  | [] => []
  end.

Fixpoint rstrip_chars (chars s : str) : str :=
  match s with
  | [] => []
  | c :: r =>
      match rstrip_chars chars r with
      | [] => if bool_decide (c ∈ chars) then [] else [c]
      | r' => c :: r'
      end
  end.

Definition strip_chars (chars s : str) : str :=
  rstrip_chars chars (lstrip_chars chars s).

(** [s.startswith(p)] *)
Fixpoint startswith (p s : str) : bool :=
  match p, s with
  | [], _ => true
  | a :: p', b :: s' => (a =? b) && startswith p' s'
  | _ :: _, [] => false
  end.

(** [sub in s] *)
Fixpoint contains (sub s : str) : bool :=
  startswith sub s ||
  match s with
  | [] => false
  | _ :: r => contains sub r
  end.

(** [s.split(sep)] for a separator of one code point: never empty, the
    last part is what follows the last separator. *)
Fixpoint split_char (sep : char) (s : str) : list str :=
  match s with
  | [] => [[]]
  | c :: r =>
      if c =? sep then [] :: split_char sep r
      else match split_char sep r with
           | l :: ls => (c :: l) :: ls
           | [] => [[c]]
           end
  end.

(** [s.split("\n")] *)
Abbreviation split_lines := (split_char nl).

(** [sep.join(parts)] *)
Fixpoint join (sep : str) (parts : list str) : str :=
  match parts with
  | [] => []
  | [p] => p
  | p :: ps => p ++ sep ++ join sep ps
  end.

(** The first line of [s] and what follows it, newline included. *)
Fixpoint span_line (s : str) : str * str :=
  match s with
  | [] => ([], [])
  | c :: r =>
      if c =? nl then ([], s)
      else let '(l, rest) := span_line r in (c :: l, rest)
  end.

(** What [Path.read_text] returns for the stored text: the file is opened
    in text mode, so a carriage return, alone or in front of a newline,
    is read as a newline.  ([Path.write_text] stores the text as it is
    where the line separator is the newline.) *)
Fixpoint read_text (stored : str) : str :=
  match stored with
  | [] => []
  | c :: r =>
      if c =? cr then
        nl :: match r with
              | c' :: r' => if c' =? nl then read_text r' else read_text r
              | [] => []
              end
      else c :: read_text r
  end.

(** [str(n)] for a non-negative integer. *)
Definition dec (n : N) : str :=
  lit (NilEmpty.string_of_uint (N.to_uint n)).

End Py.

Import Py.

(** ** The patterns of the sources

    Each function computes one regular expression of the sources, on
    Python's semantics: [.] is any code point but a newline, [\s] is
    [isspace], [^] and [$] under [re.MULTILINE] hold at the start and the
    end of a line, and a quantifier is greedy. *)

Module Re.

Definition heading_mark : str := lit "## ".

(** [\s*$] ([re.MULTILINE]) at the start of [s]: the length of the match.
    The star is greedy, so the longest run of whitespace that ends at the
    end of the text or in front of a newline is taken. *)
Fixpoint ws_eol (s : str) : option nat :=
  match s with
  | [] => Some 0%nat
  | c :: r =>
      if isspace c then
        match ws_eol r with
        | Some n => Some (S n)
        | None => if c =? nl then Some 0%nat else None
        end
      else None
  end.

(** [^mark\s*$] ([re.MULTILINE]) at [s], the start of a line: the length
    of the match. *)
Definition sep_len (mark s : str) : option nat :=
  if startswith mark s
  then n ← ws_eol (drop (length mark) s); Some (length mark + n)%nat
  else None.

(** [re.split(r"^mark\s*$", s, flags=re.MULTILINE)].  [bol] tells whether
    the position is the start of a line, [skip] counts the code points of
    the current match that are still to be dropped. *)
Fixpoint split_sep (mark : str) (bol : bool) (skip : nat) (s : str)
  : list str :=
  match s with
  | [] => [[]]
  | c :: r =>
      match skip with
      | S k => split_sep mark (c =? nl) k r
      | O =>
          match (if bol then sep_len mark s else None) with
          | Some (S n) => [] :: split_sep mark (c =? nl) n r
          | _ =>
              match split_sep mark (c =? nl) 0 r with
              | p :: ps => (c :: p) :: ps
              | [] => [[c]]
              end
          end
      end
  end.

(** [re.split(r"^mark\s*$", s, maxsplit=1, flags=re.MULTILINE)]: the text
    in front of the first match and the text after it, [None] when the
    pattern does not match (the result then has one part). *)
Fixpoint split_sep_once (mark : str) (bol : bool) (s : str)
  : option (str * str) :=
  match s with
  | [] => None
  | c :: r =>
      match (if bol then sep_len mark s else None) with
      | Some n => Some ([], drop n s)
      | None =>
          '(a, b) ← split_sep_once mark (c =? nl) r; Some (c :: a, b)
      end
  end.

(** [re.split(r"(?=^## )", s, flags=re.MULTILINE)]: the text is cut in
    front of every line that starts with [## ]. *)
Fixpoint split_headings (bol : bool) (s : str) : list str :=
  match s with
  | [] => [[]]
  | c :: r =>
      let cur := match split_headings (c =? nl) r with
                 | p :: ps => (c :: p) :: ps
                 | [] => [[c]]
                 end in
      if bol && startswith heading_mark s then [] :: cur else cur
  end.

(** [re.match(r"## (.+)", s)]: group 1 and the text after the match. *)
Definition match_heading (s : str) : option (str * str) :=
  if startswith heading_mark s then
    match span_line (drop 3 s) with
    | ([], _) => None
    | (g, rest) => Some (g, rest)
    end
  else None.

(** The group of [^## (.+)$] on one line. *)
Definition heading_of_line (l : str) : option str :=
  if startswith heading_mark l then
    match drop 3 l with
    | [] => None
    | t => Some t
    end
  else None.

(** [re.findall(r"^## (.+)$", s, flags=re.MULTILINE)]: [.+] cannot cross a
    newline and [$] needs the end of the line, so each line that starts
    with [## ] and goes on gives the rest of the line. *)
Definition findall_headings (s : str) : list str :=
  omap heading_of_line (split_lines s).

(** [re.search(p, s)] for a pattern whose match at a position is decided by
    [m]. *)
Fixpoint search (m : str → bool) (s : str) : bool :=
  m s || match s with
         | [] => false
         | _ :: r => search m r
         end.

(** [.*p] at the start of [s]. *)
Fixpoint dotstar_then (p s : str) : bool :=
  startswith p s ||
  match s with
  | [] => false
  | c :: r => negb (c =? nl) && dotstar_then p r
  end.

(** [\s*p] at the start of [s]. *)
Fixpoint ws_then (p s : str) : bool :=
  startswith p s ||
  match s with
  | [] => false
  | c :: r => isspace c && ws_then p r
  end.

(** The label of the tag field, two asterisks around U+6807 U+7B7E. *)
Definition tag_label : str := [42; 42; 26631; 31614; 42; 42].

(** The class of the full-width colon U+FF1A and the ASCII colon. *)
Definition is_colon (c : char) : bool := (c =? 65306) || (c =? 58).

Definition share_token : str := lit "#Share".

(** The label, a colon, and [after] on what follows. *)
Definition label_then (after : str → bool) (s : str) : bool :=
  startswith tag_label s &&
  match drop 6 s with
  | c :: r => is_colon c && after r
  | [] => false
  end.

(** [re.search(label [colon] .*#Share, s)], the test of
    [share_pipeline.py] and [share_to_social.py]. *)
Definition has_share_tag (s : str) : bool :=
  search (label_then (dotstar_then share_token)) s.

(** [re.search(label [colon] \s*#Share, s)], the test of
    [share_to_linkedin.py]. *)
Definition has_share_tag_strict (s : str) : bool :=
  search (label_then (ws_then share_token)) s.

End Re.

Import Re.

(** ** Data model *)

(** [ShareEntry] (the same dataclass in the three share scripts). *)
Module ShareEntry.
Record t : Type := mk
  { title : str; body : str; source_file : str; source_date : str }.
End ShareEntry.

(** [RefinedEntry] of [share_pipeline.py]. *)
Module RefinedEntry.
Record t : Type := mk { title : str; content : str; source_date : str }.
End RefinedEntry.

(** [SocialPost] of [share_to_social.py]. *)
Module SocialPost.
Record t : Type := mk
  { title : str; brief : str; twitter_cn : str; linkedin_en : str;
    youtube_shorts : str; source_date : str }.
End SocialPost.

(** The exceptions that the modelled code raises. *)
Inductive exn : Type :=
  | SystemExit (msg : str)
  | ValueError
  | OSError.

(** A returned value or a raised exception. *)
Inductive result (A : Type) : Type :=
  | Ok (a : A)
  | Raised (e : exn).
Arguments Ok {A} a.
Arguments Raised {A} e.

(** ** Configuration ([config.py]) *)

Module Config.
Definition MAX_RETRIES : nat := 3.
Definition RETRY_BASE_DELAY : N := 2.

(** The message of the [SystemExit] of [get_api_key]. *)
Definition api_key_missing : str :=
  lit "ERROR: ANTHROPIC_API_KEY environment variable not set." ++ [nl]
  ++ lit "Export it before running the refine step:" ++ [nl]
  ++ lit "  export ANTHROPIC_API_KEY='sk-ant-...'".
End Config.

(** ** The remote refinement client *)

Module Remote.

(** One block of the [content] list of the JSON answer. *)
Record block : Type := mk_block { block_type : str; block_text : str }.

(** The JSON answer of a request with status 200. *)
Record body : Type := mk_body
  { content : list block; stop_reason : option str }.

(** What [requests.post] does: it returns a response with a status code, a
    JSON body and a raw text, or raises [Timeout], or raises another
    [RequestException].  The body of an answer with status 200 is taken to
    be a JSON object of the documented shape. *)
Inductive outcome : Type :=
  | Response (status_code : N) (data : body) (text : str)
  | Timeout
  | RequestException (e : str).

(** What the process does to the outside, in order. *)
Inductive event : Type :=
  | EPost (user_message : str)
  | ESleep (secs : N)
  | EPrint (line : str).

(** The number of requests sent so far and the events so far. *)
Record world : Type := mk_world { sent : nat; trace : list event }.

Definition emit (e : event) (w : world) : world :=
  mk_world (sent w) (trace w ++ [e]).

Definition print (line : str) (w : world) : world := emit (EPrint line) w.
Definition sleep (secs : N) (w : world) : world := emit (ESleep secs) w.

(** The status codes that are retried. *)
Definition transient_status (status : N) : bool :=
  bool_decide (status ∈ [429; 500; 502; 503; 529]).

(** The text of an answer: the [text] blocks joined by newlines. *)
Definition response_text (d : body) : str :=
  join [nl]
    (List.map block_text
       (List.filter (λ b, eqb_str (block_type b) (lit "text")) (content d))).

Definition retry_delay (attempt : nat) : N :=
  Config.RETRY_BASE_DELAY * 2 ^ N.of_nat attempt.

Section Client.

(** The service: the outcome of the request number [n] of the run.  The
    requests of a run are determined by its input, so a service that
    answers by the payload is one of these functions.  Of the payload only
    the user message is recorded; the model, the token budget and the
    system prompt do not change what the client does with the answer. *)
Variable service : nat → outcome.

Definition post (user_message : str) (w : world) : outcome * world :=
  (service (sent w), mk_world (S (sent w)) (trace w ++ [EPost user_message])).

(** The loop [for attempt in range(MAX_RETRIES)] of [_call_claude_api] and
    of the three [_call_claude]: the same text in the four files, but for
    the truncation flag that only [_call_claude_api] returns. *)
Fixpoint attempt_loop (user_message : str) (attempts : list nat) (w : world)
  : (str * bool) * world :=
  match attempts with
  | [] => (([], false), print (lit "    API failed after all retries") w)
  | attempt :: rest =>
      let '(o, w) := post user_message w in
      match o with
      | Response status data text =>
          if status =? 200 then
            ((response_text data,
              bool_decide (stop_reason data = Some (lit "max_tokens"))), w)
          else if transient_status status then
            let delay := retry_delay attempt in
            let w := print (lit "    API " ++ dec status
                            ++ lit ", retrying in " ++ dec delay
                            ++ lit "s...") w in
            attempt_loop user_message rest (sleep delay w)
          else
            (([], false),
             print (lit "    API error " ++ dec status ++ lit ": "
                    ++ take 300 text) w)
      | Timeout =>
          let delay := retry_delay attempt in
          let w := print (lit "    API timeout, retrying in " ++ dec delay
                          ++ lit "s...") w in
          attempt_loop user_message rest (sleep delay w)
      | RequestException e =>
          (([], false), print (lit "    API request error: " ++ e) w)
      end
  end.

(** [_call_claude_api(api_key, user_message, max_tokens)] of [refine.py]:
    the text and the truncation flag. *)
Definition _call_claude_api (user_message : str) (w : world)
  : (str * bool) * world :=
  attempt_loop user_message (seq 0 Config.MAX_RETRIES) w.

(** [_call_claude(api_key, system_prompt, user_message)] of the share
    scripts: the text. *)
Definition _call_claude (user_message : str) (w : world) : str * world :=
  let '((text, _), w) :=
    attempt_loop user_message (seq 0 Config.MAX_RETRIES) w in
  (text, w).

End Client.

(** The requests sent and the delays slept, read off a trace. *)
Definition posts (t : list event) : nat :=
  length (List.filter (λ e, match e with EPost _ => true | _ => false end) t).

Definition sleeps (t : list event) : list N :=
  omap (λ e, match e with ESleep d => Some d | _ => None end) t.

(** The requests and the sleeps of a trace, in order, without the printed
    lines. *)
Definition timeline (t : list event) : list event :=
  List.filter (λ e, match e with EPrint _ => false | _ => true end) t.

(** The outcomes that are retried. *)
Definition transient (o : outcome) : bool :=
  match o with
  | Response status _ _ => transient_status status
  | Timeout => true
  | RequestException _ => false
  end.

(** The outcomes that end the call with the empty text at once: a status
    that is neither 200 nor retried, or an exception that is no timeout. *)
Definition fatal (o : outcome) : bool :=
  match o with
  | Response status _ _ => negb (status =? 200) && negb (transient_status status)
  | Timeout => false
  | RequestException _ => true
  end.

Definition w0 : world := mk_world 0 [].

End Remote.

(** ** Entry extraction: [_parse_entries_from_file] *)

Module Extract.

Definition dashes : str := lit "---".

(** The body of a stripped segment: what follows the first [---] line, or,
    without one, what follows the first two lines. *)
Definition segment_body (entry_text : str) : str :=
  match split_sep_once dashes true entry_text with
  | None => strip (join [nl] (drop 2 (split_lines entry_text)))
  | Some (_, after) => strip after
  end.

Section Variant.

(** The tag test of the script: [has_share_tag] or
    [has_share_tag_strict]. *)
Variable tagged : str → bool.

(** The body of the loop over [entries_raw]: [None] is [continue] or an
    empty body. *)
Definition entry_of_segment (name source_date raw : str)
  : option ShareEntry.t :=
  let entry_text := strip raw in
  if negb (startswith heading_mark entry_text) then None
  else if negb (tagged entry_text) then None
  else
    match match_heading entry_text with
    | None => None
    | Some (g, _) =>
        let title := strip g in
        let body := segment_body entry_text in
        match body with
        | [] => None
        | _ => Some (ShareEntry.mk title body name source_date)
        end
    end.

(** The index of the line after the closing [---] of the front matter. *)
Fixpoint front_matter_end (i : nat) (lines : list str) : option nat :=
  match lines with
  | [] => None
  | line :: rest =>
      if eqb_str (strip line) dashes then Some (S i)
      else front_matter_end (S i) rest
  end.

Definition content_start (lines : list str) : nat :=
  match lines with
  | first :: rest =>
      if eqb_str (strip first) dashes
      then default 0%nat (front_matter_end 1 rest)
      else 0%nat
  | [] => 0%nat
  end.

(** The class [\d] of [re] on [str] patterns is the Unicode category Nd,
    a table of the interpreter. *)
Variable isdecimal : char → bool.

(** [(\d{4}-\d{2}-\d{2})] at the start of [s]. *)
Definition date_at (s : str) : option str :=
  match s with
  | y1 :: y2 :: y3 :: y4 :: h1 :: m1 :: m2 :: h2 :: d1 :: d2 :: _ =>
      if isdecimal y1 && isdecimal y2 && isdecimal y3 && isdecimal y4
         && (h1 =? 45) && isdecimal m1 && isdecimal m2
         && (h2 =? 45) && isdecimal d1 && isdecimal d2
      then Some (take 10 s) else None
  | _ => None
  end.

(** [date:\s*(\d{4}-\d{2}-\d{2})] at the start of [s]. *)
Definition date_field_at (s : str) : option str :=
  if startswith (lit "date:") s then date_at (lstrip (drop 5 s)) else None.

(** Group 1 of the first match of [re.search]. *)
Fixpoint search_group (m : str → option str) (s : str) : option str :=
  match m s with
  | Some g => Some g
  | None =>
      match s with
      | [] => None
      | _ :: r => search_group m r
      end
  end.

(** [_parse_entries_from_file(filepath)], where [text] is what
    [filepath.read_text] returns, [name] is [filepath.name] and [stem] is
    [filepath.stem]. *)
Definition _parse_entries_from_file (text name stem : str)
  : list ShareEntry.t :=
  let lines := split_lines text in
  let source_date :=
    match search_group date_field_at text with
    | Some d => d
    | None => default [] (search_group date_at stem)
    end in
  let content := join [nl] (drop (content_start lines) lines) in
  omap (entry_of_segment name source_date) (split_headings true content).

End Variant.

(** Decimal digits of ASCII, enough of the class [\d] for the examples. *)
Definition ascii_digit (c : char) : bool := (48 <=? c) && (c <=? 57).

End Extract.

(** ** [refine.py]: one remote call per date *)

Module Refine.
Import Remote.

(** The state of [refine_all]: the outside, the files of [OUTPUT_DIR] by
    name, and the three counters. *)
Record state : Type := mk_state
  { st_world : world; st_out : gmap str str;
    success : nat; skipped : nat; failed : nat }.

Definition truncated_marker : str := [nl; nl] ++ lit "[TRUNCATED]" ++ [nl].

(** [_build_user_message(date, entries)] *)
Definition _build_user_message (date : str) (entries : list (str * str))
  : str :=
  join [nl]
    ((lit "# " ++ date ++ [nl])
     :: flat_map (λ '(time_str, content),
                    [lit "## " ++ time_str ++ [nl]; strip content; []])
          entries).

(** The front matter and the text that [_write_output_md] writes. *)
Definition output_md (date : str) (entry_count : nat) (refined_text : str)
  : str :=
  lit "---" ++ [nl] ++ lit "date: " ++ date ++ [nl]
  ++ lit "type: daily-note" ++ [nl]
  ++ lit "entries: " ++ dec (N.of_nat entry_count) ++ [nl]
  ++ lit "---" ++ [nl; nl] ++ refined_text.

Definition output_name (date : str) : str := date ++ lit ".md".

Definition refining_line (date : str) (entries : list (str * str)) : str :=
  lit "  Refining " ++ date ++ lit " (" ++ dec (N.of_nat (length entries))
  ++ lit " entries)...".

Definition failed_line (date : str) : str :=
  lit "    FAILED: No response for " ++ date.

Definition truncated_line (date : str) : str :=
  lit "    WARNING: Response was truncated for " ++ date.

(** [get_api_key()] of [config.py]: [env] is the value of
    [ANTHROPIC_API_KEY], empty when it is not set. *)
Definition get_api_key (env : str) : result str :=
  match env with
  | [] => Raised (SystemExit Config.api_key_missing)
  | key => Ok key
  end.

Section Run.

Variable service : nat → outcome.
Variables force dry_run : bool.

Definition with_world (f : world → world) (st : state) : state :=
  mk_state (f (st_world st)) (st_out st) (success st) (skipped st) (failed st).

(** The body of the loop [for date, entries in groups.items()].  The
    warning of [_check_shrinkage] compares floating-point numbers and only
    prints; it is left out of the trace. *)
Definition refine_one (st : state) (group : str * list (str * str)) : state :=
  let '(date, entries) := group in
  if bool_decide (is_Some (st_out st !! output_name date)) && negb force then
    let st := with_world
                (print (lit "  [SKIP] " ++ date ++ lit ".md already exists")) st in
    mk_state (st_world st) (st_out st) (success st) (S (skipped st)) (failed st)
  else if dry_run then
    let total_chars := list_sum (List.map (λ e, length e.2) entries) in
    let st := with_world
                (print (lit "  [DRY-RUN] " ++ date ++ lit ": "
                        ++ dec (N.of_nat (length entries)) ++ lit " entries, ~"
                        ++ dec (N.of_nat total_chars)
                        ++ lit " chars -> output/" ++ date ++ lit ".md")) st in
    mk_state (st_world st) (st_out st) (success st) (S (skipped st)) (failed st)
  else
    let st := with_world (print (refining_line date entries)) st in
    let user_message := _build_user_message date entries in
    let '((refined, truncated), w) :=
      _call_claude_api service user_message (st_world st) in
    match refined with
    | [] =>
        let w := print (failed_line date) w in
        mk_state w (st_out st) (success st) (skipped st) (S (failed st))
    | _ =>
        let '(refined, w) :=
          if truncated
          then (refined ++ truncated_marker, print (truncated_line date) w)
          else (refined, w) in
        let out :=
          <[output_name date := output_md date (length entries) refined]>
            (st_out st) in
        let w := print (lit "    -> " ++ output_name date) w in
        mk_state w out (S (success st)) (skipped st) (failed st)
    end.

(** [refine_all(force, dry_run)], where [groups] is the ordered dictionary
    that [group_transcripts_by_date()] returns and [api_key] is the value
    of [ANTHROPIC_API_KEY], empty when it is not set. *)
Definition refine_all (groups : list (str * list (str * str)))
    (api_key : str) (w : world) (out : gmap str str)
  : result (nat * nat * nat) * state :=
  match groups with
  | [] =>
      (Ok (0, 0, 0)%nat,
       mk_state (print (lit "  No transcripts found to refine") w) out 0 0 0)
  | _ =>
      match (if dry_run then Ok [] else get_api_key api_key) with
      | Raised e => (Raised e, mk_state w out 0 0 0)
      | Ok _ =>
          let st := foldl refine_one (mk_state w out 0 0 0) groups in
          (Ok (success st, skipped st, failed st), st)
      end
  end.

End Run.
End Refine.

(** ** The stages of the share scripts that call the service *)

Module Stage.
Import Remote.

Section Stage.

Variable service : nat → outcome.

(** The common text of [refine_for_twitter], [prepare_linkedin_posts] and
    [generate_social_posts]: read the artifact [input] of the output
    directory [dir], call the service once, leave with [SystemExit] when
    the answer is empty, write the artifact [output] otherwise. *)
Definition run (input output missing announce empty : str)
    (w : world) (dir : gmap str str)
  : result str * world * gmap str str :=
  match dir !! input with
  | None => (Raised (SystemExit missing), w, dir)
  | Some stored =>
      let user_message := read_text stored in
      let w := print announce w in
      let '(refined, w) := _call_claude service user_message w in
      match refined with
      | [] => (Raised (SystemExit empty), w, dir)
      | _ => (Ok output, w, <[output := refined]> dir)
      end
  end.

End Stage.
End Stage.

(** ** [share_pipeline.py] *)

Module SharePipeline.

Definition _parse_entries_from_file :=
  Extract._parse_entries_from_file has_share_tag.

(** [refine_for_twitter(api_key, output_dir)] *)
Definition refine_for_twitter (service : nat → Remote.outcome) :=
  Stage.run service (lit "01_extracted.md") (lit "02_twitter.md")
    (lit "ERROR: 01_extracted.md not found. Run extract step first.")
    (lit "  Calling Claude API for Twitter refinement...")
    (lit "ERROR: Claude API returned empty response for refinement.").

(** The blocks of the refined artifact: the parts between the [===] lines,
    stripped, the empty ones left out. *)
Definition refined_blocks (text : str) : list str :=
  List.filter (λ b, negb (eqb_str b []))
    (List.map strip (split_sep (lit "===") true 0 text)).

Definition no_date_warning (title today : str) : str :=
  lit "  WARNING: No source_date for entry '" ++ title
  ++ lit "', using today (" ++ today ++ lit ")".

(** The body of the loop [for i, block in enumerate(blocks)]: the record of
    the block and the lines it prints, [None] for [continue]. *)
Definition block_record (source_entries : list ShareEntry.t) (today : str)
    (i : nat) (block : str) : option (RefinedEntry.t * list str) :=
  match match_heading block with
  | None => None
  | Some (g, rest) =>
      let title := strip g in
      let content := strip rest in
      let source_date :=
        match source_entries !! i with
        | Some e => ShareEntry.source_date e
        | None => []
        end in
      match source_date with
      | [] => Some (RefinedEntry.mk title content today,
                    [no_date_warning title today])
      | _ => Some (RefinedEntry.mk title content source_date, [])
      end
  end.

Fixpoint parse_blocks (source_entries : list ShareEntry.t) (today : str)
    (i : nat) (blocks : list str) : list RefinedEntry.t * list str :=
  match blocks with
  | [] => ([], [])
  | block :: rest =>
      let '(refined, lines) := parse_blocks source_entries today (S i) rest in
      match block_record source_entries today i block with
      | None => (refined, lines)
      | Some (r, l) => (r :: refined, l ++ lines)
      end
  end.

(** [_parse_refined_entries(output_dir, source_entries)]: the records and
    the printed lines.  [dir] holds the files of [output_dir] by name and
    [today] is [datetime.today().strftime("%Y-%m-%d")]. *)
Definition _parse_refined_entries (dir : gmap str str)
    (source_entries : list ShareEntry.t) (today : str)
  : result (list RefinedEntry.t) * list str :=
  match dir !! lit "02_twitter.md" with
  | None =>
      (Raised (SystemExit
                 (lit "ERROR: 02_twitter.md not found. Run refine step first.")),
       [])
  | Some stored =>
      let text := read_text stored in
      let '(refined, lines) :=
        parse_blocks source_entries today 0 (refined_blocks text) in
      (Ok refined, lines)
  end.

Definition separator : str := [nl; nl] ++ lit "===" ++ [nl; nl].

(** [f"## {e.title}\n\n{e.content}"] *)
Definition entry_text (e : RefinedEntry.t) : str :=
  heading_mark ++ RefinedEntry.title e ++ [nl; nl] ++ RefinedEntry.content e.

(** The name of the file of a week in [vault_posts_dir]. *)
Definition bucket_file (week_label : str) : str := week_label ++ lit ".md".

(** [week_groups[label].append(entry)] on the [defaultdict(list)]; the
    dictionary keeps the order in which its keys came. *)
Fixpoint group_add (label : str) (entry : RefinedEntry.t)
    (groups : list (str * list RefinedEntry.t))
  : list (str * list RefinedEntry.t) :=
  match groups with
  | [] => [(label, [entry])]
  | (l, es) :: rest =>
      if eqb_str l label then (l, es ++ [entry]) :: rest
      else (l, es) :: group_add label entry rest
  end.

(** The entries that are not yet in the file, the text that is added for
    them and the new content of the file. *)
Definition new_entries_of (existing_content : str)
    (entries : list RefinedEntry.t) : list RefinedEntry.t :=
  let existing_titles := findall_headings existing_content in
  List.filter
    (λ e, negb (bool_decide (RefinedEntry.title e ∈ existing_titles)))
    entries.

Definition skipped_entries_of (existing_content : str)
    (entries : list RefinedEntry.t) : list RefinedEntry.t :=
  let existing_titles := findall_headings existing_content in
  List.filter (λ e, bool_decide (RefinedEntry.title e ∈ existing_titles))
    entries.

Definition append_text_of (new_entries : list RefinedEntry.t) : str :=
  join separator (List.map entry_text new_entries).

Definition new_content_of (existing_content : str)
    (new_entries : list RefinedEntry.t) : str :=
  match existing_content with
  | [] => append_text_of new_entries ++ [nl]
  | _ => rstrip existing_content ++ separator ++ append_text_of new_entries
         ++ [nl]
  end.

(** The files of [vault_posts_dir] by name, the paths written and the
    lines printed. *)
Record merge_state : Type := mk_merge
  { vault : gmap str str; written_paths : list str; printed : list str }.

(** [file_path.read_text(encoding="utf-8") if file_path.exists() else ""] *)
Definition read_existing (v : gmap str str) (file_path : str) : str :=
  match v !! file_path with
  | Some stored => read_text stored
  | None => []
  end.

(** The body of the loop [for week_label, entries in week_groups.items()]. *)
Definition merge_group (st : merge_state)
    (group : str * list RefinedEntry.t) : merge_state :=
  let '(week_label, entries) := group in
  let file_path := bucket_file week_label in
  let existing_content := read_existing (vault st) file_path in
  let new_entries := new_entries_of existing_content entries in
  let lines :=
    printed st
    ++ List.map (λ e, lit "  Skipping (already exists): " ++ RefinedEntry.title e)
         (skipped_entries_of existing_content entries) in
  match new_entries with
  | [] =>
      mk_merge (vault st) (written_paths st)
        (lines ++ [lit "  No new entries for " ++ week_label])
  | _ =>
      let new_content := new_content_of existing_content new_entries in
      mk_merge (<[file_path := new_content]> (vault st))
        (written_paths st ++ [file_path])
        (lines
         ++ List.map (λ e, lit "  Adding to " ++ week_label ++ lit ": "
                           ++ RefinedEntry.title e) new_entries
         ++ [lit "  Wrote " ++ dec (N.of_nat (length new_entries))
             ++ lit " entries to " ++ file_path])
  end.

Section Merge.

(** [datetime.fromisoformat(date_str).isocalendar()]: the ISO year and the
    ISO week of the date, [None] when [fromisoformat] raises
    [ValueError]. *)
Variable isocalendar : str → option (N * N).

(** [_iso_week_label(date_str)] *)
Definition _iso_week_label (date_str : str) : option str :=
  '(year, week) ← isocalendar date_str;
  Some (lit "Week " ++ dec week ++ lit " - " ++ dec year).

(** The loop that fills [week_groups]; [None] when a date is refused. *)
Fixpoint group_by_week (entries : list RefinedEntry.t)
    (groups : list (str * list RefinedEntry.t))
  : option (list (str * list RefinedEntry.t)) :=
  match entries with
  | [] => Some groups
  | entry :: rest =>
      label ← _iso_week_label (RefinedEntry.source_date entry);
      group_by_week rest (group_add label entry groups)
  end.

(** [merge_to_shared_posts(refined_entries, vault_posts_dir)] on the files
    [v] of the directory. *)
Definition merge_to_shared_posts (refined_entries : list RefinedEntry.t)
    (v : gmap str str) : result (list str) * merge_state :=
  match group_by_week refined_entries [] with
  | None => (Raised ValueError, mk_merge v [] [])
  | Some week_groups =>
      let st := foldl merge_group (mk_merge v [] []) week_groups in
      (Ok (written_paths st), st)
  end.

(** The files after a run. *)
Definition vault_after (refined_entries : list RefinedEntry.t)
    (v : gmap str str) : gmap str str :=
  vault (merge_to_shared_posts refined_entries v).2.

(** The files after several runs, one after the other. *)
Definition vault_after_runs (runs : list (list RefinedEntry.t))
    (v : gmap str str) : gmap str str :=
  foldl (λ v run, vault_after run v) v runs.

End Merge.
End SharePipeline.

(** ** [share_to_social.py] *)

Module ShareToSocial.

Definition _parse_entries_from_file :=
  Extract._parse_entries_from_file has_share_tag.

(** [generate_social_posts(api_key, output_dir)] *)
Definition generate_social_posts (service : nat → Remote.outcome) :=
  Stage.run service (lit "01_extracted.md") (lit "02_social.md")
    (lit "ERROR: 01_extracted.md not found. Run extract step first.")
    (lit "  Calling Claude API for multi-platform social post generation...")
    (lit "ERROR: Claude API returned empty response.").

(** The class of [re.sub] in [_safe_filename]: backslash, slash, colon,
    asterisk, question mark, double quote, less, greater, pipe. *)
Definition forbidden : str := [92; 47; 58; 42; 63; 34; 60; 62; 124].

Definition dot : char := 46.
Definition dash : char := 45.
Definition slash : char := 47.

(** The [re.sub] of [_safe_filename]: a dash for every code point of the
    class. *)
Definition sanitize (title : str) : str :=
  List.map (λ c, if bool_decide (c ∈ forbidden) then dash else c) title.

(** [_safe_filename(title)] *)
Definition _safe_filename (title : str) : str :=
  let slug := sanitize title in
  match strip_chars [dot; space] slug with
  | [] => lit "untitled"
  | s => s
  end.

(** A [pathlib.PurePosixPath]: whether it is absolute, and its parts. *)
Abbreviation path := (bool * list str)%type.

(** The parts of a string that is read as a path: empty parts and [.] are
    dropped. *)
Definition components (s : str) : list str :=
  List.filter (λ c, negb (eqb_str c [] || eqb_str c [dot]))
    (split_char slash s).

(** [p / s] *)
Definition path_div (p : path) (s : str) : path :=
  if startswith [slash] s then (true, components s)
  else (p.1, p.2 ++ components s).

(** The text of the file of a post. *)
Definition post_text (post : SocialPost.t) : str :=
  join [nl]
    ([heading_mark ++ SocialPost.title post; []]
     ++ match SocialPost.brief post with
        | [] => []
        | brief => [brief; []]
        end
     ++ [ lit "---twitter-cn---"; SocialPost.twitter_cn post; [];
          lit "---linkedin-en---"; SocialPost.linkedin_en post; [];
          lit "---youtube-shorts---"; SocialPost.youtube_shorts post; [] ]).

Definition month_dir_of (manual_dir : path) (post : SocialPost.t) : path :=
  path_div manual_dir (take 7 (SocialPost.source_date post)).

Definition file_name_of (post : SocialPost.t) : str :=
  SocialPost.source_date post ++ [dash]
  ++ _safe_filename (SocialPost.title post) ++ lit ".md".

Definition file_path_of (manual_dir : path) (post : SocialPost.t) : path :=
  path_div (month_dir_of manual_dir post) (file_name_of post).

(** [file_path.name] *)
Definition path_name (p : path) : str := default [] (last p.2).

(** The files of the content vault by path, the paths written and the
    lines printed.  The month directories exist after [mkdir] and hold
    only files. *)
Record save_state : Type := mk_save
  { files : gmap path str; saved_paths : list path; shown : list str }.

(** What the loop [for post in posts] does with a post whose paths the
    file system takes: it skips the post when its file is there, else it
    writes the file. *)
Definition store_post (manual_dir : path) (st : save_state)
    (post : SocialPost.t) : save_state :=
  let month_label := take 7 (SocialPost.source_date post) in
  let file_path := file_path_of manual_dir post in
  if bool_decide (is_Some (files st !! file_path)) then
    mk_save (files st) (saved_paths st)
      (shown st ++ [lit "  [SKIP] Already exists: " ++ path_name file_path])
  else
    mk_save (<[file_path := post_text post]> (files st))
      (saved_paths st ++ [file_path])
      (shown st ++ [lit "  Saved: " ++ month_label ++ [slash]
                    ++ path_name file_path]).

(** Why the file system cannot take a path: a name that is too long for
    it, or a NUL character.  [_safe_filename] lets both through. *)
Inductive fs_error : Type := NameTooLong | EmbeddedNul.

(** The exception of the call that meets the error. *)
Definition fs_exn (x : fs_error) : exn :=
  match x with
  | NameTooLong => OSError
  | EmbeddedNul => ValueError
  end.

Section FileSystem.

(** The file system: the error that it has for a path, [None] for a path
    that it takes. *)
Variable refuses : path → option fs_error.

(** The error that stops the loop at a post: [month_dir.mkdir] raises for
    a directory that the file system cannot take; for such a file,
    [file_path.exists()] raises, or it answers [False] and
    [file_path.write_text] raises.  In each case nothing is written and
    nothing is printed for the post. *)
Definition refused (manual_dir : path) (post : SocialPost.t)
  : option fs_error :=
  match refuses (month_dir_of manual_dir post) with
  | Some x => Some x
  | None => refuses (file_path_of manual_dir post)
  end.

(** The body of the loop [for post in posts]. *)
Definition save_post (manual_dir : path) (st : save_state)
    (post : SocialPost.t) : result save_state :=
  match refused manual_dir post with
  | Some x => Raised (fs_exn x)
  | None => Ok (store_post manual_dir st post)
  end.

(** The loop [for post in posts]: it stops at the first post that raises,
    with what it has written and printed so far. *)
Fixpoint save_loop (manual_dir : path) (posts : list SocialPost.t)
    (st : save_state) : result unit * save_state :=
  match posts with
  | [] => (Ok tt, st)
  | post :: rest =>
      match save_post manual_dir st post with
      | Raised e => (Raised e, st)
      | Ok st => save_loop manual_dir rest st
      end
  end.

(** [save_to_content_vault(posts, manual_dir)] on the files [fs]. *)
Definition save_to_content_vault (posts : list SocialPost.t)
    (manual_dir : path) (fs : gmap path str)
  : result (list path) * save_state :=
  match save_loop manual_dir posts (mk_save fs [] []) with
  | (Ok _, st) => (Ok (saved_paths st), st)
  | (Raised e, st) => (Raised e, st)
  end.

(** The posts that the loop goes through: those in front of the first
    post that raises. *)
Fixpoint reached (manual_dir : path) (posts : list SocialPost.t)
  : list SocialPost.t :=
  match posts with
  | [] => []
  | post :: rest =>
      match refused manual_dir post with
      | Some _ => []
      | None => post :: reached manual_dir rest
      end
  end.

End FileSystem.

End ShareToSocial.

(** ** [share_to_linkedin.py] *)

Module ShareToLinkedin.

Definition _parse_entries_from_file :=
  Extract._parse_entries_from_file has_share_tag_strict.

(** [refine_for_twitter(api_key, output_dir)] *)
Definition refine_for_twitter (service : nat → Remote.outcome) :=
  Stage.run service (lit "01_extracted.md") (lit "02_twitter.md")
    (lit "ERROR: 01_extracted.md not found. Run extract step first.")
    (lit "  Calling Claude API for Twitter refinement...")
    (lit "ERROR: Claude API returned empty response for refinement.").

(** [prepare_linkedin_posts(api_key, output_dir)] *)
Definition prepare_linkedin_posts (service : nat → Remote.outcome) :=
  Stage.run service (lit "02_twitter.md") (lit "03_linkedin.md")
    (lit "ERROR: 02_twitter.md not found. Run twitter step first.")
    (lit "  Calling Claude API for LinkedIn filtering and translation...")
    (lit "ERROR: Claude API returned empty response for LinkedIn step.").

End ShareToLinkedin.

(** ** Dates

    [datetime.fromisoformat] on the date-only form [YYYY-MM-DD] and
    [isocalendar], as the interpreter computes them; the examples use it
    for the parameter [isocalendar] of [merge_to_shared_posts]. *)

Module Calendar.

Local Open Scope Z_scope.

Definition digit (c : char) : option Z :=
  if ((48 <=? c)%N && (c <=? 57)%N)%bool then Some (Z.of_N c - 48) else None.

Fixpoint number (acc : Z) (s : str) : option Z :=
  match s with
  | [] => Some acc
  | c :: r => d ← digit c; number (10 * acc + d) r
  end.

Definition is_leap (y : Z) : bool :=
  (y mod 4 =? 0) && (negb (y mod 100 =? 0) || (y mod 400 =? 0)).

Definition days_in_month (y m : Z) : Z :=
  if m =? 2 then (if is_leap y then 29 else 28)
  else if (m =? 4) || (m =? 6) || (m =? 9) || (m =? 11) then 30
  else 31.

Definition days_before_year (y : Z) : Z :=
  let p := y - 1 in p * 365 + p / 4 - p / 100 + p / 400.

Definition days_before_month (y m : Z) : Z :=
  foldr Z.add 0
    (List.map (λ k, days_in_month y (Z.of_nat k)) (seq 1 (Z.to_nat (m - 1)))).

(** The ordinal of a date, 1 for the first of January of the year 1. *)
Definition ymd2ord (y m d : Z) : Z :=
  days_before_year y + days_before_month y m + d.

(** The ordinal of the Monday of the first ISO week of a year. *)
Definition isoweek1monday (year : Z) : Z :=
  let firstday := ymd2ord year 1 1 in
  let firstweekday := (firstday + 6) mod 7 in
  let week1monday := firstday - firstweekday in
  if 3 <? firstweekday then week1monday + 7 else week1monday.

(** The ISO year and the ISO week of a date. *)
Definition iso_year_week (y m d : Z) : Z * Z :=
  let today := ymd2ord y m d in
  let week := (today - isoweek1monday y) / 7 in
  if week <? 0 then (y - 1, (today - isoweek1monday (y - 1)) / 7 + 1)
  else if (52 <=? week) && (isoweek1monday (y + 1) <=? today) then (y + 1, 1)
  else (y, week + 1).

Definition parse_date (s : str) : option (Z * Z * Z) :=
  match s with
  | [y1; y2; y3; y4; h1; m1; m2; h2; d1; d2] =>
      if ((h1 =? 45)%N && (h2 =? 45)%N)%bool then
        y ← number 0 [y1; y2; y3; y4];
        m ← number 0 [m1; m2];
        d ← number 0 [d1; d2];
        if (1 <=? y) && (1 <=? m) && (m <=? 12)
           && (1 <=? d) && (d <=? days_in_month y m)
        then Some (y, m, d) else None
      else None
  | _ => None
  end.

Definition isocalendar (date_str : str) : option (N * N) :=
  '(y, m, d) ← parse_date date_str;
  let '(iy, iw) := iso_year_week y m d in
  Some (Z.to_N iy, Z.to_N iw).

End Calendar.

(** ** The conditions of the merge properties *)

(** A heading is clean when it has no trailing whitespace. *)
Definition clean (t : str) : Prop := rstrip t = t.

(** A title that comes back as the heading it was written as: not empty,
    on one line, without carriage return and without trailing whitespace.
    [_parse_refined_entries] strips its titles and takes them from one
    line of a text that was read with [read_text]. *)
Definition wf_title (t : str) : Prop :=
  t ≠ [] ∧ (nl ∉ t) ∧ (cr ∉ t) ∧ clean t.

(** An entry that is read back as it was written: such a title, and a
    content without carriage return. *)
Definition reads_back (e : RefinedEntry.t) : Prop :=
  wf_title (RefinedEntry.title e) ∧ (cr ∉ RefinedEntry.content e).

(** Such an entry whose content has no heading line. *)
Definition wf_entry (e : RefinedEntry.t) : Prop :=
  reads_back e ∧ findall_headings (RefinedEntry.content e) = [].

(** The dates of a run are all accepted, so that the run does not raise. *)
Definition dated (isocalendar : str → option (N * N))
    (run : list RefinedEntry.t) : Prop :=
  Forall (λ e, is_Some (isocalendar (RefinedEntry.source_date e))) run.

(** The week and the title of every entry of a run. *)
Definition keyed (isocalendar : str → option (N * N))
    (run : list RefinedEntry.t) : list (option str * str) :=
  List.map (λ e, (SharePipeline._iso_week_label isocalendar
                    (RefinedEntry.source_date e),
                  RefinedEntry.title e)) run.

(** No two entries of the run have the same title in the same week. *)
Definition distinct_titles (isocalendar : str → option (N * N))
    (run : list RefinedEntry.t) : Prop :=
  NoDup (keyed isocalendar run).

(** The entries of a run that go to the week [label]. *)
Definition bucket (isocalendar : str → option (N * N)) (label : str)
    (run : list RefinedEntry.t) : list RefinedEntry.t :=
  List.filter
    (λ e, bool_decide (SharePipeline._iso_week_label isocalendar
                         (RefinedEntry.source_date e) = Some label))
    run.

(** Every file of the vault, as it is read, has pairwise different
    headings, all clean. *)
Definition vault_ok (v : gmap str str) : Prop :=
  map_Forall (λ _ stored,
                NoDup (findall_headings (read_text stored))
                ∧ Forall clean (findall_headings (read_text stored))) v.

(** What a run does to one file of the vault [v]: [es] are the entries of
    the run for the week of the file. *)
Definition file_after (v : gmap str str) (file_path : str)
    (es : list RefinedEntry.t) : option str :=
  let existing_content := SharePipeline.read_existing v file_path in
  match SharePipeline.new_entries_of existing_content es with
  | [] => v !! file_path
  | new => Some (SharePipeline.new_content_of existing_content new)
  end.

(** The groups of a run are its non-empty buckets, one for each label. *)
Definition groups_of (isocalendar : str → option (N * N))
    (entries : list RefinedEntry.t)
    (groups : list (str * list RefinedEntry.t)) : Prop :=
  NoDup groups.*1
  ∧ ∀ l, (list_to_map groups : gmap str (list RefinedEntry.t)) !! l
         = match bucket isocalendar l entries with
           | [] => None
           | es => Some es
           end.

(** ** Tag detection: wording and samples *)

(** The wording of the specification: the value of the tag field is the
    text between the colon that follows the label and the next pipe or the
    end of the line, and a segment is tagged when that value contains the
    token. *)
Module TagSpec.

Fixpoint field_value (s : str) : str :=
  match s with
  | [] => []
  | c :: r => if (c =? nl) || (c =? 124) then [] else c :: field_value r
  end.

Definition tag_value_at (s : str) : option str :=
  if startswith tag_label s then
    match drop 6 s with
    | c :: r => if is_colon c then Some (field_value r) else None
    | [] => None
    end
  else None.

Definition tag_field_value (seg : str) : option str :=
  Extract.search_group tag_value_at seg.

Definition field_has_marker (seg : str) : bool :=
  match tag_field_value seg with
  | Some v => contains share_token v
  | None => false
  end.

End TagSpec.

(** A tagged segment in the multi-line format that has no body. *)
Definition seg_tagged_no_body : str :=
  lit "## T" ++ [nl] ++ tag_label ++ [65306] ++ lit "#Share".

(** A pipe-delimited segment whose tag field is [#Work]; the token stands
    in a later field of the line. *)
Definition seg_token_in_other_field : str :=
  lit "## T" ++ [nl] ++ tag_label ++ [65306] ++ lit "#Work | **n**"
  ++ [65306] ++ lit "see #Share" ++ [nl] ++ lit "---" ++ [nl] ++ lit "body".

(** A segment whose tag field holds two tags. *)
Definition seg_two_tags : str :=
  lit "## T" ++ [nl] ++ tag_label ++ [65306] ++ lit "#Work #Share" ++ [nl]
  ++ lit "---" ++ [nl] ++ lit "body".

(** Three segments, the first and the third tagged. *)
Definition sample_note : str :=
  lit "---" ++ [nl] ++ lit "date: 2024-01-08" ++ [nl] ++ lit "---" ++ [nl]
  ++ lit "## One" ++ [nl] ++ tag_label ++ [65306] ++ lit "#Share" ++ [nl]
  ++ lit "---" ++ [nl] ++ lit "first body" ++ [nl]
  ++ lit "## Two" ++ [nl] ++ tag_label ++ [65306] ++ lit "#Work" ++ [nl]
  ++ lit "---" ++ [nl] ++ lit "second body" ++ [nl]
  ++ lit "## Three" ++ [nl] ++ lit "**a**" ++ [65306] ++ lit "x | "
  ++ tag_label ++ [58] ++ lit " #Share | **b**" ++ [58] ++ lit "y" ++ [nl]
  ++ [nl] ++ lit "third body" ++ [nl].

(** C8 as it is worded: a headed segment gives an entry exactly when the
    value of its tag field contains the token. *)
Definition tag_detection_as_worded (tagged : str → bool) : Prop :=
  ∀ name date seg : str,
    startswith heading_mark seg = true →
    (is_Some (Extract.entry_of_segment tagged name date seg)
     ↔ TagSpec.field_has_marker seg = true).


(** ** The service claims as they are worded, and sample services *)

(** A service that answers the first request with status 429, the second
    with 503 and every later one with 529. *)
Definition service_busy : nat → Remote.outcome :=
  λ n, Remote.Response (match n with 0%nat => 429 | 1%nat => 503 | _ => 529 end)
         (Remote.mk_body [] None) [].

(** A service that refuses every request with status 400. *)
Definition service_400 : nat → Remote.outcome :=
  λ _, Remote.Response 400 (Remote.mk_body [] None) (lit "bad request").

(** A service that answers every request with status 200, no text block
    and the stop reason [max_tokens]. *)
Definition service_cut_empty : nat → Remote.outcome :=
  λ _, Remote.Response 200 (Remote.mk_body [] (Some (lit "max_tokens"))) [].

(** A service that answers every request with status 200, one text block
    and the stop reason [max_tokens]. *)
Definition service_cut : nat → Remote.outcome :=
  λ _, Remote.Response 200
         (Remote.mk_body [Remote.mk_block (lit "text") (lit "abc")]
            (Some (lit "max_tokens"))) [].

(** One date with one transcript. *)
Definition one_day : list (str * list (str * str)) :=
  [(lit "2024-01-08", [(lit "10:00:00", lit "hello")])].



(** C7 as it is worded: a date whose answer has status 200 and the stop
    reason [max_tokens] is counted as a success. *)
Definition truncated_counts_as_success : Prop :=
  ∀ (service : nat → Remote.outcome) (date : str)
    (entries : list (str * str)) (data : Remote.body) (text : str),
    service 0%nat = Remote.Response 200 data text →
    Remote.stop_reason data = Some (lit "max_tokens") →
    (Refine.refine_all service false false [(date, entries)] (lit "key")
       Remote.w0 ∅).1
    = Ok (1, 0, 0)%nat.

(** ** The provenance claims as they are worded, and samples *)

Definition twitter_dir (text : str) : gmap str str :=
  {[ lit "02_twitter.md" := text ]}.

(** An entry without date and an entry with a date. *)
Definition entry_undated : ShareEntry.t :=
  ShareEntry.mk (lit "A") (lit "a") (lit "n.md") [].

Definition entry_dated (date : str) : ShareEntry.t :=
  ShareEntry.mk (lit "A") (lit "a") (lit "n.md") date.

(** A refined artifact of one block. *)
Definition one_block : str := lit "## A" ++ [nl] ++ lit "text".

(** A refined artifact of two blocks. *)
Definition two_blocks : str :=
  lit "## A" ++ [nl] ++ lit "text" ++ [nl] ++ lit "===" ++ [nl]
  ++ lit "## B" ++ [nl] ++ lit "more".

(** C3 as it is worded: with as many headed blocks as entries, the record
    at a position carries the [source_date] of the entry at that position,
    the empty one too. *)
Definition provenance_as_worded : Prop :=
  ∀ (text today : str) (entries : list ShareEntry.t)
    (records : list RefinedEntry.t) (lines : list str),
    SharePipeline._parse_refined_entries (twitter_dir text) entries today
    = (Ok records, lines) →
    Forall (λ b, is_Some (match_heading b))
    (SharePipeline.refined_blocks (read_text text)) →
    length (SharePipeline.refined_blocks (read_text text)) = length entries →
    ∀ i e, entries !! i = Some e →
           ∃ r, records !! i = Some r
                ∧ RefinedEntry.source_date r = ShareEntry.source_date e.

(** C6 as it is worded, first half: with fewer blocks than entries some
    record falls back to today's date and its warning is printed. *)
Definition fewer_blocks_fall_back : Prop :=
  ∀ (text today : str) (entries : list ShareEntry.t)
    (records : list RefinedEntry.t) (lines : list str),
    SharePipeline._parse_refined_entries (twitter_dir text) entries today
    = (Ok records, lines) →
    (length (SharePipeline.refined_blocks (read_text text))
     < length entries)%nat →
    ∃ r, r ∈ records
         ∧ RefinedEntry.source_date r = today
         ∧ SharePipeline.no_date_warning (RefinedEntry.title r) today ∈ lines.

(** ** The merge claims as they are worded, and samples *)

Definition week2_file : str := lit "Week 2 - 2024.md".

(** Two entries of the second week of 2024 with the same title. *)
Definition foo_monday : RefinedEntry.t :=
  RefinedEntry.mk (lit "Foo") (lit "one") (lit "2024-01-08").

Definition foo_tuesday : RefinedEntry.t :=
  RefinedEntry.mk (lit "Foo") (lit "two") (lit "2024-01-09").

Definition bar_monday : RefinedEntry.t :=
  RefinedEntry.mk (lit "Bar") (lit "three") (lit "2024-01-08").

(** An entry without content, and the file that a run writes for it. *)
Definition bare_monday : RefinedEntry.t :=
  RefinedEntry.mk (lit "A") [] (lit "2024-01-08").

Definition bare_vault : gmap str str :=
  {[ week2_file := lit "## A" ++ [nl; nl; nl] ]}.

(** An entry whose title is empty, and a refined artifact that gives it. *)
Definition untitled_monday : RefinedEntry.t :=
  RefinedEntry.mk [] (lit "x") (lit "2024-01-08").

Definition untitled_block : str := lit "##  " ++ [nl] ++ lit "x".

(** C1 as it is worded: whatever the runs are, no file of the vault, as it
    is read, has two headings with the same text. *)
Definition no_duplicates_as_worded : Prop :=
  ∀ (runs : list (list RefinedEntry.t)) (f c : str),
    SharePipeline.vault_after_runs Calendar.isocalendar runs ∅ !! f = Some c →
    NoDup (findall_headings (read_text c)).

(** C9 as it is worded: the content of a file before a run is a prefix of
    its content after the run.  (The sample that fails has no carriage
    return: it is read as it is stored.) *)
Definition append_only_as_worded : Prop :=
  ∀ (entries : list RefinedEntry.t) (v : gmap str str) (f old : str),
    v !! f = Some old →
    ∃ new,
      SharePipeline.vault_after Calendar.isocalendar entries v !! f = Some new
      ∧ old `prefix_of` new.

(** ** The extract step of the share scripts

    [extract_share_entries] and [write_extracted] have the same text in
    [share_pipeline.py], [share_to_social.py] and [share_to_linkedin.py];
    the scripts differ in the tag test of [_parse_entries_from_file]. *)

Module ExtractStep.

(** One file of [sorted(input_dir.glob("*.md"))]: [filepath.name],
    [filepath.stem] and what [filepath.read_text] returns. *)
Record md_file : Type := mk_md
  { md_name : str; md_stem : str; md_text : str }.

Section Variant.

Variable tagged : str → bool.
Variable isdecimal : char → bool.

(** [_parse_entries_from_file(f)] *)
Definition parse_file (f : md_file) : list ShareEntry.t :=
  Extract._parse_entries_from_file tagged isdecimal
    (md_text f) (md_name f) (md_stem f).

Definition found_line (n : nat) (name : str) : str :=
  lit "  Found " ++ dec (N.of_nat n) ++ lit " #Share entries in " ++ name.

(** The body of the loop [for f in md_files]: the entries so far and the
    lines printed so far. *)
Definition extract_file (acc : list ShareEntry.t * list str) (f : md_file)
  : list ShareEntry.t * list str :=
  let entries := parse_file f in
  (acc.1 ++ entries,
   acc.2 ++ match entries with
            | [] => []
            | _ => [found_line (length entries) (md_name f)]
            end).

(** [extract_share_entries(input_dir)]: the entries and the lines printed.
    [input_dir] is the directory as it is printed, and [listing] is [None]
    when the directory does not exist, else the files that
    [sorted(input_dir.glob("*.md"))] lists, in order. *)
Definition extract_share_entries (input_dir : str)
    (listing : option (list md_file)) : list ShareEntry.t * list str :=
  match listing with
  | None => ([], [lit "  Input directory not found: " ++ input_dir])
  | Some [] => ([], [lit "  No .md files found in " ++ input_dir])
  | Some md_files => foldl extract_file ([], []) md_files
  end.

End Variant.

(** The text that [write_extracted] writes. *)
Definition extracted_text (entries : list ShareEntry.t) : str :=
  join [nl]
    (flat_map (λ e, [heading_mark ++ ShareEntry.title e ++ [nl];
                     ShareEntry.body e; []]) entries).

(** [write_extracted(entries, output_dir)] on the files [dir] of the
    output directory: the name of the artifact and the files after. *)
Definition write_extracted (entries : list ShareEntry.t)
    (dir : gmap str str) : str * gmap str str :=
  (lit "01_extracted.md",
   <[lit "01_extracted.md" := extracted_text entries]> dir).

End ExtractStep.

(** ** [share_to_social.py]: [_parse_social_posts] *)

Module SocialParse.

(** U+7B80 U+8FF0, the label of the brief. *)
Definition brief_label : str := [31616; 36848].

(** [$] without [re.MULTILINE]: the end of the text, or the newline that
    ends the text. *)
Definition at_end (s : str) : bool :=
  match s with
  | [] => true
  | [c] => c =? nl
  | _ => false
  end.

(** A lazy group under [re.DOTALL] in front of a lookahead,
    [(.*?)(?=stop|$)]: the shortest text after which [stop] or [$]
    holds. *)
Fixpoint lazy_until (stop : str → bool) (s : str) : str :=
  match s with
  | [] => []
  | c :: r => if stop s || at_end s then [] else c :: lazy_until stop r
  end.

(** The lookahead of the brief: a newline and [---twitter-cn---]. *)
Definition brief_stop (s : str) : bool :=
  startswith ([nl] ++ lit "---twitter-cn---") s.

(** Group 1 of [label [colon] \s*(.+?)(?=\n---twitter-cn---|$)] at the
    start of [s].  The star takes all the whitespace; the group starts at
    the code point after it and has one code point at least.  When the
    whitespace goes to the end of the text, the star gives its last code
    point back to the group. *)
Definition brief_at (s : str) : option str :=
  if startswith brief_label s then
    match drop 2 s with
    | c :: r =>
        if is_colon c then
          match lstrip r with
          | x :: t => Some (x :: lazy_until brief_stop t)
          | [] => c' ← last r; Some [c']
          end
        else None
    | [] => None
    end
  else None.

(** [\s*\n] at the start of [r]: what follows the match.  The star is
    greedy, so the match ends with the last newline of the whitespace. *)
Fixpoint ws_nl (r : str) : option str :=
  match r with
  | [] => None
  | c :: r' =>
      if isspace c then
        match ws_nl r' with
        | Some rest => Some rest
        | None => if c =? nl then Some r' else None
        end
      else None
  end.

Section Words.

(** The class [\w] of [re] on [str] patterns: the alphanumeric code points
    and the underscore, a table of the interpreter. *)
Variable isword : char → bool.

(** The lookahead of a section: a newline, [---] and a word code point. *)
Definition section_stop (s : str) : bool :=
  startswith ([nl] ++ lit "---") s
  && match drop 4 s with
     | w :: _ => isword w
     | [] => false
     end.

(** Group 1 of [---tag---\s*\n(.*?)(?=\n---\w|$)] at the start of [s],
    for a [tag] that holds no special character of [re]. *)
Definition section_at (tag s : str) : option str :=
  let mark := lit "---" ++ tag ++ lit "---" in
  if startswith mark s
  then rest ← ws_nl (drop (length mark) s);
       Some (lazy_until section_stop rest)
  else None.

(** [_extract_section(tag)] in the block [block]. *)
Definition _extract_section (block tag : str) : str :=
  match Extract.search_group (section_at tag) block with
  | Some g => strip g
  | None => []
  end.

Definition brief_of (block : str) : str :=
  match Extract.search_group brief_at block with
  | Some g => strip g
  | None => []
  end.

Definition no_date_warning (title : str) : str :=
  lit "  WARNING: No source_date for '" ++ title ++ lit "', using today".

(** The body of the loop [for i, block in enumerate(blocks)]: the post of
    the block and the lines it prints, [None] for [continue]. *)
Definition post_record (source_entries : list ShareEntry.t) (today : str)
    (i : nat) (block : str) : option (SocialPost.t * list str) :=
  match match_heading block with
  | None => None
  | Some (g, _) =>
      let title := strip g in
      let brief := brief_of block in
      let twitter_cn := _extract_section block (lit "twitter-cn") in
      let linkedin_en := _extract_section block (lit "linkedin-en") in
      let youtube_shorts := _extract_section block (lit "youtube-shorts") in
      let source_date :=
        match source_entries !! i with
        | Some e => ShareEntry.source_date e
        | None => []
        end in
      match source_date with
      | [] => Some (SocialPost.mk title brief twitter_cn linkedin_en
                      youtube_shorts today,
                    [no_date_warning title])
      | _ => Some (SocialPost.mk title brief twitter_cn linkedin_en
                     youtube_shorts source_date, [])
      end
  end.

Fixpoint parse_posts (source_entries : list ShareEntry.t) (today : str)
    (i : nat) (blocks : list str) : list SocialPost.t * list str :=
  match blocks with
  | [] => ([], [])
  | block :: rest =>
      let '(posts, lines) := parse_posts source_entries today (S i) rest in
      match post_record source_entries today i block with
      | None => (posts, lines)
      | Some (p, l) => (p :: posts, l ++ lines)
      end
  end.

(** [_parse_social_posts(output_dir, source_entries)]: the posts and the
    lines printed.  [dir] holds the files of [output_dir] by name and
    [today] is [datetime.today().strftime("%Y-%m-%d")].  The blocks are
    cut as in [_parse_refined_entries]. *)
Definition _parse_social_posts (dir : gmap str str)
    (source_entries : list ShareEntry.t) (today : str)
  : result (list SocialPost.t) * list str :=
  match dir !! lit "02_social.md" with
  | None =>
      (Raised (SystemExit
                 (lit "ERROR: 02_social.md not found. Run generate step first.")),
       [])
  | Some stored =>
      let text := read_text stored in
      let '(posts, lines) :=
        parse_posts source_entries today 0
          (SharePipeline.refined_blocks text) in
      (Ok posts, lines)
  end.

End Words.

(** Letters, digits and the underscore of ASCII, enough of the class [\w]
    for the examples. *)
Definition ascii_word (c : char) : bool :=
  ((48 <=? c) && (c <=? 57)) || ((65 <=? c) && (c <=? 90))
  || ((97 <=? c) && (c <=? 122)) || (c =? 95).

End SocialParse.

(** ** [transcribe.py] and [refine.py]: from file names to the groups of
       [refine_all] *)

Module Transcripts.

(** The first match of [re.search], for a pattern whose match at a
    position is computed by [m]. *)
Fixpoint search_first {A : Type} (m : str → option A) (s : str) : option A :=
  match m s with
  | Some g => Some g
  | None =>
      match s with
      | [] => None
      | _ :: r => search_first m r
      end
  end.

(** The longest prefix of code points that satisfy [p]: a greedy [p+] or
    [p*]. *)
Fixpoint take_while (p : char → bool) (s : str) : str :=
  match s with
  | c :: r => if p c then c :: take_while p r else []
  | [] => []
  end.

(** [a <= b] on [str]: code point by code point, a prefix first. *)
Fixpoint str_leb (a b : str) : bool :=
  match a, b with
  | [], _ => true
  | _ :: _, [] => false
  | x :: a', y :: b' => if x =? y then str_leb a' b' else x <? y
  end.

(** [sorted(l, key=...)], where [le x y] tells that the key of [y] is not
    less than the key of [x].  The sort is stable: an element comes in
    front of the later elements that have its key. *)
Fixpoint insert_by {A : Type} (le : A → A → bool) (x : A) (l : list A)
  : list A :=
  match l with
  | [] => [x]
  | y :: l' => if le x y then x :: l else y :: insert_by le x l'
  end.

Definition sorted_by {A : Type} (le : A → A → bool) (l : list A) : list A :=
  foldr (insert_by le) [] l.

Section Digits.

(** The class [\d] of [re] on [str] patterns, and the value that [int]
    gives to a code point of the class: tables of the interpreter. *)
Variable isdecimal : char → bool.
Variable digit_value : char → N.

Definition all_decimal (s : str) : bool := forallb isdecimal s.

(** [TS_FULL_RE] at the start of [s]: the date and the time as
    [extract_timestamp] writes them. *)
Definition full_at (s : str) : option (str * str) :=
  match s with
  | y1 :: y2 :: y3 :: y4 :: mo1 :: mo2 :: d1 :: d2 :: u
    :: h1 :: h2 :: mi1 :: mi2 :: s1 :: s2 :: _ =>
      if all_decimal [y1; y2; y3; y4; mo1; mo2; d1; d2] && (u =? 95)
         && all_decimal [h1; h2; mi1; mi2; s1; s2]
      then Some ([y1; y2; y3; y4; 45; mo1; mo2; 45; d1; d2],
                 [h1; h2; 58; mi1; mi2; 58; s1; s2])
      else None
  | _ => None
  end.

(** [int(seq)] on a text of the class [\d]. *)
Definition int_of (digits : str) : N :=
  foldl (λ acc c, 10 * acc + digit_value c) 0 digits.

(** [TS_DATE_RE.match(s)]: the date and the sequence number. *)
Definition date_only_at (s : str) : option (str * N) :=
  match s with
  | y1 :: y2 :: y3 :: y4 :: mo1 :: mo2 :: d1 :: d2 :: h :: rest =>
      if all_decimal [y1; y2; y3; y4; mo1; mo2; d1; d2] && (h =? 45) then
        match take_while isdecimal rest with
        | [] => None
        | digits =>
            Some ([y1; y2; y3; y4; 45; mo1; mo2; 45; d1; d2], int_of digits)
        end
      else None
  | _ => None
  end.

(** [extract_timestamp(filename)] of [transcribe.py] *)
Definition extract_timestamp (filename : str) : option (str * str * N) :=
  match search_first full_at filename with
  | Some (date, time) => Some (date, time, 0)
  | None =>
      match date_only_at filename with
      | Some (date, seq) => Some (date, lit "00:00:00", seq)
      | None => None
      end
  end.

(** What the loop of [group_transcripts_by_date] does with one file:
    [name] is [p.name] and [content] is what [_read_text(p)] returns. *)
Inductive seen : Type :=
  | NoTimestamp (name : str)
  | Empty (name : str)
  | Item (date : str) (entry : str * str * N).

Definition see (file : str * str) : seen :=
  let '(name, content) := file in
  match extract_timestamp name with
  | None => NoTimestamp name
  | Some (date, time_str, seq) =>
      match strip content with
      | [] => Empty name
      | _ => Item date (time_str, content, seq)
      end
  end.

(** The keys of [groups] in the order in which they came. *)
Definition dates_seen (l : list seen) : list str :=
  foldl (λ ks s, match s with
                 | Item date _ =>
                     if bool_decide (date ∈ ks) then ks else ks ++ [date]
                 | _ => ks
                 end) [] l.

(** [groups[date]] *)
Definition entries_of (date : str) (l : list seen) : list (str * str * N) :=
  omap (λ s, match s with
             | Item d e => if eqb_str d date then Some e else None
             | _ => None
             end) l.

(** The order of the key [(x[0], x[2])]. *)
Definition key_leb (a b : str * str * N) : bool :=
  if eqb_str a.1.1 b.1.1 then a.2 <=? b.2 else str_leb a.1.1 b.1.1.

(** [group_transcripts_by_date()]: the groups and the lines printed.
    [listing] is [None] when [TRANSCRIPTS_DIR] does not exist, else the
    files that [sorted(TRANSCRIPTS_DIR.glob("*.txt"))] lists, in order,
    each with its name and its text. *)
Definition group_transcripts_by_date (listing : option (list (str * str)))
  : list (str * list (str * str)) * list str :=
  match listing with
  | None => ([], [])
  | Some files =>
      let l := List.map see files in
      let skipped :=
        omap (λ s, match s with NoTimestamp n => Some n | _ => None end) l in
      let lines :=
        omap (λ s, match s with
                   | Empty n => Some (lit "  [SKIP] Empty transcript: " ++ n)
                   | _ => None
                   end) l
        ++ match skipped with
           | [] => []
           | _ => [lit "  Skipped " ++ dec (N.of_nat (length skipped))
                   ++ lit " transcript files (no timestamp)"]
           end in
      (List.map (λ date,
                   (date,
                    List.map (λ e : str * str * N, (e.1.1, e.1.2))
                      (sorted_by key_leb (entries_of date l))))
         (sorted_by str_leb (dates_seen l)),
       lines)
  end.

End Digits.

(** The value of a decimal digit of ASCII. *)
Definition ascii_value (c : char) : N := c - 48.

End Transcripts.

(** ** The command lines of the share scripts *)

(** [str(p)] for a path. *)
Definition path_str (p : ShareToSocial.path) : str :=
  match p with
  | (true, parts) => [ShareToSocial.slash] ++ join [ShareToSocial.slash] parts
  | (false, []) => [ShareToSocial.dot]
  | (false, parts) => join [ShareToSocial.slash] parts
  end.

(** Lines printed one after the other. *)
Definition prints (lines : list str) (w : Remote.world) : Remote.world :=
  foldl (λ w line, Remote.print line w) w lines.

(** [entry.body[:150].replace("\n", " ")] *)
Definition preview_of (body : str) : str :=
  List.map (λ c, if c =? nl then space else c) (take 150 body).

(** *** [share_pipeline.py]: [main] *)

Module PipelineMain.

Import Remote.

(** The message of the [SystemExit] of [refine_for_twitter] on an empty
    answer. *)
Definition twitter_empty : str :=
  lit "ERROR: Claude API returned empty response for refinement.".

(** The choices of [--step]. *)
Inductive step_choice : Type := StepExtract | StepRefine.

(** The outside, the files of [SHARING_OUTPUT_DIR] and the files of
    [VAULT_SHARED_POSTS_DIR]. *)
Record state : Type := mk_state
  { st_world : world; st_out : gmap str str; st_vault : gmap str str }.

Section Main.

Variable isdecimal : char → bool.
Variable service : nat → outcome.
Variable isocalendar : str → option (N * N).

(** The loop of the preview: [_iso_week_label] raises [ValueError] on a
    date that [fromisoformat] refuses. *)
Fixpoint preview (entries : list ShareEntry.t) (w : world)
  : result unit * world :=
  match entries with
  | [] => (Ok tt, w)
  | entry :: rest =>
      match (match ShareEntry.source_date entry with
             | [] => Some (lit "(no date)")
             | d => SharePipeline._iso_week_label isocalendar d
             end) with
      | None => (Raised ValueError, w)
      | Some week_label =>
          let w := print ([nl] ++ lit "  ## " ++ ShareEntry.title entry
                          ++ lit "  [" ++ ShareEntry.source_file entry
                          ++ lit " -> " ++ week_label ++ lit "]") w in
          let w := print (lit "     " ++ preview_of (ShareEntry.body entry)
                          ++ lit "...") w in
          preview rest w
      end
  end.

(** Step 3 of [main]. *)
Definition merge_step (entries : list ShareEntry.t)
    (vault_dir : ShareToSocial.path) (today : str) (st : state)
  : result unit * state :=
  let w := print ([nl] ++ lit "Step 3: Merging into Obsidian Shared posts...")
             (st_world st) in
  match SharePipeline._parse_refined_entries (st_out st) entries today with
  | (Raised e, lines) =>
      (Raised e, mk_state (prints lines w) (st_out st) (st_vault st))
  | (Ok refined_entries, lines) =>
      let w := prints lines w in
      match SharePipeline.merge_to_shared_posts isocalendar refined_entries
              (st_vault st) with
      | (Raised e, merged) =>
          (Raised e,
           mk_state (prints (SharePipeline.printed merged) w) (st_out st)
             (SharePipeline.vault merged))
      | (Ok written, merged) =>
          let w := prints (SharePipeline.printed merged) w in
          let w :=
            match written with
            | [] => print (lit "  No files updated (all entries already exist).") w
            | _ =>
                prints
                  (List.map (λ name, lit "    "
                                     ++ path_str
                                          (ShareToSocial.path_div vault_dir name))
                     written)
                  (print ([nl] ++ lit "  Updated "
                          ++ dec (N.of_nat (length written))
                          ++ lit " weekly file(s):") w)
            end in
          (Ok tt,
           mk_state (print ([nl] ++ lit "Done! All steps completed.") w)
             (st_out st) (SharePipeline.vault merged))
      end
  end.

(** [main()] with the arguments [--step] and [--dry-run].  [input_dir] is
    the input directory as it is printed and [listing] its files, as in
    [extract_share_entries]; [output_dir] and [vault_dir] are
    [SHARING_OUTPUT_DIR] and [VAULT_SHARED_POSTS_DIR]; [api_key] is the
    value of [ANTHROPIC_API_KEY], empty when it is not set. *)
Definition main (step : option step_choice) (dry_run : bool)
    (input_dir : str) (listing : option (list ExtractStep.md_file))
    (output_dir vault_dir : ShareToSocial.path) (api_key today : str)
    (st : state) : result unit * state :=
  let w := print (lit "Step 1: Extracting #Share entries...") (st_world st) in
  let '(entries, lines) :=
    ExtractStep.extract_share_entries has_share_tag isdecimal input_dir
      listing in
  let w := prints lines w in
  match entries with
  | [] =>
      (Ok tt,
       mk_state (print (lit "  No #Share entries found. Nothing to do.") w)
         (st_out st) (st_vault st))
  | _ =>
      let w := print (lit "  Total: " ++ dec (N.of_nat (length entries))
                      ++ lit " #Share entries extracted") w in
      let '(name, out) := ExtractStep.write_extracted entries (st_out st) in
      let w := print (lit "  -> "
                      ++ path_str (ShareToSocial.path_div output_dir name)) w in
      if dry_run then
        let w := print ([nl] ++ lit "[DRY-RUN] Preview of extracted entries:")
                   w in
        let '(r, w) := preview entries w in
        (r, mk_state w out (st_vault st))
      else
        match step with
        | Some StepExtract =>
            (Ok tt,
             mk_state (print (lit "Done (extract only).") w) out (st_vault st))
        | _ =>
            match Refine.get_api_key api_key with
            | Raised e => (Raised e, mk_state w out (st_vault st))
            | Ok _ =>
                let w := print ([nl] ++ lit "Step 2: Refining for Twitter/X...")
                           w in
                match SharePipeline.refine_for_twitter service w out with
                | (Raised e, w, out) =>
                    (Raised e, mk_state w out (st_vault st))
                | (Ok name, w, out) =>
                    let w :=
                      print (lit "  -> "
                             ++ path_str
                                  (ShareToSocial.path_div output_dir name)) w in
                    match step with
                    | Some StepRefine =>
                        (Ok tt,
                         mk_state (print (lit "Done (extract + refine).") w)
                           out (st_vault st))
                    | _ =>
                        merge_step entries vault_dir today
                          (mk_state w out (st_vault st))
                    end
                end
            end
        end
  end.

End Main.
End PipelineMain.

(** *** [share_to_social.py]: [main] *)

Module SocialMain.

Import Remote.

(** The message of the [SystemExit] of [generate_social_posts] on an empty
    answer. *)
Definition social_empty : str :=
  lit "ERROR: Claude API returned empty response.".

Inductive step_choice : Type := StepExtract | StepGenerate.

(** The outside, the files of [SHARING_OUTPUT_DIR] and the files below
    [CONTENT_VAULT_MANUAL_DIR]. *)
Record state : Type := mk_state
  { st_world : world; st_out : gmap str str;
    st_files : gmap ShareToSocial.path str }.

Section Main.

Variable isdecimal : char → bool.
Variable isword : char → bool.
Variable service : nat → outcome.
Variable refuses : ShareToSocial.path → option ShareToSocial.fs_error.

Definition preview (entries : list ShareEntry.t) (w : world) : world :=
  foldl (λ w entry,
           print (lit "     " ++ preview_of (ShareEntry.body entry)
                  ++ lit "...")
             (print ([nl] ++ lit "  ## " ++ ShareEntry.title entry
                     ++ lit "  (from " ++ ShareEntry.source_file entry
                     ++ lit ", " ++ ShareEntry.source_date entry ++ lit ")")
                w))
    w entries.

(** Step 3 of [main]. *)
Definition save_step (entries : list ShareEntry.t)
    (manual_dir : ShareToSocial.path) (today : str) (st : state)
  : result unit * state :=
  let w := print ([nl] ++ lit "Step 3: Saving to Content Vault...")
             (st_world st) in
  match SocialParse._parse_social_posts isword (st_out st) entries today with
  | (Raised e, lines) =>
      (Raised e, mk_state (prints lines w) (st_out st) (st_files st))
  | (Ok posts, lines) =>
      let w := prints lines w in
      match ShareToSocial.save_to_content_vault refuses posts manual_dir
              (st_files st) with
      | (Raised e, saved) =>
          (Raised e,
           mk_state (prints (ShareToSocial.shown saved) w) (st_out st)
             (ShareToSocial.files saved))
      | (Ok written, saved) =>
          let w := prints (ShareToSocial.shown saved) w in
          let w :=
            match written with
            | [] => print (lit "  No new posts (all entries already exist).") w
            | _ =>
                prints (List.map (λ p, lit "    " ++ path_str p) written)
                  (print ([nl] ++ lit "  Saved "
                          ++ dec (N.of_nat (length written))
                          ++ lit " post(s):") w)
            end in
          (Ok tt,
           mk_state (print ([nl] ++ lit "Done!") w) (st_out st)
             (ShareToSocial.files saved))
      end
  end.

(** [main()] with the arguments [--step] and [--dry-run]; [manual_dir] is
    [CONTENT_VAULT_MANUAL_DIR]. *)
Definition main (step : option step_choice) (dry_run : bool)
    (input_dir : str) (listing : option (list ExtractStep.md_file))
    (output_dir manual_dir : ShareToSocial.path) (api_key today : str)
    (st : state) : result unit * state :=
  let w := print (lit "Step 1: Extracting #Share entries...") (st_world st) in
  let '(entries, lines) :=
    ExtractStep.extract_share_entries has_share_tag isdecimal input_dir
      listing in
  let w := prints lines w in
  match entries with
  | [] =>
      (Ok tt,
       mk_state (print (lit "  No #Share entries found. Nothing to do.") w)
         (st_out st) (st_files st))
  | _ =>
      let w := print (lit "  Total: " ++ dec (N.of_nat (length entries))
                      ++ lit " #Share entries extracted") w in
      let '(name, out) := ExtractStep.write_extracted entries (st_out st) in
      let w := print (lit "  -> "
                      ++ path_str (ShareToSocial.path_div output_dir name)) w in
      if dry_run then
        let w := print ([nl] ++ lit "[DRY-RUN] Entries found:") w in
        (Ok tt, mk_state (preview entries w) out (st_files st))
      else
        match step with
        | Some StepExtract =>
            (Ok tt,
             mk_state (print (lit "Done (extract only).") w) out (st_files st))
        | _ =>
            match Refine.get_api_key api_key with
            | Raised e => (Raised e, mk_state w out (st_files st))
            | Ok _ =>
                let w :=
                  print ([nl]
                         ++ lit "Step 2: Generating multi-platform social posts...")
                    w in
                match ShareToSocial.generate_social_posts service w out with
                | (Raised e, w, out) =>
                    (Raised e, mk_state w out (st_files st))
                | (Ok name, w, out) =>
                    let w :=
                      print (lit "  -> "
                             ++ path_str
                                  (ShareToSocial.path_div output_dir name)) w in
                    match step with
                    | Some StepGenerate =>
                        (Ok tt,
                         mk_state (print (lit "Done (extract + generate).") w)
                           out (st_files st))
                    | _ =>
                        save_step entries manual_dir today
                          (mk_state w out (st_files st))
                    end
                end
            end
        end
  end.

End Main.
End SocialMain.

(** *** [share_to_linkedin.py]: [main] *)

Module LinkedinMain.

Import Remote.

(** The messages of the [SystemExit] of the two stages on an empty
    answer. *)
Definition twitter_empty : str :=
  lit "ERROR: Claude API returned empty response for refinement.".

Definition linkedin_empty : str :=
  lit "ERROR: Claude API returned empty response for LinkedIn step.".

Inductive step_choice : Type := StepExtract | StepTwitter | StepLinkedin.

(** The outside and the files of [SHARING_OUTPUT_DIR]. *)
Record state : Type := mk_state
  { st_world : world; st_out : gmap str str }.

(** The words in brackets after the path of the second artifact. *)
Definition ready_note : str :=
  lit "  (" ++ [21487; 30452; 25509; 29992; 20110; 25512; 29305; 21457; 24067]
  ++ lit ")".

Section Main.

Variable isdecimal : char → bool.
Variable service : nat → outcome.

Definition preview (entries : list ShareEntry.t) (w : world) : world :=
  foldl (λ w entry,
           print (lit "     " ++ preview_of (ShareEntry.body entry)
                  ++ lit "...")
             (print ([nl] ++ lit "  ## " ++ ShareEntry.title entry
                     ++ lit "  (from " ++ ShareEntry.source_file entry
                     ++ lit ")")
                w))
    w entries.

(** Step 3 of [main]. *)
Definition linkedin_step (output_dir : ShareToSocial.path) (st : state)
  : result unit * state :=
  let w :=
    print ([nl]
           ++ lit "Step 3: Preparing LinkedIn posts (filter + translate)...")
      (st_world st) in
  match ShareToLinkedin.prepare_linkedin_posts service w (st_out st) with
  | (Raised e, w, out) => (Raised e, mk_state w out)
  | (Ok name, w, out) =>
      let w := print (lit "  -> "
                      ++ path_str (ShareToSocial.path_div output_dir name)) w in
      (Ok tt, mk_state (print ([nl] ++ lit "Done! All 3 steps completed.") w)
                out)
  end.

(** [main()] with the arguments [--step] and [--dry-run]. *)
Definition main (step : option step_choice) (dry_run : bool)
    (input_dir : str) (listing : option (list ExtractStep.md_file))
    (output_dir : ShareToSocial.path) (api_key : str) (st : state)
  : result unit * state :=
  let w := print (lit "Step 1: Extracting #Share entries...") (st_world st) in
  let '(entries, lines) :=
    ExtractStep.extract_share_entries has_share_tag_strict isdecimal input_dir
      listing in
  let w := prints lines w in
  match entries with
  | [] =>
      (Ok tt,
       mk_state (print (lit "  No #Share entries found. Nothing to do.") w)
         (st_out st))
  | _ =>
      let w := print (lit "  Total: " ++ dec (N.of_nat (length entries))
                      ++ lit " #Share entries extracted") w in
      let '(name, out) := ExtractStep.write_extracted entries (st_out st) in
      let w := print (lit "  -> "
                      ++ path_str (ShareToSocial.path_div output_dir name)) w in
      if dry_run then
        let w := print ([nl] ++ lit "[DRY-RUN] Preview of extracted entries:")
                   w in
        (Ok tt, mk_state (preview entries w) out)
      else
        match step with
        | Some StepExtract =>
            (Ok tt, mk_state (print (lit "Done (extract only).") w) out)
        | _ =>
            match Refine.get_api_key api_key with
            | Raised e => (Raised e, mk_state w out)
            | Ok _ =>
                let w :=
                  print ([nl] ++ lit "Step 2: Refining for Twitter (Chinese)...")
                    w in
                match ShareToLinkedin.refine_for_twitter service w out with
                | (Raised e, w, out) => (Raised e, mk_state w out)
                | (Ok name, w, out) =>
                    let w :=
                      print (lit "  -> "
                             ++ path_str
                                  (ShareToSocial.path_div output_dir name)
                             ++ ready_note) w in
                    match step with
                    | Some StepTwitter =>
                        (Ok tt,
                         mk_state (print (lit "Done (extract + twitter).") w)
                           out)
                    | _ => linkedin_step output_dir (mk_state w out)
                    end
                end
            end
        end
  end.

End Main.
End LinkedinMain.

(** ** Further conditions *)

(** The digits that [dec] writes. *)
Definition decimal_digit (c : char) : Prop := 48 ≤ c ∧ c ≤ 57.

(** An entry as the extractors build it: a body that is not empty and has
    no whitespace around it, a title on one line without whitespace around
    it, and a date that is empty or of the form [dddd-dd-dd]. *)
Definition extracted_entry (isdecimal : char → bool) (e : ShareEntry.t)
  : Prop :=
  ShareEntry.body e ≠ []
  ∧ strip (ShareEntry.body e) = ShareEntry.body e
  ∧ strip (ShareEntry.title e) = ShareEntry.title e
  ∧ (nl ∉ ShareEntry.title e)
  ∧ (ShareEntry.source_date e = []
     ∨ Extract.date_at isdecimal (ShareEntry.source_date e)
       = Some (ShareEntry.source_date e)).

(** The text of a note with one tagged entry. *)
Definition tagged_note : str :=
  lit "## Idea" ++ [nl] ++ tag_label ++ [65306] ++ lit "#Share" ++ [nl]
  ++ lit "---" ++ [nl] ++ lit "Write it down." ++ [nl].

(** The same text with a carriage return in front of every newline. *)
Definition tagged_note_crlf : str :=
  lit "## Idea" ++ [cr; nl] ++ tag_label ++ [65306] ++ lit "#Share"
  ++ [cr; nl] ++ lit "---" ++ [cr; nl] ++ lit "Write it down." ++ [cr; nl].

(** The output directory of [share_to_social.py] after the generate
    step. *)
Definition social_dir (text : str) : gmap str str :=
  {[ lit "02_social.md" := text ]}.

(** A generated block with a brief, a Twitter section and a YouTube
    section, and no LinkedIn section. *)
Definition social_block : str :=
  lit "## Idea" ++ [nl; nl] ++ SocialParse.brief_label ++ [65306]
  ++ lit "short" ++ [nl; nl] ++ lit "---twitter-cn---" ++ [nl]
  ++ lit "tweet" ++ [nl; nl] ++ lit "---youtube-shorts---" ++ [nl]
  ++ lit "Title #AI".

(** A directory with the sample note for its only file. *)
Definition sample_listing : option (list ExtractStep.md_file) :=
  Some [ExtractStep.mk_md (lit "n.md") (lit "n") sample_note].

(** A title of 300 letters, a service that answers with a block of that
    title, and a file system that has no name of more than 255 code
    points. *)
Definition long_title : str := List.repeat 97 300.

Definition service_long_title : nat → Remote.outcome :=
  λ _, Remote.Response 200
         (Remote.mk_body
            [Remote.mk_block (lit "text") (lit "## " ++ long_title)] None) [].

Definition refuses_long (p : ShareToSocial.path)
  : option ShareToSocial.fs_error :=
  if forallb (λ name, length name <=? 255)%nat p.2 then None
  else Some ShareToSocial.NameTooLong.
(** * Sanity checks *)

Example lit_ok : lit "## a" = [35; 35; 32; 97].
Proof. reflexivity. Qed.

Example strip_ok : strip (lit "  a b " ++ [nl]) = lit "a b".
Proof. reflexivity. Qed.

Example split_lines_ok :
  split_lines (lit "a" ++ [nl] ++ [nl] ++ lit "b" ++ [nl])
  = [lit "a"; []; lit "b"; []].
Proof. reflexivity. Qed.

Example dec_ok : dec 429 = lit "429" ∧ dec 0 = lit "0".
Proof. split; reflexivity. Qed.

Example split_sep_ok :
  split_sep (lit "===") true 0
    (lit "## A" ++ [nl] ++ lit "x" ++ [nl] ++ lit "===" ++ [nl; nl; nl]
     ++ lit "## B" ++ [nl] ++ lit "=== " ++ [9; nl] ++ lit "## C" ++ [nl]
     ++ lit "===x" ++ [nl] ++ lit "===")
  = [ lit "## A" ++ [nl] ++ lit "x" ++ [nl];
      [nl] ++ lit "## B" ++ [nl];
      [nl] ++ lit "## C" ++ [nl] ++ lit "===x" ++ [nl];
      [] ].
Proof. reflexivity. Qed.

Example split_headings_ok :
  split_headings true
    (lit "## a" ++ [nl] ++ lit "## b" ++ [nl] ++ lit "x" ++ [nl] ++ lit "## c")
  = [ []; lit "## a" ++ [nl]; lit "## b" ++ [nl] ++ lit "x" ++ [nl];
      lit "## c" ].
Proof. reflexivity. Qed.

Example findall_headings_ok :
  findall_headings
    (lit "## A" ++ [nl] ++ lit "## " ++ [nl] ++ lit "##  " ++ [nl]
     ++ lit "## B " ++ [nl] ++ lit " ## C" ++ [nl] ++ lit "## D" ++ [13; nl]
     ++ lit "## E")
  = [lit "A"; lit " "; lit "B "; lit "D" ++ [13]; lit "E"].
Proof. reflexivity. Qed.

Example sample_note_entries :
  SharePipeline._parse_entries_from_file Extract.ascii_digit
    sample_note (lit "n.md") (lit "n")
  = [ ShareEntry.mk (lit "One") (lit "first body") (lit "n.md")
        (lit "2024-01-08");
      ShareEntry.mk (lit "Three") (lit "third body") (lit "n.md")
        (lit "2024-01-08") ].
Proof. reflexivity. Qed.

Example call_busy_trace :
  Remote.trace
    (Remote._call_claude (λ _, Remote.Response 529 (Remote.mk_body [] None) [])
       (lit "m") Remote.w0).2
  = [ Remote.EPost (lit "m");
      Remote.EPrint (lit "    API 529, retrying in 2s..."); Remote.ESleep 2;
      Remote.EPost (lit "m");
      Remote.EPrint (lit "    API 529, retrying in 4s..."); Remote.ESleep 4;
      Remote.EPost (lit "m");
      Remote.EPrint (lit "    API 529, retrying in 8s..."); Remote.ESleep 8;
      Remote.EPrint (lit "    API failed after all retries") ].
Proof. reflexivity. Qed.

(** ** What the patterns match *)

Section PatternFacts.

Lemma startswith_app (p s : str) : startswith p (p ++ s) = true.
Proof.
  induction p as [|a p IH]; [done|]. simpl. by rewrite N.eqb_refl, IH.
Qed.

Lemma startswith_spec (p s : str) :
  startswith p s = true ↔ ∃ r, s = p ++ r.
Proof.
  split.
  - revert s. induction p as [|a p IH]; intros s H.
    + by exists s.
    + destruct s as [|b s]; [done|]. simpl in H.
      apply andb_true_iff in H as [Hab H]. apply N.eqb_eq in Hab as ->.
      destruct (IH _ H) as [r ->]. by exists r.
  - intros [r ->]. apply startswith_app.
Qed.

Lemma dotstar_then_start (p s : str) :
  startswith p s = true → dotstar_then p s = true.
Proof. destruct s; simpl; by intros ->. Qed.

Lemma dotstar_then_spec (p s : str) :
  dotstar_then p s = true ↔ ∃ mid post, s = mid ++ p ++ post ∧ nl ∉ mid.
Proof.
  split.
  - induction s as [|c s IH]; simpl; intros H.
    + rewrite orb_false_r in H. apply startswith_spec in H as [r Hr].
      exists [], r. split; [done|]. apply not_elem_of_nil.
    + apply orb_true_iff in H as [H|H].
      * apply startswith_spec in H as [r Hr].
        exists [], r. split; [done|]. apply not_elem_of_nil.
      * apply andb_true_iff in H as [Hc H].
        destruct (IH H) as (mid & post & -> & Hmid).
        exists (c :: mid), post. split; [done|].
        rewrite not_elem_of_cons. split; [|done].
        intros <-. by rewrite N.eqb_refl in Hc.
  - intros (mid & post & -> & Hmid).
    induction mid as [|c mid IH]; simpl.
    + apply dotstar_then_start, startswith_app.
    + apply not_elem_of_cons in Hmid as [Hc Hmid].
      rewrite (IH Hmid). apply N.eqb_neq in Hc.
      rewrite N.eqb_sym, Hc. simpl. apply orb_true_r.
Qed.

Lemma search_spec (m : str → bool) (s : str) :
  search m s = true ↔ ∃ pre suf, s = pre ++ suf ∧ m suf = true.
Proof.
  split.
  - induction s as [|c s IH]; simpl; intros H.
    + rewrite orb_false_r in H. by exists [], [].
    + apply orb_true_iff in H as [H|H]; [by exists [], (c :: s)|].
      destruct (IH H) as (pre & suf & -> & Hm). by exists (c :: pre), suf.
  - intros (pre & suf & -> & Hm).
    induction pre as [|c pre IH]; simpl.
    + destruct suf; simpl; by rewrite Hm.
    + rewrite IH. apply orb_true_r.
Qed.

Lemma label_then_spec (after : str → bool) (s : str) :
  label_then after s = true ↔
  ∃ c r, s = tag_label ++ c :: r ∧ is_colon c = true ∧ after r = true.
Proof.
  unfold label_then. split.
  - intros H. apply andb_true_iff in H as [Hl H].
    apply startswith_spec in Hl as [r ->].
    change (drop 6 (tag_label ++ r)) with r in H.
    destruct r as [|c r]; [done|].
    apply andb_true_iff in H as [Hc H]. by exists c, r.
  - intros (c & r & -> & Hc & H).
    rewrite startswith_app. change (drop 6 (tag_label ++ c :: r)) with (c :: r).
    simpl. by rewrite Hc, H.
Qed.

(** The tag test of [share_pipeline.py] and [share_to_social.py] holds
    exactly when the text has the label, a colon and, further on the same
    line, the token. *)
Lemma has_share_tag_spec (s : str) :
  has_share_tag s = true ↔
  ∃ pre c mid post,
    s = pre ++ tag_label ++ c :: mid ++ share_token ++ post
    ∧ is_colon c = true ∧ nl ∉ mid.
Proof.
  unfold has_share_tag. rewrite search_spec. split.
  - intros (pre & suf & -> & H).
    apply label_then_spec in H as (c & r & -> & Hc & H).
    apply dotstar_then_spec in H as (mid & post & -> & Hmid).
    by exists pre, c, mid, post.
  - intros (pre & c & mid & post & -> & Hc & Hmid).
    exists pre, (tag_label ++ c :: mid ++ share_token ++ post).
    split; [done|]. apply label_then_spec. exists c, (mid ++ share_token ++ post).
    split; [done|]. split; [done|]. apply dotstar_then_spec. by exists mid, post.
Qed.

Lemma span_line_nil (s : str) :
  (span_line s).1 = [] ↔ s = [] ∨ ∃ r, s = nl :: r.
Proof.
  destruct s as [|c s]; simpl.
  - split; [by left|done].
  - destruct (c =? nl) eqn:E.
    + apply N.eqb_eq in E as ->. split; [|done]. right. by exists s.
    + apply N.eqb_neq in E. destruct (span_line s) as [l rest]. simpl.
      split; [done|]. intros [Hnil|[r Hr]]; [done|]. congruence.
Qed.

(** [re.match(r"## (.+)", s)] succeeds exactly when the heading mark is
    followed by a code point that is not a newline. *)
Lemma match_heading_spec (s : str) :
  is_Some (match_heading s) ↔ ∃ c r, s = heading_mark ++ c :: r ∧ c ≠ nl.
Proof.
  unfold match_heading. split.
  - destruct (startswith heading_mark s) eqn:E; [|by intros [? ?]].
    apply startswith_spec in E as [r ->].
    change (drop 3 (heading_mark ++ r)) with r.
    pose proof (span_line_nil r) as Hn.
    destruct (span_line r) as [g rest]. simpl in Hn.
    destruct g as [|g0 g]; [by intros [? ?]|]. intros _.
    destruct r as [|c r].
    + exfalso. assert (g0 :: g = []) as Hg by (apply Hn; by left). done.
    + exists c, r. split; [done|]. intros ->.
      assert (g0 :: g = []) as Hg by (apply Hn; right; by exists r). done.
  - intros (c & r & -> & Hc). rewrite startswith_app.
    change (drop 3 (heading_mark ++ c :: r)) with (c :: r).
    pose proof (span_line_nil (c :: r)) as [Hn _].
    destruct (span_line (c :: r)) as [g rest]. simpl in Hn.
    destruct g as [|g0 g]; [|by eexists].
    destruct (Hn eq_refl) as [Hnil|[r' Hr]]; [done|congruence].
Qed.

End PatternFacts.

(** ** Tag detection *)

Section TagDetection.

Lemma entry_of_segment_some (tagged : str → bool) (name date raw : str) :
  is_Some (Extract.entry_of_segment tagged name date raw) ↔
  is_Some (match_heading (strip raw))
  ∧ tagged (strip raw) = true
  ∧ Extract.segment_body (strip raw) ≠ [].
Proof.
  unfold Extract.entry_of_segment.
  destruct (startswith heading_mark (strip raw)) eqn:Hh; simpl.
  - destruct (tagged (strip raw)); simpl.
    + destruct (match_heading (strip raw)) as [[g rest]|]; simpl.
      * destruct (Extract.segment_body (strip raw)) eqn:Hb.
        -- split; [by intros [? ?]|]. by intros (_ & _ & ?).
        -- split; [|eauto]. intros _. eauto.
      * split; [by intros [? ?]|]. by intros ([? ?] & _).
    + split; [by intros [? ?]|]. by intros (_ & ? & _).
  - split; [by intros [? ?]|]. intros (Hm & _). exfalso.
    unfold match_heading in Hm. rewrite Hh in Hm. by destruct Hm.
Qed.

Lemma search_group_spec (m : str → option str) (s g : str) :
  Extract.search_group m s = Some g → ∃ pre suf, s = pre ++ suf ∧ m suf = Some g.
Proof.
  induction s as [|c s IH]; simpl.
  - destruct (m []) eqn:E; [|done]. intros [= ->]. by exists [], [].
  - destruct (m (c :: s)) eqn:E.
    + intros [= ->]. by exists [], (c :: s).
    + intros H. destruct (IH H) as (pre & suf & -> & Hm).
      by exists (c :: pre), suf.
Qed.

Lemma field_value_prefix (r : str) :
  ∃ rest, r = TagSpec.field_value r ++ rest ∧ nl ∉ TagSpec.field_value r.
Proof.
  induction r as [|c r (rest & Hr & Hnl)]; simpl.
  - exists []. split; [done|]. apply not_elem_of_nil.
  - destruct (c =? nl) eqn:E; simpl.
    + exists (c :: r). split; [done|]. apply not_elem_of_nil.
    + destruct (c =? 124).
      * exists (c :: r). split; [done|]. apply not_elem_of_nil.
      * exists rest. split; [simpl; by f_equal|].
        apply not_elem_of_cons. split; [|done].
        apply N.eqb_neq in E. congruence.
Qed.

Lemma contains_spec (sub s : str) :
  contains sub s = true → ∃ a b, s = a ++ sub ++ b.
Proof.
  induction s as [|c s IH]; simpl; intros H.
  - rewrite orb_false_r in H. apply startswith_spec in H as [r ->].
    by exists [], r.
  - apply orb_true_iff in H as [H|H].
    + apply startswith_spec in H as [r ->]. by exists [], r.
    + destruct (IH H) as (a & b & ->). by exists (c :: a), b.
Qed.

(** A segment whose tag field holds the token passes the tag test of
    [share_pipeline.py] and [share_to_social.py]. *)
Lemma field_marker_is_detected (s : str) :
  TagSpec.field_has_marker s = true → has_share_tag s = true.
Proof.
  unfold TagSpec.field_has_marker, TagSpec.tag_field_value.
  destruct (Extract.search_group TagSpec.tag_value_at s) as [v|] eqn:E; [|done].
  intros Hc. apply search_group_spec in E as (pre & suf & -> & Hv).
  unfold TagSpec.tag_value_at in Hv.
  destruct (startswith tag_label suf) eqn:Hl; [|done].
  apply startswith_spec in Hl as [r ->].
  change (drop 6 (tag_label ++ r)) with r in Hv.
  destruct r as [|c r]; [done|]. destruct (is_colon c) eqn:Hcolon; [|done].
  injection Hv as <-.
  destruct (field_value_prefix r) as (rest & Hr & Hnl).
  apply contains_spec in Hc as (a & b & Hab).
  apply has_share_tag_spec. exists pre, c, a, (b ++ rest).
  split; [|split; [done|]].
  - rewrite Hr at 1. rewrite Hab. by rewrite <- !app_assoc.
  - intros Hin. apply Hnl. rewrite Hab. apply elem_of_app. by left.
Qed.

(** C8, as the code has it: in [share_pipeline.py] and
    [share_to_social.py] a segment gives an entry exactly when its stripped
    text opens with a non-empty heading line, holds the tag label, a colon
    and, further on the same line, the token [#Share], and its body is not
    empty.  So a headed segment whose tag field holds the token gives an
    entry when its body is not empty, in both formats of the metadata. *)
Theorem tag_detection_share (name date raw : str) :
  (is_Some (Extract.entry_of_segment has_share_tag name date raw) ↔
   (∃ c r, strip raw = heading_mark ++ c :: r ∧ c ≠ nl)
   ∧ (∃ pre c mid post,
         strip raw = pre ++ tag_label ++ c :: mid ++ share_token ++ post
         ∧ is_colon c = true ∧ nl ∉ mid)
   ∧ Extract.segment_body (strip raw) ≠ [])
  ∧ ((∃ c r, strip raw = heading_mark ++ c :: r ∧ c ≠ nl) →
     TagSpec.field_has_marker (strip raw) = true →
     Extract.segment_body (strip raw) ≠ [] →
     is_Some (Extract.entry_of_segment has_share_tag name date raw)).
Proof.
  split.
  - by rewrite entry_of_segment_some, match_heading_spec, has_share_tag_spec.
  - intros Hh Hf Hb. apply entry_of_segment_some.
    split; [by apply match_heading_spec|]. split; [|done].
    by apply field_marker_is_detected.
Qed.

Example seg_tagged_no_body_dropped :
  startswith heading_mark seg_tagged_no_body = true
  ∧ TagSpec.field_has_marker seg_tagged_no_body = true
  ∧ Extract.entry_of_segment has_share_tag [] [] seg_tagged_no_body = None.
Proof. repeat split; reflexivity. Qed.

Example seg_token_in_other_field_taken :
  startswith heading_mark seg_token_in_other_field = true
  ∧ TagSpec.field_has_marker seg_token_in_other_field = false
  ∧ Extract.entry_of_segment has_share_tag [] [] seg_token_in_other_field
    = Some (ShareEntry.mk (lit "T") (lit "body") [] []).
Proof. repeat split; reflexivity. Qed.

Example seg_two_tags_strict_dropped :
  startswith heading_mark seg_two_tags = true
  ∧ TagSpec.field_has_marker seg_two_tags = true
  ∧ Extract.entry_of_segment has_share_tag_strict [] [] seg_two_tags = None
  ∧ is_Some (Extract.entry_of_segment has_share_tag [] [] seg_two_tags).
Proof. repeat split; try reflexivity. vm_compute. eauto. Qed.

(** C8 as worded fails for both tag tests: a tagged segment without body
    gives no entry. *)
Lemma tag_detection_as_worded_fails :
  ¬ tag_detection_as_worded has_share_tag
  ∧ ¬ tag_detection_as_worded has_share_tag_strict.
Proof.
  split; intros H;
    destruct (H [] [] seg_tagged_no_body eq_refl) as [_ Hs];
    destruct (Hs eq_refl) as [e He]; vm_compute in He; discriminate He.
Qed.

End TagDetection.


(** ** The retry loop *)

Section RetryFacts.

Import Remote.

Variable service : nat → outcome.

Lemma posts_app (t1 t2 : list event) : posts (t1 ++ t2) = (posts t1 + posts t2)%nat.
Proof. unfold posts. by rewrite List.filter_app, length_app. Qed.

Lemma sleeps_app (t1 t2 : list event) : sleeps (t1 ++ t2) = sleeps t1 ++ sleeps t2.
Proof. apply omap_app. Qed.

Lemma timeline_app (t1 t2 : list event) :
  timeline (t1 ++ t2) = timeline t1 ++ timeline t2.
Proof. apply List.filter_app. Qed.

Lemma transient_status_not_200 (status : N) :
  transient_status status = true → (status =? 200) = false.
Proof.
  intros H. destruct (status =? 200) eqn:E; [|done].
  apply N.eqb_eq in E as ->. done.
Qed.

(** One attempt with a transient outcome: a request, a printed line, a
    sleep of [retry_delay attempt], and the loop goes on. *)
Lemma attempt_transient (um : str) (attempt : nat) (rest : list nat) (w : world) :
  transient (service (sent w)) = true →
  ∃ line,
    attempt_loop service um (attempt :: rest) w
    = attempt_loop service um rest
        (mk_world (S (sent w))
           (trace w ++ [EPost um; EPrint line; ESleep (retry_delay attempt)])).
Proof.
  intros H. simpl. unfold post, sleep, print, emit.
  destruct (service (sent w)) as [status data text| |e]; simpl in *.
  - rewrite (transient_status_not_200 _ H), H.
    eexists. by rewrite <- !app_assoc.
  - eexists. by rewrite <- !app_assoc.
  - done.
Qed.

(** [k] transient outcomes in a row: [k] requests, each followed by its
    sleep, and the loop goes on with the attempts that are left. *)
Lemma attempt_loop_transient_prefix (um : str) (k : nat) :
  ∀ (a n : nat) (w : world),
    (k ≤ n)%nat →
    (∀ j, (j < k)%nat → transient (service (sent w + j)) = true) →
    ∃ t,
      attempt_loop service um (seq a n) w
      = attempt_loop service um (seq (a + k) (n - k))
          (mk_world (sent w + k) (trace w ++ t))
      ∧ posts t = k
      ∧ sleeps t = List.map retry_delay (seq a k)
      ∧ timeline t
        = flat_map (λ i, [EPost um; ESleep (retry_delay i)]) (seq a k).
Proof.
  induction k as [|k IH]; intros a n w Hk Htr.
  - exists []. rewrite !Nat.add_0_r, Nat.sub_0_r, app_nil_r.
    by destruct w.
  - destruct n as [|n]; [lia|]. simpl seq.
    destruct (attempt_transient um a (seq (S a) n) w) as [line ->].
    { specialize (Htr 0%nat). rewrite Nat.add_0_r in Htr. apply Htr. lia. }
    destruct (IH (S a) n
                (mk_world (S (sent w))
                   (trace w ++ [EPost um; EPrint line; ESleep (retry_delay a)])))
      as (t & -> & Hp & Hs & Ht).
    { lia. }
    { intros j Hj. simpl. replace (S (sent w + j)) with (sent w + S j)%nat by lia.
      apply Htr. lia. }
    exists ([EPost um; EPrint line; ESleep (retry_delay a)] ++ t).
    simpl sent. simpl trace. rewrite <- app_assoc.
    replace (S a + k)%nat with (a + S k)%nat by lia.
    replace (S (sent w) + k)%nat with (sent w + S k)%nat by lia.
    replace (S n - S k)%nat with (n - k)%nat by lia.
    split; [done|]. rewrite posts_app, sleeps_app, timeline_app, Hp, Hs, Ht.
    done.
Qed.

Lemma retry_delay_double (attempt : nat) :
  retry_delay (S attempt) = 2 * retry_delay attempt.
Proof.
  unfold retry_delay. rewrite Nat2N.inj_succ, N.pow_succ_r'. lia.
Qed.

(** C4: when each of the first [MAX_RETRIES] answers is a timeout or has
    one of the status codes 429, 500, 502, 503 and 529, in any mix,
    [_call_claude] sends exactly [MAX_RETRIES] requests, sleeps
    [RETRY_BASE_DELAY * 2 ^ attempt] after the request of each attempt, so
    that each delay is twice the one before, and returns the empty
    string. *)
Theorem retry_bound (um : str) (w : world) :
  (∀ k, (k < Config.MAX_RETRIES)%nat →
        service (sent w + k) = Timeout
        ∨ ∃ status data text,
            service (sent w + k) = Response status data text
            ∧ status ∈ [429; 500; 502; 503; 529]) →
  ∃ t,
    _call_claude service um w
    = ([], mk_world (sent w + Config.MAX_RETRIES) (trace w ++ t))
    ∧ posts t = Config.MAX_RETRIES
    ∧ timeline t
      = [EPost um; ESleep 2; EPost um; ESleep 4; EPost um; ESleep 8]
    ∧ sleeps t = List.map retry_delay (seq 0 Config.MAX_RETRIES)
    ∧ ∀ attempt, retry_delay (S attempt) = 2 * retry_delay attempt.
Proof.
  intros Hout.
  assert (∀ k, (k < Config.MAX_RETRIES)%nat →
               transient (service (sent w + k)) = true) as Htr.
  { intros k Hk.
    destruct (Hout k Hk) as [->|(status & data & text & -> & Hin)]; [done|].
    cbn [transient]. unfold transient_status.
    repeat (apply elem_of_cons in Hin as [->|Hin]; [reflexivity|]).
    by apply elem_of_nil in Hin. }
  unfold _call_claude.
  destruct (attempt_loop_transient_prefix um Config.MAX_RETRIES 0
              Config.MAX_RETRIES w) as (t & -> & Hp & Hs & Ht); [done|done|].
  exists (t ++ [EPrint (lit "    API failed after all retries")]).
  rewrite Nat.sub_diag. simpl. unfold print, emit. simpl.
  rewrite <- app_assoc, posts_app, timeline_app, sleeps_app, Hp, Hs, Ht.
  repeat split; auto using retry_delay_double.
Qed.

End RetryFacts.

(** A service that answers 429, then 503, then 529. *)
Lemma retry_bound_witness :
  ∃ t,
    Remote._call_claude service_busy (lit "m") Remote.w0
    = ([], Remote.mk_world 3 t)
    ∧ Remote.posts t = 3%nat
    ∧ Remote.sleeps t = [2; 4; 8].
Proof.
  destruct (retry_bound service_busy (lit "m") Remote.w0)
    as (t & H1 & H2 & _ & H4 & _).
  - intros k Hk. right.
    destruct k as [|[|[|k]]]; [| | |unfold Config.MAX_RETRIES in Hk; lia];
      do 3 eexists; (split; [reflexivity|]);
      apply (bool_decide_unpack _); vm_compute; exact I.
  - exists t. split; [exact H1|]. split; [exact H2|exact H4].
Defined.

(** ** Empty answers and truncated answers *)

Section CallFacts.

Import Remote.

Variable service : nat → outcome.

Lemma attempt_200 (um : str) (attempt : nat) (rest : list nat) (w : world)
    (data : body) (text : str) :
  service (sent w) = Response 200 data text →
  attempt_loop service um (attempt :: rest) w
  = ((response_text data,
      bool_decide (stop_reason data = Some (lit "max_tokens"))),
     mk_world (S (sent w)) (trace w ++ [EPost um])).
Proof. intros H. simpl. unfold post. by rewrite H. Qed.

(** The answer with status 200 that comes after [k] transient outcomes,
    [k] below [MAX_RETRIES], is what [_call_claude_api] returns. *)
Lemma call_api_200 (um : str) (w : world) (k : nat) (data : body) (text : str) :
  (k < Config.MAX_RETRIES)%nat →
  (∀ j, (j < k)%nat → transient (service (sent w + j)) = true) →
  service (sent w + k) = Response 200 data text →
  ∃ t,
    _call_claude_api service um w
    = ((response_text data,
        bool_decide (stop_reason data = Some (lit "max_tokens"))),
       mk_world (S (sent w + k)) (trace w ++ t)).
Proof.
  intros Hk Htr H200. unfold _call_claude_api.
  destruct (attempt_loop_transient_prefix service um k 0 Config.MAX_RETRIES w)
    as (t & -> & _); [lia|done|].
  destruct (Config.MAX_RETRIES - k)%nat as [|n] eqn:E; [lia|].
  simpl seq. erewrite attempt_200 by exact H200.
  exists (t ++ [EPost um]). simpl. by rewrite <- app_assoc.
Qed.

Lemma attempt_fatal (um : str) (attempt : nat) (rest : list nat) (w : world) :
  fatal (service (sent w)) = true →
  ∃ line,
    attempt_loop service um (attempt :: rest) w
    = (([], false), mk_world (S (sent w)) (trace w ++ [EPost um; EPrint line])).
Proof.
  intros H. simpl. unfold post, print, emit.
  destruct (service (sent w)) as [status data text| |e]; simpl in *.
  - apply andb_true_iff in H as [H1 H2].
    apply negb_true_iff in H1, H2. rewrite H1, H2.
    eexists. by rewrite <- app_assoc.
  - done.
  - eexists. by rewrite <- app_assoc.
Qed.

(** The three ways in which the call returns the empty text: a status that
    is not retried or an exception, after fewer than [MAX_RETRIES]
    transient outcomes, or [MAX_RETRIES] transient outcomes. *)
Lemma call_api_empty (um : str) (w : world) :
  (∃ k, (k < Config.MAX_RETRIES)%nat
        ∧ (∀ j, (j < k)%nat → transient (service (sent w + j)) = true)
        ∧ fatal (service (sent w + k)) = true)
  ∨ (∀ k, (k < Config.MAX_RETRIES)%nat →
          transient (service (sent w + k)) = true) →
  (_call_claude_api service um w).1 = ([], false).
Proof.
  unfold _call_claude_api. intros [(k & Hk & Htr & Hf)|Htr].
  - destruct (attempt_loop_transient_prefix service um k 0 Config.MAX_RETRIES w)
      as (t & -> & _); [lia|done|].
    destruct (Config.MAX_RETRIES - k)%nat as [|n] eqn:E; [lia|].
    simpl seq.
    destruct (attempt_fatal um k (seq (S k) n)
                (mk_world (sent w + k) (trace w ++ t))) as [line ->]; done.
  - destruct (attempt_loop_transient_prefix service um Config.MAX_RETRIES 0
                Config.MAX_RETRIES w) as (t & -> & _); [done|done|].
    by rewrite Nat.sub_diag.
Qed.

End CallFacts.

Section RefineFacts.

Import Remote Refine.

Variable service : nat → outcome.
Variable force : bool.

Lemma refine_one_call (st : state) (date : str) (entries : list (str * str)) :
  st_out st !! output_name date = None ∨ force = true →
  refine_one service force false st (date, entries)
  = let '((refined, truncated), w) :=
      _call_claude_api service (_build_user_message date entries)
        (print (refining_line date entries) (st_world st)) in
    match refined with
    | [] =>
        mk_state (print (failed_line date) w) (st_out st)
          (success st) (skipped st) (S (failed st))
    | _ =>
        let '(refined, w) :=
          if truncated
          then (refined ++ truncated_marker, print (truncated_line date) w)
          else (refined, w) in
        mk_state (print (lit "    -> " ++ output_name date) w)
          (<[output_name date := output_md date (length entries) refined]>
             (st_out st))
          (S (success st)) (skipped st) (failed st)
    end.
Proof.
  intros H. unfold refine_one.
  assert (bool_decide (is_Some (st_out st !! output_name date)) && negb force
          = false) as ->.
  { destruct H as [H| ->]; [|apply andb_false_r].
    rewrite H. rewrite bool_decide_eq_false_2; [done|]. by intros [? ?]. }
  done.
Qed.





End RefineFacts.

Section StageFacts.

Import Remote.

Variable service : nat → outcome.


End StageFacts.




(** C7, as the code has it.  When the answer that ends the call has status
    200 and the stop reason [max_tokens], [_call_claude_api] returns the
    text with the flag set.  If the text is not empty, [refine_all] writes
    the output file with the marker after the text and counts the date as
    a success.  If the text is empty, the test [if not refined] comes
    first: nothing is written and the date is counted as failed. *)
Theorem truncation_flagged (service : nat → Remote.outcome) (force : bool)
    (st : Refine.state) (date : str) (entries : list (str * str))
    (k : nat) (data : Remote.body) (text : str) :
  let um := Refine._build_user_message date entries in
  let w := Remote.print (Refine.refining_line date entries) (Refine.st_world st) in
  let st' := Refine.refine_one service force false st (date, entries) in
  Refine.st_out st !! Refine.output_name date = None ∨ force = true →
  (k < Config.MAX_RETRIES)%nat →
  (∀ j, (j < k)%nat →
        Remote.transient (service (Remote.sent (Refine.st_world st) + j)%nat) = true) →
  service (Remote.sent (Refine.st_world st) + k)%nat = Remote.Response 200 data text →
  Remote.stop_reason data = Some (lit "max_tokens") →
  (Remote._call_claude_api service um w).1 = (Remote.response_text data, true)
  ∧ (Remote.response_text data ≠ [] →
       Refine.st_out st'
       = <[Refine.output_name date :=
             Refine.output_md date (length entries)
               (Remote.response_text data ++ Refine.truncated_marker)]>
           (Refine.st_out st)
       ∧ Refine.success st' = S (Refine.success st)
       ∧ Refine.skipped st' = Refine.skipped st
       ∧ Refine.failed st' = Refine.failed st)
  ∧ (Remote.response_text data = [] →
       Refine.st_out st' = Refine.st_out st
       ∧ Refine.success st' = Refine.success st
       ∧ Refine.skipped st' = Refine.skipped st
       ∧ Refine.failed st' = S (Refine.failed st)).
Proof.
  intros um w st' Hout Hk Htr H200 Hstop.
  destruct (call_api_200 service um w k data text Hk Htr H200) as [t Hcall].
  rewrite Hstop, bool_decide_eq_true_2 in Hcall by done.
  split; [by rewrite Hcall|].
  unfold st'. rewrite (refine_one_call service force st date entries Hout).
  fold um w. rewrite Hcall.
  split.
  - intros Hne. destruct (Remote.response_text data) eqn:E; [done|]. done.
  - intros ->. done.
Qed.

(** A truncated answer with text, on the first request. *)
Lemma truncation_flagged_witness :
  let st' := Refine.refine_one service_cut false false
               (Refine.mk_state Remote.w0 ∅ 0 0 0)
               (lit "2024-01-08", [(lit "10:00:00", lit "hello")]) in
  Refine.st_out st' !! lit "2024-01-08.md"
  = Some (Refine.output_md (lit "2024-01-08") 1
            (lit "abc" ++ Refine.truncated_marker))
  ∧ Refine.success st' = 1%nat ∧ Refine.failed st' = 0%nat.
Proof.
  intros st'.
  destruct (truncation_flagged service_cut false
              (Refine.mk_state Remote.w0 ∅ 0 0 0) (lit "2024-01-08")
              [(lit "10:00:00", lit "hello")] 0
              (Remote.mk_body [Remote.mk_block (lit "text") (lit "abc")]
                 (Some (lit "max_tokens"))) [])
    as (_ & H & _).
  - left. apply lookup_empty.
  - unfold Config.MAX_RETRIES. lia.
  - intros j Hj. lia.
  - reflexivity.
  - reflexivity.
  - destruct H as (Ho & Hs & _ & Hf); [discriminate|].
    fold st' in Ho, Hs, Hf. rewrite Ho, Hs, Hf.
    split; [|done]. apply lookup_insert_eq.
Defined.

(** C7 as worded fails: a truncated answer without text is counted as
    failed. *)
Lemma truncated_empty_counts_as_failed : ¬ truncated_counts_as_success.
Proof.
  intros H.
  specialize (H service_cut_empty (lit "2024-01-08")
                [(lit "10:00:00", lit "hello")] _ _ eq_refl eq_refl).
  vm_compute in H. discriminate H.
Qed.

Example truncated_empty_run :
  (Refine.refine_all service_cut_empty false false one_day (lit "key")
     Remote.w0 ∅).1 = Ok (0, 0, 1)%nat.
Proof. vm_compute. reflexivity. Qed.

(** ** Provenance by position: [_parse_refined_entries] *)

Section ParseFacts.

Import SharePipeline.

Variable source_entries : list ShareEntry.t.
Variable today : str.

(** The date that a record at position [i] gets. *)
Lemma block_record_date (i : nat) (block : str) (r : RefinedEntry.t)
    (l : list str) :
  block_record source_entries today i block = Some (r, l) →
  match source_entries !! i with
  | Some e =>
      match ShareEntry.source_date e with
      | [] => RefinedEntry.source_date r = today
              ∧ l = [no_date_warning (RefinedEntry.title r) today]
      | d => RefinedEntry.source_date r = d ∧ l = []
      end
  | None => RefinedEntry.source_date r = today
            ∧ l = [no_date_warning (RefinedEntry.title r) today]
  end.
Proof.
  unfold block_record.
  destruct (match_heading block) as [[g rest]|]; [|done].
  destruct (source_entries !! i) as [e|].
  - destruct (ShareEntry.source_date e); intros [= <- <-]; done.
  - intros [= <- <-]. done.
Qed.

Lemma block_record_some (i : nat) (block : str) :
  is_Some (match_heading block) →
  is_Some (block_record source_entries today i block).
Proof.
  intros [[g rest] H]. unfold block_record. rewrite H.
  destruct (source_entries !! i) as [e|]; [destruct (ShareEntry.source_date e)|];
    eauto.
Qed.

(** The loop keeps the order of the blocks: with headed blocks only, the
    record at position [j] is the record of the block at position [j]. *)
Lemma parse_blocks_headed (blocks : list str) :
  ∀ i,
    Forall (λ b, is_Some (match_heading b)) blocks →
    length (parse_blocks source_entries today i blocks).1 = length blocks
    ∧ ∀ j block,
        blocks !! j = Some block →
        ∃ r l,
          block_record source_entries today (i + j) block = Some (r, l)
          ∧ (parse_blocks source_entries today i blocks).1 !! j = Some r.
Proof.
  induction blocks as [|b blocks IH]; intros i Hall.
  - split; [done|]. intros j block H. done.
  - apply Forall_cons in Hall as [Hb Hall].
    destruct (IH (S i) Hall) as [Hlen Hrec]. simpl.
    destruct (parse_blocks source_entries today (S i) blocks) as [refined lines].
    destruct (block_record_some i b Hb) as [[r l] Hr]. rewrite Hr. simpl in *.
    split; [by rewrite Hlen|].
    intros [|j] block Hj; simpl in Hj.
    + injection Hj as <-. rewrite Nat.add_0_r. eauto.
    + replace (i + S j)%nat with (S i + j)%nat by lia. by apply Hrec.
Qed.

(** Every record of the loop is the record of a block at its position, and
    every line printed is a line of such a record. *)
Lemma parse_blocks_elem (blocks : list str) :
  ∀ i,
    let res := parse_blocks source_entries today i blocks in
    (∀ j block r l,
        blocks !! j = Some block →
        block_record source_entries today (i + j) block = Some (r, l) →
        r ∈ res.1 ∧ ∀ line, line ∈ l → line ∈ res.2)
    ∧ (∀ r, r ∈ res.1 →
            ∃ j block l,
              blocks !! j = Some block
              ∧ block_record source_entries today (i + j) block = Some (r, l))
    ∧ (∀ line, line ∈ res.2 →
               ∃ j block r l,
                 blocks !! j = Some block
                 ∧ block_record source_entries today (i + j) block = Some (r, l)
                 ∧ line ∈ l).
Proof.
  induction blocks as [|b blocks IH]; intros i; simpl.
  - split; [|split].
    + intros j block r l H. done.
    + intros r H. by apply elem_of_nil in H.
    + intros line H. by apply elem_of_nil in H.
  - destruct (IH (S i)) as (IH1 & IH2 & IH3).
    destruct (parse_blocks source_entries today (S i) blocks) as [refined lines].
    simpl in *.
    destruct (block_record source_entries today i b) as [[r0 l0]|] eqn:Hb; simpl.
    + split; [|split].
      * intros [|j] block r l Hj Hr; simpl in Hj.
        -- injection Hj as <-. rewrite Nat.add_0_r, Hb in Hr.
           injection Hr as <- <-. split; [apply elem_of_cons; by left|].
           intros line Hl. apply elem_of_app. by left.
        -- replace (i + S j)%nat with (S i + j)%nat in Hr by lia.
           destruct (IH1 j block r l Hj Hr) as [Hin Hl].
           split; [apply elem_of_cons; by right|].
           intros line Hline. apply elem_of_app. right. by apply Hl.
      * intros r Hr. apply elem_of_cons in Hr as [->|Hr].
        -- exists 0%nat, b, l0. by rewrite Nat.add_0_r.
        -- destruct (IH2 r Hr) as (j & block & l & Hj & Hrec).
           exists (S j), block, l.
           replace (i + S j)%nat with (S i + j)%nat by lia. done.
      * intros line Hline. apply elem_of_app in Hline as [Hline|Hline].
        -- exists 0%nat, b, r0, l0. by rewrite Nat.add_0_r.
        -- destruct (IH3 line Hline) as (j & block & r & l & Hj & Hrec & Hl).
           exists (S j), block, r, l.
           replace (i + S j)%nat with (S i + j)%nat by lia. done.
    + split; [|split].
      * intros [|j] block r l Hj Hr; simpl in Hj.
        -- injection Hj as <-. rewrite Nat.add_0_r, Hb in Hr. done.
        -- replace (i + S j)%nat with (S i + j)%nat in Hr by lia.
           by apply (IH1 j block r l).
      * intros r Hr. destruct (IH2 r Hr) as (j & block & l & Hj & Hrec).
        exists (S j), block, l.
        replace (i + S j)%nat with (S i + j)%nat by lia. done.
      * intros line Hline.
        destruct (IH3 line Hline) as (j & block & r & l & Hj & Hrec & Hl).
        exists (S j), block, r, l.
        replace (i + S j)%nat with (S i + j)%nat by lia. done.
Qed.

(** The loop gives at most one record for every block. *)
Lemma parse_blocks_length (blocks : list str) :
  ∀ i, (length (parse_blocks source_entries today i blocks).1
        ≤ length blocks)%nat.
Proof.
  induction blocks as [|b blocks IH]; intros i; simpl; [done|].
  specialize (IH (S i)).
  destruct (parse_blocks source_entries today (S i) blocks) as [refined lines].
  destruct (block_record source_entries today i b) as [[r l]|]; simpl in *; lia.
Qed.

End ParseFacts.

(** The loop looks at the entries at the positions of the blocks only. *)
Lemma parse_blocks_ext (entries entries' : list ShareEntry.t) (today : str)
    (blocks : list str) :
  ∀ i,
    (∀ j, (j < length blocks)%nat → entries !! (i + j)%nat = entries' !! (i + j)%nat) →
    SharePipeline.parse_blocks entries today i blocks
    = SharePipeline.parse_blocks entries' today i blocks.
Proof.
  induction blocks as [|b blocks IH]; intros i H; [done|]. simpl.
  rewrite (IH (S i)).
  2:{ intros j Hj. replace (S i + j)%nat with (i + S j)%nat by lia.
      apply H. simpl. lia. }
  unfold SharePipeline.block_record.
  specialize (H 0%nat). rewrite Nat.add_0_r in H. rewrite H; [done|].
  simpl. lia.
Qed.

(** C3, as the code has it: with as many blocks as entries, every block
    opening with a heading, [_parse_refined_entries] returns one record for
    every entry, and the record at position [i] carries the [source_date]
    of the entry at position [i] when that date is not empty; when it is
    empty the record carries today's date and its warning is printed.  The
    warnings of these records are the only lines that are printed. *)
Theorem provenance_by_position (dir : gmap str str) (text today : str)
    (entries : list ShareEntry.t) :
  dir !! lit "02_twitter.md" = Some text →
  Forall (λ b, is_Some (match_heading b))
    (SharePipeline.refined_blocks (read_text text)) →
  length (SharePipeline.refined_blocks (read_text text)) = length entries →
  ∃ records lines,
    SharePipeline._parse_refined_entries dir entries today
    = (Ok records, lines)
    ∧ length records = length entries
    ∧ (∀ i e,
         entries !! i = Some e →
         ∃ r, records !! i = Some r
              ∧ match ShareEntry.source_date e with
                | [] =>
                    RefinedEntry.source_date r = today
                    ∧ SharePipeline.no_date_warning (RefinedEntry.title r)
                        today ∈ lines
                | d => RefinedEntry.source_date r = d
                end)
    ∧ (∀ line,
         line ∈ lines →
         ∃ i e r,
           entries !! i = Some e
           ∧ records !! i = Some r
           ∧ ShareEntry.source_date e = []
           ∧ line = SharePipeline.no_date_warning (RefinedEntry.title r)
                      today).
Proof.
  intros Hdir Hall Hlen. unfold SharePipeline._parse_refined_entries.
  rewrite Hdir.
  destruct (parse_blocks_headed entries today
              (SharePipeline.refined_blocks (read_text text)) 0 Hall)
    as [Hl Hrec].
  pose proof (parse_blocks_elem entries today
                (SharePipeline.refined_blocks (read_text text)) 0)
    as (H1 & _ & H3).
  destruct (SharePipeline.parse_blocks entries today 0
              (SharePipeline.refined_blocks (read_text text)))
    as [records lines].
  simpl in *. exists records, lines. split; [done|]. split; [congruence|].
  split.
  - intros i e He.
    destruct (lookup_lt_is_Some_2
                (SharePipeline.refined_blocks (read_text text)) i)
      as [block Hb].
    { rewrite Hlen. by apply lookup_lt_Some in He. }
    destruct (Hrec i block Hb) as (r & l & Hr & Hri).
    exists r. split; [done|].
    destruct (H1 i block r l Hb Hr) as [_ Hlines].
    apply block_record_date in Hr. rewrite He in Hr.
    destruct (ShareEntry.source_date e); [|by destruct Hr].
    destruct Hr as [Hd ->]. split; [done|].
    apply Hlines. apply elem_of_cons. by left.
  - intros line Hline.
    destruct (H3 line Hline) as (j & block & r & l & Hj & Hr & Hin).
    destruct (Hrec j block Hj) as (r' & l' & Hr' & Hrj).
    rewrite Hr in Hr'. injection Hr' as <- <-.
    destruct (lookup_lt_is_Some_2 entries j) as [e He].
    { rewrite <- Hlen. by apply lookup_lt_Some in Hj. }
    exists j, e, r. split; [done|]. split; [done|].
    apply block_record_date in Hr. rewrite He in Hr.
    destruct (ShareEntry.source_date e).
    + destruct Hr as [_ ->]. by apply list_elem_of_singleton in Hin.
    + destruct Hr as [_ ->]. by apply elem_of_nil in Hin.
Qed.

(** Two blocks, a dated entry and an entry without date: the first record
    carries the date of its entry, the second carries today's date and
    its warning is printed. *)
Lemma provenance_by_position_witness :
  ∃ records lines,
    SharePipeline._parse_refined_entries (twitter_dir two_blocks)
      [entry_dated (lit "2024-01-08"); entry_undated] (lit "2024-02-01")
    = (Ok records, lines)
    ∧ (∃ r, records !! 0%nat = Some r
            ∧ RefinedEntry.source_date r = lit "2024-01-08")
    ∧ (∃ r, records !! 1%nat = Some r
            ∧ RefinedEntry.source_date r = lit "2024-02-01"
            ∧ SharePipeline.no_date_warning (RefinedEntry.title r)
                (lit "2024-02-01") ∈ lines).
Proof.
  destruct (provenance_by_position (twitter_dir two_blocks) two_blocks
              (lit "2024-02-01") [entry_dated (lit "2024-01-08"); entry_undated])
    as (records & lines & Hp & _ & Hd & _).
  - apply lookup_singleton_eq.
  - repeat constructor; vm_compute; eauto.
  - reflexivity.
  - exists records, lines. split; [exact Hp|]. split.
    + destruct (Hd 0%nat (entry_dated (lit "2024-01-08")) eq_refl)
        as (r & Hr & Hdate).
      exists r. split; [exact Hr|exact Hdate].
    + destruct (Hd 1%nat entry_undated eq_refl) as (r & Hr & Hdate & Hw).
      exists r. split; [exact Hr|]. split; [exact Hdate|exact Hw].
Defined.

(** C3 as worded fails: the record of an entry without date carries
    today's date, not the empty string. *)
Lemma provenance_as_worded_fails : ¬ provenance_as_worded.
Proof.
  intros H.
  destruct (H one_block (lit "2024-02-01") [entry_undated]
              [RefinedEntry.mk (lit "A") (lit "text") (lit "2024-02-01")]
              [SharePipeline.no_date_warning (lit "A") (lit "2024-02-01")])
    with (i := 0%nat) (e := entry_undated) as (r & Hr & Hd).
  - reflexivity.
  - repeat constructor. vm_compute. eauto.
  - reflexivity.
  - reflexivity.
  - injection Hr as <-. discriminate Hd.
Qed.

(** C6, as the code has it.  Parsing returns whenever the artifact is
    there.  A headed block whose position is beyond the last entry gives a
    record with today's date, and its warning is printed; the blocks after
    it are parsed all the same.  With no more blocks than entries, every
    record is the record of a block, and it carries the date of the entry
    at the position of that block, or today's date, with its warning, when
    that entry has no date; a line is printed for such a record only; and
    the entries beyond the last block give no record: the result is the
    same without them. *)
Theorem overrun_falls_back (dir : gmap str str) (text today : str)
    (entries : list ShareEntry.t) :
  dir !! lit "02_twitter.md" = Some text →
  let blocks := SharePipeline.refined_blocks (read_text text) in
  ∃ records lines,
    SharePipeline._parse_refined_entries dir entries today
    = (Ok records, lines)
    ∧ (∀ i block,
          blocks !! i = Some block →
          is_Some (match_heading block) →
          (length entries ≤ i)%nat →
          ∃ r,
            SharePipeline.block_record entries today i block
            = Some (r, [SharePipeline.no_date_warning (RefinedEntry.title r) today])
            ∧ r ∈ records
            ∧ RefinedEntry.source_date r = today
            ∧ SharePipeline.no_date_warning (RefinedEntry.title r) today ∈ lines)
    ∧ (∀ i block,
          blocks !! i = Some block →
          is_Some (match_heading block) →
          ∃ r l, SharePipeline.block_record entries today i block = Some (r, l)
                 ∧ r ∈ records)
    ∧ ((length blocks ≤ length entries)%nat →
       (length records ≤ length blocks)%nat
       ∧ SharePipeline._parse_refined_entries dir
           (take (length blocks) entries) today
         = (Ok records, lines)
       ∧ (∀ r, r ∈ records →
               ∃ i block e l,
                 blocks !! i = Some block
                 ∧ SharePipeline.block_record entries today i block
                   = Some (r, l)
                 ∧ entries !! i = Some e
                 ∧ match ShareEntry.source_date e with
                   | [] =>
                       RefinedEntry.source_date r = today
                       ∧ l = [SharePipeline.no_date_warning
                                (RefinedEntry.title r) today]
                   | d => RefinedEntry.source_date r = d ∧ l = []
                   end)
       ∧ (∀ line, line ∈ lines →
                  ∃ i block e r,
                    blocks !! i = Some block
                    ∧ SharePipeline.block_record entries today i block
                      = Some (r, [line])
                    ∧ entries !! i = Some e
                    ∧ ShareEntry.source_date e = []
                    ∧ line = SharePipeline.no_date_warning
                               (RefinedEntry.title r) today)).
Proof.
  intros Hdir blocks. unfold SharePipeline._parse_refined_entries.
  rewrite Hdir. fold blocks.
  pose proof (parse_blocks_elem entries today blocks 0) as (H1 & H2 & H3).
  pose proof (parse_blocks_length entries today blocks 0) as Hlen.
  pose proof (parse_blocks_ext (take (length blocks) entries) entries today
                blocks 0) as Hext.
  destruct (SharePipeline.parse_blocks entries today 0 blocks)
    as [records lines].
  simpl in *. exists records, lines. split; [done|]. split; [|split].
  - intros i block Hb Hh Hi.
    destruct (block_record_some entries today i block Hh) as [[r l] Hr].
    pose proof (block_record_date entries today i block r l Hr) as Hd.
    rewrite (lookup_ge_None_2 entries i Hi) in Hd. destruct Hd as [Hd ->].
    destruct (H1 i block r _ Hb Hr) as [Hin Hl].
    exists r. split; [done|]. split; [done|]. split; [done|].
    apply Hl. apply elem_of_cons. by left.
  - intros i block Hb Hh.
    destruct (block_record_some entries today i block Hh) as [[r l] Hr].
    destruct (H1 i block r l Hb Hr) as [Hin _]. eauto.
  - intros Hle. split; [done|]. split; [|split].
    + rewrite Hext; [done|]. intros j Hj. by apply lookup_take_lt.
    + intros r Hr.
      destruct (H2 r Hr) as (j & block & l & Hj & Hrec).
      destruct (lookup_lt_is_Some_2 entries j) as [e He].
      { apply lookup_lt_Some in Hj. lia. }
      exists j, block, e, l. split; [done|]. split; [done|]. split; [done|].
      apply block_record_date in Hrec. by rewrite He in Hrec.
    + intros line Hline.
      destruct (H3 line Hline) as (j & block & r & l & Hj & Hrec & Hin).
      destruct (lookup_lt_is_Some_2 entries j) as [e He].
      { apply lookup_lt_Some in Hj. lia. }
      pose proof (block_record_date entries today j block r l Hrec) as Hd.
      rewrite He in Hd.
      exists j, block, e, r. split; [done|].
      destruct (ShareEntry.source_date e).
      * destruct Hd as [_ ->]. apply list_elem_of_singleton in Hin as ->.
        done.
      * destruct Hd as [_ ->]. by apply elem_of_nil in Hin.
Qed.

(** Two blocks for one entry: the record of the second block falls back. *)
Lemma overrun_falls_back_witness :
  ∃ records lines,
    SharePipeline._parse_refined_entries (twitter_dir two_blocks)
      [entry_dated (lit "2024-01-08")] (lit "2024-02-01")
    = (Ok records, lines)
    ∧ RefinedEntry.mk (lit "B") (lit "more") (lit "2024-02-01") ∈ records
    ∧ SharePipeline.no_date_warning (lit "B") (lit "2024-02-01") ∈ lines.
Proof.
  destruct (overrun_falls_back (twitter_dir two_blocks) two_blocks
              (lit "2024-02-01") [entry_dated (lit "2024-01-08")])
    as (records & lines & Hp & Hover & _).
  { apply lookup_singleton_eq. }
  exists records, lines. split; [exact Hp|].
  destruct (Hover 1%nat (lit "## B" ++ [nl] ++ lit "more"))
    as (r & Hr & Hin & _ & Hline).
  - reflexivity.
  - vm_compute. eauto.
  - simpl. lia.
  - vm_compute in Hr. injection Hr as <-. split; [exact Hin|exact Hline].
Defined.

(** C6 as worded fails: with one block for two dated entries no record
    falls back and nothing is printed. *)
Lemma fewer_blocks_do_not_fall_back : ¬ fewer_blocks_fall_back.
Proof.
  intros H.
  destruct (H one_block (lit "2024-02-01")
              [entry_dated (lit "2024-01-08"); entry_dated (lit "2024-01-09")]
              [RefinedEntry.mk (lit "A") (lit "text") (lit "2024-01-08")] [])
    as (r & _ & _ & Hline).
  - reflexivity.
  - simpl. vm_compute. lia.
  - by apply elem_of_nil in Hline.
Qed.

(** ** Lines, trailing whitespace and headings *)

Section LineFacts.

Lemma split_char_not_nil (sep : char) (a : str) : split_char sep a ≠ [].
Proof.
  destruct a as [|c a]; simpl; [done|].
  destruct (c =? sep); [done|]. by destruct (split_char sep a).
Qed.

Lemma split_char_app (sep : char) (a b : str) :
  split_char sep (a ++ sep :: b) = split_char sep a ++ split_char sep b.
Proof.
  induction a as [|c a IH]; simpl.
  - by rewrite N.eqb_refl.
  - destruct (c =? sep); [by rewrite IH|].
    rewrite IH. pose proof (split_char_not_nil sep a).
    by destruct (split_char sep a).
Qed.

Lemma split_char_nosep (sep : char) (a : str) :
  sep ∉ a → split_char sep a = [a].
Proof.
  induction a as [|c a IH]; [done|]. intros H.
  apply not_elem_of_cons in H as [Hc Ha]. simpl.
  apply N.eqb_neq in Hc. rewrite N.eqb_sym, Hc, (IH Ha). done.
Qed.

(** The parts of a split hold no separator, and joining them gives the
    text back. *)
Lemma split_char_parts (sep : char) (a : str) :
  Forall (λ l, sep ∉ l) (split_char sep a).
Proof.
  induction a as [|c a IH]; simpl.
  - repeat constructor. apply not_elem_of_nil.
  - destruct (c =? sep) eqn:E.
    + constructor; [apply not_elem_of_nil|done].
    + destruct (split_char sep a) as [|l ls]; [repeat constructor|].
      * apply not_elem_of_cons. split; [|apply not_elem_of_nil].
        apply N.eqb_neq in E. congruence.
      * apply Forall_cons in IH as [Hl Hls]. constructor; [|done].
        apply not_elem_of_cons. split; [|done].
        apply N.eqb_neq in E. congruence.
Qed.

Lemma join_cons (sep l : str) (ls : list str) :
  ls ≠ [] → join sep (l :: ls) = l ++ sep ++ join sep ls.
Proof. by destruct ls. Qed.

Lemma join_cons_char (sep : char) (l : str) (ls : list str) :
  ls ≠ [] → join [sep] (l :: ls) = l ++ sep :: join [sep] ls.
Proof. by destruct ls. Qed.

Lemma join_split_char (sep : char) (a : str) :
  join [sep] (split_char sep a) = a.
Proof.
  induction a as [|c a IH]; [done|]. simpl.
  destruct (c =? sep) eqn:E.
  - apply N.eqb_eq in E as ->.
    rewrite join_cons_char by apply split_char_not_nil. by rewrite IH.
  - pose proof (split_char_not_nil sep a) as Hn.
    destruct (split_char sep a) as [|l ls]; [done|].
    destruct ls as [|l' ls]; simpl in *; by rewrite <- IH.
Qed.

Lemma split_char_join (sep : char) (ls : list str) :
  ls ≠ [] → Forall (λ l, sep ∉ l) ls → split_char sep (join [sep] ls) = ls.
Proof.
  induction ls as [|l ls IH]; [done|]. intros _ Hall.
  apply Forall_cons in Hall as [Hl Hls].
  destruct ls as [|l' ls].
  - simpl. by apply split_char_nosep.
  - rewrite join_cons_char by done.
    rewrite split_char_app, (split_char_nosep _ _ Hl), IH by done. done.
Qed.

(** *** [rstrip] *)

Lemma rstrip_app (a b : str) :
  rstrip (a ++ b) = match rstrip b with
                    | [] => rstrip a
                    | b' => a ++ b'
                    end.
Proof.
  induction a as [|c a IH]; simpl.
  - by destruct (rstrip b).
  - rewrite IH. destruct (rstrip b) as [|x b']; [done|].
    by destruct a.
Qed.

Lemma rstrip_prefix (s : str) : rstrip s `prefix_of` s.
Proof.
  induction s as [|c s IH]; simpl; [done|].
  destruct (rstrip s) as [|x r].
  - destruct (isspace c); [apply prefix_nil|]. by apply prefix_cons, prefix_nil.
  - by apply prefix_cons.
Qed.

Lemma rstrip_idemp (s : str) : rstrip (rstrip s) = rstrip s.
Proof.
  induction s as [|c s IH]; simpl; [done|].
  destruct (rstrip s) as [|x r] eqn:E.
  - destruct (isspace c) eqn:Ec; simpl; [done|]. by rewrite Ec.
  - simpl in *. by rewrite IH.
Qed.

Lemma rstrip_cons_nl (s : str) :
  rstrip (nl :: s) = match rstrip s with
                     | [] => []
                     | s' => nl :: s'
                     end.
Proof. reflexivity. Qed.

Lemma startswith_prefix (p a b : str) :
  a `prefix_of` b → startswith p a = true → startswith p b = true.
Proof.
  intros [k ->] H. apply startswith_spec in H as [r ->].
  rewrite <- app_assoc. apply startswith_app.
Qed.

(** *** Headings *)

Lemma findall_headings_app (a b : str) :
  findall_headings (a ++ nl :: b) = findall_headings a ++ findall_headings b.
Proof. unfold findall_headings. by rewrite split_char_app, omap_app. Qed.

Lemma findall_headings_nl (b : str) :
  findall_headings (nl :: b) = findall_headings b.
Proof. apply (findall_headings_app [] b). Qed.

Lemma findall_headings_line (l : str) :
  nl ∉ l → findall_headings l = option_list (heading_of_line l).
Proof.
  intros H. unfold findall_headings. rewrite (split_char_nosep _ _ H). simpl.
  by destruct (heading_of_line l).
Qed.

Lemma findall_headings_join (ls : list str) :
  ls ≠ [] → Forall (λ l, nl ∉ l) ls →
  findall_headings (join [nl] ls) = omap heading_of_line ls.
Proof. intros H1 H2. unfold findall_headings. by rewrite split_char_join. Qed.

Lemma heading_of_line_mark (t : str) :
  heading_of_line (heading_mark ++ t) = match t with [] => None | _ => Some t end.
Proof.
  unfold heading_of_line. rewrite startswith_app.
  change (drop 3 (heading_mark ++ t)) with t. by destruct t.
Qed.

Lemma heading_of_line_some (l t : str) :
  heading_of_line l = Some t ↔ l = heading_mark ++ t ∧ t ≠ [].
Proof.
  unfold heading_of_line. split.
  - destruct (startswith heading_mark l) eqn:E; [|done].
    apply startswith_spec in E as [r ->].
    change (drop 3 (heading_mark ++ r)) with r.
    destruct r; [done|]. by intros [= <-].
  - intros [-> Ht]. rewrite startswith_app.
    change (drop 3 (heading_mark ++ t)) with t. by destruct t.
Qed.

(** Stripping a line keeps its heading when the heading is clean. *)
Lemma heading_of_line_rstrip (l : str) :
  (∀ t, heading_of_line l = Some t → clean t) →
  heading_of_line (rstrip l) = heading_of_line l.
Proof.
  intros Hclean. destruct (heading_of_line l) as [t|] eqn:E.
  - apply heading_of_line_some in E as H. destruct H as [-> Ht].
    specialize (Hclean t eq_refl). unfold clean in Hclean.
    rewrite rstrip_app, Hclean. destruct t; [done|]. done.
  - destruct (heading_of_line (rstrip l)) as [t|] eqn:E'; [|done].
    apply heading_of_line_some in E' as [Hl Ht].
    assert (startswith heading_mark l = true) as Hs.
    { apply (startswith_prefix _ (rstrip l)); [apply rstrip_prefix|].
      rewrite Hl. apply startswith_app. }
    apply startswith_spec in Hs as [r ->].
    rewrite heading_of_line_mark in E. destruct r; [|done].
    vm_compute in Hl. discriminate Hl.
Qed.

Lemma omap_cons_list {A B} (f : A → option B) (x : A) (l : list A) :
  omap f (x :: l) = option_list (f x) ++ omap f l.
Proof. simpl. by destruct (f x). Qed.

Lemma omap_ext_Forall_local {A B} (f g : A → option B) (l : list A) :
  Forall (λ x, f x = g x) l → omap f l = omap g l.
Proof.
  induction 1 as [|x l Hx Hl IH]; [done|].
  by rewrite !omap_cons_list, Hx, IH.
Qed.

Lemma rstrip_no_nl (l : str) : nl ∉ l → nl ∉ rstrip l.
Proof.
  intros Hl Hin. apply Hl. destruct (rstrip_prefix l) as [k Hk].
  rewrite Hk. apply elem_of_app. by left.
Qed.

Lemma findall_headings_rstrip_lines (ls : list str) :
  ls ≠ [] → Forall (λ l, nl ∉ l) ls →
  Forall clean (omap heading_of_line ls) →
  findall_headings (rstrip (join [nl] ls)) = omap heading_of_line ls.
Proof.
  induction ls as [|l ls IH]; [done|]. intros _ Hnl Hclean.
  apply Forall_cons in Hnl as [Hl Hls].
  rewrite omap_cons_list in Hclean. apply Forall_app in Hclean as [Hcl Hcls].
  assert (∀ t, heading_of_line l = Some t → clean t) as Hcl'.
  { intros t Ht. rewrite Ht in Hcl. by apply Forall_cons in Hcl as [? _]. }
  rewrite omap_cons_list.
  destruct ls as [|l' ls].
  - simpl join. simpl omap. rewrite app_nil_r.
    rewrite findall_headings_line by by apply rstrip_no_nl.
    by rewrite heading_of_line_rstrip.
  - rewrite join_cons_char by done.
    specialize (IH ltac:(done) Hls Hcls).
    rewrite rstrip_app, rstrip_cons_nl.
    destruct (rstrip (join [nl] (l' :: ls))) as [|x r] eqn:E.
    + rewrite findall_headings_line by by apply rstrip_no_nl.
      rewrite heading_of_line_rstrip by done. rewrite <- IH. simpl.
      by rewrite app_nil_r.
    + by rewrite findall_headings_app, IH, (findall_headings_line _ Hl).
Qed.

(** Stripping a text keeps its headings when they are clean. *)
Lemma findall_headings_rstrip (s : str) :
  Forall clean (findall_headings s) →
  findall_headings (rstrip s) = findall_headings s.
Proof.
  intros H. unfold findall_headings at 2. unfold findall_headings in H.
  rewrite <- (join_split_char nl s) at 1.
  apply findall_headings_rstrip_lines;
    [apply split_char_not_nil|apply split_char_parts|done].
Qed.

(** *** Text as it is read *)

Lemma read_text_no_cr_upto (n : nat) :
  ∀ s, (length s ≤ n)%nat → cr ∉ read_text s.
Proof.
  induction n as [|n IH]; intros [|c r] Hlen; cbn [read_text];
    try apply not_elem_of_nil; [simpl in Hlen; lia|].
  simpl in Hlen. destruct (c =? cr) eqn:Hc.
  - apply not_elem_of_cons. split; [done|].
    destruct r as [|c' r']; [apply not_elem_of_nil|]. simpl in Hlen.
    destruct (c' =? nl); apply IH; simpl; lia.
  - apply not_elem_of_cons. split; [|apply IH; lia].
    apply N.eqb_neq in Hc. congruence.
Qed.

(** A text that was read has no carriage return, and a text without
    carriage return is read as it is. *)
Lemma read_text_no_cr (s : str) : cr ∉ read_text s.
Proof. by apply (read_text_no_cr_upto (length s)). Qed.

Lemma read_text_id (s : str) : cr ∉ s → read_text s = s.
Proof.
  induction s as [|c s IH]; [done|]. intros [Hc Hs]%not_elem_of_cons.
  cbn [read_text]. destruct (c =? cr) eqn:E.
  - apply N.eqb_eq in E. congruence.
  - by rewrite IH.
Qed.

Lemma rstrip_elem (c : char) (s : str) : c ∈ rstrip s → c ∈ s.
Proof.
  intros H. destruct (rstrip_prefix s) as [k Hk]. rewrite Hk.
  apply elem_of_app. by left.
Qed.

Lemma join_elem (c : char) (sep : str) (ls : list str) :
  c ∈ join sep ls → c ∈ sep ∨ ∃ l, l ∈ ls ∧ c ∈ l.
Proof.
  induction ls as [|l ls IH]; [by intros H%elem_of_nil|].
  destruct ls as [|l' ls].
  - simpl. intros H. right. exists l. split; [|done].
    apply elem_of_cons. by left.
  - rewrite join_cons by done. intros [H|[H|H]%elem_of_app]%elem_of_app.
    + right. exists l. split; [|done]. apply elem_of_cons. by left.
    + by left.
    + destruct (IH H) as [?|(x & Hx & Hc)]; [by left|].
      right. exists x. split; [|done]. apply elem_of_cons. by right.
Qed.

End LineFacts.

(** ** The week groups of a run *)

Section GroupFacts.

Import SharePipeline.

Variable isocalendar : str → option (N * N).

Abbreviation label_of e := (_iso_week_label isocalendar (RefinedEntry.source_date e)).

Lemma eqb_str_true (a b : str) : eqb_str a b = true ↔ a = b.
Proof. unfold eqb_str. apply bool_decide_eq_true. Qed.

Lemma group_add_keys (l : str) (e : RefinedEntry.t)
    (groups : list (str * list RefinedEntry.t)) :
  (group_add l e groups).*1
  = if bool_decide (l ∈ groups.*1) then groups.*1 else groups.*1 ++ [l].
Proof.
  induction groups as [|[l0 es0] groups IH]; csimpl; [done|].
  unfold eqb_str. destruct (bool_decide (l0 = l)) eqn:E.
  - apply bool_decide_eq_true in E as ->. csimpl.
    rewrite bool_decide_eq_true_2; [done|]. apply elem_of_cons. by left.
  - apply bool_decide_eq_false in E. csimpl. rewrite IH.
    destruct (bool_decide (l ∈ groups.*1)) eqn:E'.
    + apply bool_decide_eq_true in E'.
      rewrite bool_decide_eq_true_2; [done|]. apply elem_of_cons. by right.
    + apply bool_decide_eq_false in E'.
      rewrite bool_decide_eq_false_2; [done|].
      intros [Heq|Hin]%elem_of_cons; [by subst|done].
Qed.

Lemma group_add_NoDup (l : str) (e : RefinedEntry.t)
    (groups : list (str * list RefinedEntry.t)) :
  NoDup groups.*1 → NoDup (group_add l e groups).*1.
Proof.
  intros H. rewrite group_add_keys. case_bool_decide; [done|].
  apply NoDup_app. split; [done|]. split; [|apply NoDup_singleton].
  intros x Hx [->|Hin]%elem_of_cons; [done|]. by apply elem_of_nil in Hin.
Qed.

Lemma group_add_map (l : str) (e : RefinedEntry.t)
    (groups : list (str * list RefinedEntry.t)) :
  NoDup groups.*1 →
  (list_to_map (group_add l e groups) : gmap str (list RefinedEntry.t))
  = <[l := default [] ((list_to_map groups : gmap str (list RefinedEntry.t)) !! l)
           ++ [e]]> (list_to_map groups).
Proof.
  induction groups as [|[l0 es0] groups IH]; intros Hnd; simpl.
  - by rewrite lookup_empty.
  - apply NoDup_cons in Hnd as [Hl0 Hnd].
    unfold eqb_str. case_bool_decide as E.
    + subst l0. simpl. by rewrite lookup_insert_eq, insert_insert_eq.
    + simpl. rewrite IH by done. rewrite lookup_insert_ne by done.
      by rewrite insert_insert_ne.
Qed.

Lemma bucket_app (l : str) (a b : list RefinedEntry.t) :
  bucket isocalendar l (a ++ b) = bucket isocalendar l a ++ bucket isocalendar l b.
Proof. apply List.filter_app. Qed.

Lemma group_add_groups_of (seen : list RefinedEntry.t) (l : str)
    (e : RefinedEntry.t) (groups : list (str * list RefinedEntry.t)) :
  label_of e = Some l →
  groups_of isocalendar seen groups →
  groups_of isocalendar (seen ++ [e]) (group_add l e groups).
Proof.
  intros Hl [Hnd Hmap]. split; [by apply group_add_NoDup|].
  intros l'. rewrite group_add_map by done. rewrite bucket_app.
  unfold bucket at 2. simpl.
  destruct (decide (l = l')) as [<-|Hne].
  - rewrite lookup_insert_eq, Hmap, Hl, bool_decide_eq_true_2 by done.
    destruct (bucket isocalendar l seen); done.
  - rewrite lookup_insert_ne, Hmap by done.
    rewrite Hl, bool_decide_eq_false_2 by congruence.
    by rewrite app_nil_r.
Qed.

Lemma group_by_week_groups_of (entries : list RefinedEntry.t) :
  ∀ (seen : list RefinedEntry.t) (groups week_groups : list (str * list RefinedEntry.t)),
    groups_of isocalendar seen groups →
    group_by_week isocalendar entries groups = Some week_groups →
    groups_of isocalendar (seen ++ entries) week_groups.
Proof.
  induction entries as [|e entries IH]; intros seen groups week_groups Hg H.
  - injection H as <-. by rewrite app_nil_r.
  - simpl in H. destruct (label_of e) as [l|] eqn:Hl; [|done]. simpl in H.
    replace (seen ++ e :: entries) with ((seen ++ [e]) ++ entries)
      by by rewrite <- app_assoc.
    eapply IH; [|exact H]. by apply group_add_groups_of.
Qed.

Lemma group_by_week_spec (entries : list RefinedEntry.t)
    (week_groups : list (str * list RefinedEntry.t)) :
  group_by_week isocalendar entries [] = Some week_groups →
  groups_of isocalendar entries week_groups.
Proof.
  intros H. apply (group_by_week_groups_of entries [] [] week_groups); [|done].
  split; [constructor|]. intros l. apply lookup_empty.
Qed.

(** The run raises exactly when a date is refused. *)
Lemma group_by_week_some (entries : list RefinedEntry.t) :
  ∀ groups,
    dated isocalendar entries →
    is_Some (group_by_week isocalendar entries groups).
Proof.
  induction entries as [|e entries IH]; intros groups Hd; [by eexists|].
  apply Forall_cons in Hd as [[[y w] He] Hd]. simpl.
  unfold _iso_week_label at 1. rewrite He. simpl. by apply IH.
Qed.

(** The grouping loop stops at the first date that is refused. *)
Lemma group_by_week_dated (entries : list RefinedEntry.t) :
  ∀ groups,
    is_Some (group_by_week isocalendar entries groups) →
    dated isocalendar entries.
Proof.
  induction entries as [|e entries IH]; intros groups H; [constructor|].
  simpl in H. unfold _iso_week_label at 1 in H.
  destruct (isocalendar (RefinedEntry.source_date e)) as [[y w]|] eqn:He;
    [|by destruct H].
  simpl in H. constructor; [by eexists|by eapply IH].
Qed.

End GroupFacts.

(** ** One run of [merge_to_shared_posts], file by file *)

(** One step of a loop that is written as a left fold. *)
Ltac foldl_step :=
  match goal with
  | |- context [foldl ?f ?a (?x :: ?l)] =>
      change (foldl f a (x :: l)) with (foldl f (f a x) l)
  end.

Section MergeFacts.

Import SharePipeline.

Lemma bucket_file_inj (l l' : str) : bucket_file l = bucket_file l' → l = l'.
Proof. unfold bucket_file. apply app_inv_tail. Qed.

(** What is read of a file, and what a run does to it, depend on that file
    alone. *)
Lemma read_existing_ext (v v' : gmap str str) (f : str) :
  v !! f = v' !! f → read_existing v f = read_existing v' f.
Proof. unfold read_existing. by intros ->. Qed.

Lemma file_after_ext (v v' : gmap str str) (f : str)
    (es : list RefinedEntry.t) :
  v !! f = v' !! f → file_after v f es = file_after v' f es.
Proof.
  intros H. unfold file_after. by rewrite (read_existing_ext v v' f H), H.
Qed.

Lemma merge_group_vault (st : merge_state) (l : str)
    (es : list RefinedEntry.t) (f : str) :
  vault (merge_group st (l, es)) !! f
  = if decide (f = bucket_file l) then file_after (vault st) f es
    else vault st !! f.
Proof.
  unfold merge_group, file_after. case_decide as Hf.
  - subst f.
    destruct (new_entries_of (read_existing (vault st) (bucket_file l)) es);
      simpl; [done|]. by rewrite lookup_insert_eq.
  - destruct (new_entries_of (read_existing (vault st) (bucket_file l)) es);
      simpl; [done|]. by rewrite lookup_insert_ne.
Qed.

Lemma merge_group_written (st : merge_state) (l : str)
    (es : list RefinedEntry.t) :
  written_paths (merge_group st (l, es))
  = written_paths st
    ++ match new_entries_of (read_existing (vault st) (bucket_file l)) es with
       | [] => []
       | _ => [bucket_file l]
       end.
Proof.
  unfold merge_group.
  destruct (new_entries_of (read_existing (vault st) (bucket_file l)) es);
    simpl; [by rewrite app_nil_r|done].
Qed.

(** A file that is the file of no group is left as it is. *)
Lemma merge_fold_other (groups : list (str * list RefinedEntry.t)) :
  ∀ (st : merge_state) (f : str),
    (∀ l, l ∈ groups.*1 → f ≠ bucket_file l) →
    vault (foldl merge_group st groups) !! f = vault st !! f.
Proof.
  induction groups as [|[l0 es0] groups IH]; intros st f Hf; [done|].
  foldl_step. rewrite IH.
  - rewrite merge_group_vault. rewrite decide_False; [done|].
    apply Hf. csimpl. apply elem_of_cons. by left.
  - intros l Hl. apply Hf. csimpl. apply elem_of_cons. by right.
Qed.

(** The file of a group is read and written once, by its group. *)
Lemma merge_fold_vault (groups : list (str * list RefinedEntry.t)) :
  NoDup groups.*1 →
  ∀ (st : merge_state) (l : str),
    vault (foldl merge_group st groups) !! bucket_file l
    = match (list_to_map groups : gmap str (list RefinedEntry.t)) !! l with
      | Some es => file_after (vault st) (bucket_file l) es
      | None => vault st !! bucket_file l
      end.
Proof.
  induction groups as [|[l0 es0] groups IH]; intros Hnd st l; [done|].
  csimpl in Hnd. apply NoDup_cons in Hnd as [Hl0 Hnd]. foldl_step.
  change (list_to_map ((l0, es0) :: groups))
    with (<[l0 := es0]> (list_to_map groups : gmap str (list RefinedEntry.t))).
  destruct (decide (l = l0)) as [->|Hne].
  - rewrite lookup_insert_eq. rewrite merge_fold_other.
    + rewrite merge_group_vault. by rewrite decide_True.
    + intros l Hl Heq. apply bucket_file_inj in Heq. by subst.
  - rewrite lookup_insert_ne by done. rewrite IH by done.
    assert (vault (merge_group st (l0, es0)) !! bucket_file l
            = vault st !! bucket_file l) as Hsame.
    { rewrite merge_group_vault. rewrite decide_False; [done|].
      intros Heq. by apply bucket_file_inj in Heq. }
    destruct (list_to_map groups !! l) as [es|]; [|done].
    by apply file_after_ext.
Qed.

(** The paths written are the files of the groups that have new entries. *)
Lemma merge_fold_written (groups : list (str * list RefinedEntry.t)) :
  NoDup groups.*1 →
  ∀ (st : merge_state),
    written_paths (foldl merge_group st groups)
    = written_paths st
      ++ omap (λ g, match new_entries_of
                            (read_existing (vault st) (bucket_file g.1)) g.2 with
                    | [] => None
                    | _ => Some (bucket_file g.1)
                    end) groups.
Proof.
  induction groups as [|[l0 es0] groups IH]; intros Hnd st.
  - simpl. by rewrite app_nil_r.
  - csimpl in Hnd. apply NoDup_cons in Hnd as [Hl0 Hnd]. foldl_step.
    rewrite IH by done. rewrite merge_group_written, <- app_assoc. f_equal.
    rewrite omap_cons_list. cbn [fst snd]. f_equal.
    + by destruct (new_entries_of _ es0).
    + apply omap_ext_Forall_local. apply Forall_forall. intros [l es] Hin.
      cbn [fst snd].
      rewrite (read_existing_ext (vault (merge_group st (l0, es0))) (vault st));
        [done|].
      rewrite merge_group_vault, decide_False; [done|].
      intros Heq. apply bucket_file_inj in Heq. subst l0. apply Hl0.
      apply list_elem_of_fmap. by exists (l, es).
Qed.

End MergeFacts.

Section RunFacts.

Import SharePipeline.

Variable isocalendar : str → option (N * N).

Lemma merge_written_elem (groups : list (str * list RefinedEntry.t))
    (v : gmap str str) (f : str) :
  NoDup groups.*1 →
  f ∈ written_paths (foldl merge_group (mk_merge v [] []) groups)
  ↔ ∃ l es, (l, es) ∈ groups ∧ f = bucket_file l
            ∧ new_entries_of (read_existing v f) es ≠ [].
Proof.
  intros Hnd. rewrite merge_fold_written by done. simpl.
  rewrite list_elem_of_omap. split.
  - intros ([l es] & Hin & H). cbn [fst snd] in H.
    destruct (new_entries_of (read_existing v (bucket_file l)) es) eqn:E;
      [done|]. injection H as <-. exists l, es. by rewrite E.
  - intros (l & es & Hin & -> & Hne). exists (l, es). split; [done|].
    cbn [fst snd].
    by destruct (new_entries_of (read_existing v (bucket_file l)) es).
Qed.

(** What a run does to a file: it leaves it as it is and does not list it,
    or the file is the file of a week for which the run has new entries,
    and these are added to it. *)
Lemma merge_run_cases (entries : list RefinedEntry.t) (v : gmap str str)
    (f : str) :
  let st := (merge_to_shared_posts isocalendar entries v).2 in
  (vault st !! f = v !! f ∧ f ∉ written_paths st)
  ∨ (∃ l, f = bucket_file l
          ∧ new_entries_of (read_existing v f) (bucket isocalendar l entries)
            ≠ []
          ∧ vault st !! f
            = Some (new_content_of (read_existing v f)
                      (new_entries_of (read_existing v f)
                         (bucket isocalendar l entries)))
          ∧ f ∈ written_paths st).
Proof.
  unfold merge_to_shared_posts.
  destruct (group_by_week isocalendar entries []) as [groups|] eqn:Hg; simpl.
  2:{ left. split; [done|]. apply not_elem_of_nil. }
  apply group_by_week_spec in Hg as [Hnd Hmap].
  destruct (decide (f ∈ bucket_file <$> groups.*1)) as [Hin|Hnot].
  - apply list_elem_of_fmap in Hin as (l & -> & Hl).
    rewrite merge_fold_vault by done. simpl.
    specialize (Hmap l).
    destruct ((list_to_map groups : gmap str (list RefinedEntry.t)) !! l)
      as [es|] eqn:Hes.
    2:{ apply not_elem_of_list_to_map in Hes. done. }
    assert (es = bucket isocalendar l entries) as Hb.
    { destruct (bucket isocalendar l entries); [done|]. by injection Hmap. }
    apply elem_of_list_to_map in Hes; [|done].
    unfold file_after.
    destruct (new_entries_of (read_existing v (bucket_file l)) es) eqn:Hnew.
    + left. split; [done|]. rewrite merge_written_elem by done.
      intros (l' & es' & Hin' & Heq & Hne). apply bucket_file_inj in Heq.
      subst l'. assert (es' = es) as ->.
      { apply (elem_of_list_to_map (M := gmap str)) in Hin'; [|done].
        apply (elem_of_list_to_map (M := gmap str)) in Hes; [|done].
        congruence. }
      done.
    + right. exists l. rewrite <- Hb, Hnew. split; [done|]. split; [done|].
      split; [done|]. rewrite merge_written_elem by done.
      exists l, es. by rewrite Hnew.
  - left. split.
    + apply merge_fold_other. intros l Hl ->. apply Hnot.
      apply list_elem_of_fmap. by exists l.
    + rewrite merge_written_elem by done.
      intros (l & es & Hin & -> & _). apply Hnot.
      apply list_elem_of_fmap. exists l. split; [done|].
      apply list_elem_of_fmap. by exists (l, es).
Qed.

(** *** The headings of the text that a run adds *)

Lemma findall_headings_nil : findall_headings [] = [].
Proof. reflexivity. Qed.

Lemma findall_headings_separator (a b : str) :
  findall_headings (a ++ separator ++ b)
  = findall_headings a ++ findall_headings b.
Proof.
  change (a ++ separator ++ b)
    with (a ++ nl :: ([] ++ nl :: (lit "===" ++ nl :: ([] ++ nl :: b)))).
  rewrite !findall_headings_app. done.
Qed.

Lemma findall_headings_entry (e : RefinedEntry.t) :
  wf_title (RefinedEntry.title e) →
  findall_headings (entry_text e)
  = RefinedEntry.title e :: findall_headings (RefinedEntry.content e).
Proof.
  intros (Hne & Hnl & _). unfold entry_text.
  change (heading_mark ++ RefinedEntry.title e ++ [nl; nl] ++ RefinedEntry.content e)
    with (heading_mark ++ RefinedEntry.title e
          ++ nl :: ([] ++ nl :: RefinedEntry.content e)).
  rewrite app_assoc, !findall_headings_app, findall_headings_line.
  - rewrite heading_of_line_mark. by destruct (RefinedEntry.title e).
  - intros [Hin|Hin]%elem_of_app; [|done].
    vm_compute in Hin. repeat (apply elem_of_cons in Hin as [Hin|Hin]; [done|]).
    by apply elem_of_nil in Hin.
Qed.

Lemma findall_headings_append (es : list RefinedEntry.t) :
  Forall (λ e, wf_title (RefinedEntry.title e)) es →
  findall_headings (append_text_of es)
  = concat (List.map (λ e, RefinedEntry.title e
                           :: findall_headings (RefinedEntry.content e)) es).
Proof.
  unfold append_text_of. induction 1 as [|e es He Hes IH]; [done|].
  destruct es as [|e' es].
  - simpl. rewrite app_nil_r. by apply findall_headings_entry.
  - change (List.map entry_text (e :: e' :: es))
      with (entry_text e :: List.map entry_text (e' :: es)).
    rewrite join_cons by done.
    rewrite findall_headings_separator, IH, findall_headings_entry by done.
    done.
Qed.

Lemma findall_headings_new_content (old : str) (new : list RefinedEntry.t) :
  Forall (λ e, wf_title (RefinedEntry.title e)) new →
  findall_headings (new_content_of old new)
  = findall_headings (rstrip old)
    ++ concat (List.map (λ e, RefinedEntry.title e
                              :: findall_headings (RefinedEntry.content e)) new).
Proof.
  intros Hwf. unfold new_content_of. destruct old as [|c old].
  - change (append_text_of new ++ [nl]) with (append_text_of new ++ nl :: []).
    rewrite findall_headings_app, findall_headings_append by done.
    simpl. by rewrite app_nil_r.
  - rewrite findall_headings_separator.
    change (append_text_of new ++ [nl]) with (append_text_of new ++ nl :: []).
    rewrite findall_headings_app, findall_headings_append by done.
    by rewrite findall_headings_nil, app_nil_r.
Qed.

Lemma concat_titles (es : list RefinedEntry.t) :
  Forall wf_entry es →
  concat (List.map (λ e, RefinedEntry.title e
                         :: findall_headings (RefinedEntry.content e)) es)
  = List.map RefinedEntry.title es.
Proof.
  induction 1 as [|e es [_ He] Hes IH]; [done|]. simpl. by rewrite He, IH.
Qed.

(** *** What a run writes is read back as it is *)

Lemma read_existing_no_cr (v : gmap str str) (f : str) :
  cr ∉ read_existing v f.
Proof.
  unfold read_existing. destruct (v !! f); [apply read_text_no_cr|].
  apply not_elem_of_nil.
Qed.

Lemma separator_no_cr : cr ∉ separator.
Proof.
  intros H. vm_compute in H.
  repeat (apply elem_of_cons in H as [H|H]; [done|]). by apply elem_of_nil in H.
Qed.

Lemma entry_text_no_cr (e : RefinedEntry.t) : reads_back e → cr ∉ entry_text e.
Proof.
  intros [(_ & _ & Ht & _) Hc]. unfold entry_text.
  intros [H|[H|[H|H]%elem_of_app]%elem_of_app]%elem_of_app; try done.
  - vm_compute in H.
    repeat (apply elem_of_cons in H as [H|H]; [done|]). by apply elem_of_nil in H.
  - repeat (apply elem_of_cons in H as [H|H]; [done|]). by apply elem_of_nil in H.
Qed.

Lemma append_text_no_cr (es : list RefinedEntry.t) :
  Forall reads_back es → cr ∉ append_text_of es.
Proof.
  intros Hes H. unfold append_text_of in H.
  apply join_elem in H as [H|(l & Hl & H)]; [by apply separator_no_cr|].
  apply list_elem_of_In, in_map_iff in Hl as (e & <- & He).
  rewrite Forall_forall in Hes. apply (entry_text_no_cr e); [|done].
  by apply Hes, list_elem_of_In.
Qed.

Lemma new_content_no_cr (old : str) (new : list RefinedEntry.t) :
  cr ∉ old → Forall reads_back new → cr ∉ new_content_of old new.
Proof.
  intros Hold Hnew. unfold new_content_of.
  assert (cr ∉ append_text_of new ++ [nl]) as Happ.
  { intros [H|H]%elem_of_app; [by apply (append_text_no_cr new)|].
    by apply list_elem_of_singleton in H. }
  destruct old as [|c old]; [done|].
  intros [H|[H|H]%elem_of_app]%elem_of_app.
  - by apply rstrip_elem in H.
  - by apply separator_no_cr.
  - done.
Qed.

Lemma read_new_content (old : str) (new : list RefinedEntry.t) :
  cr ∉ old → Forall reads_back new →
  read_text (new_content_of old new) = new_content_of old new.
Proof. intros. by apply read_text_id, new_content_no_cr. Qed.

(** The file of a week after a run. *)
Lemma merge_run_file (run : list RefinedEntry.t) (v : gmap str str) (l : str) :
  vault_after isocalendar run v !! bucket_file l
  = match group_by_week isocalendar run [] with
    | Some _ => file_after v (bucket_file l) (bucket isocalendar l run)
    | None => v !! bucket_file l
    end.
Proof.
  unfold vault_after, merge_to_shared_posts.
  destruct (group_by_week isocalendar run []) as [groups|] eqn:Hg; [|done].
  apply group_by_week_spec in Hg as [Hnd Hmap]. simpl.
  rewrite merge_fold_vault by done. simpl. rewrite Hmap.
  destruct (bucket isocalendar l run) eqn:E; [|done].
  unfold file_after. done.
Qed.

End RunFacts.

(** ** Append-only files and headings without duplicates *)

(** Closes a decidable goal on concrete data by evaluation. *)
Ltac by_evaluation := apply (bool_decide_unpack _); vm_compute; exact I.

Section MergeTheorems.

Import SharePipeline.

Variable isocalendar : str → option (N * N).

Lemma Forall_list_filter {A} (P : A → Prop) (p : A → bool) (l : list A) :
  Forall P l → Forall P (List.filter p l).
Proof.
  induction 1 as [|x l Hx Hl IH]; [done|]. simpl.
  destruct (p x); [by constructor|done].
Qed.

Lemma NoDup_map_list_filter {A B} (g : A → B) (p : A → bool) (l : list A) :
  NoDup (List.map g l) → NoDup (List.map g (List.filter p l)).
Proof.
  induction l as [|x l IH]; [done|]. simpl. intros [Hx Hl]%NoDup_cons.
  destruct (p x); [|by apply IH]. simpl. apply NoDup_cons. split; [|by apply IH].
  intros Hin. apply Hx. apply list_elem_of_In, in_map_iff in Hin as (y & Hy & Hin).
  apply filter_In in Hin as [Hin _].
  apply list_elem_of_In, in_map_iff. by exists y.
Qed.

Lemma elem_of_list_filter_1 {A} (p : A → bool) (l : list A) (x : A) :
  x ∈ List.filter p l → x ∈ l ∧ p x = true.
Proof.
  intros H. apply list_elem_of_In, filter_In in H as [H1 H2].
  split; [by apply list_elem_of_In|done].
Qed.

Lemma list_filter_nil_local {A} (p : A → bool) (l : list A) :
  (∀ x, x ∈ l → p x = false) → List.filter p l = [].
Proof.
  induction l as [|x l IH]; [done|]. intros H. simpl.
  rewrite H by (apply elem_of_cons; by left).
  apply IH. intros y Hy. apply H. apply elem_of_cons. by right.
Qed.

Lemma bucket_titles_NoDup (l : str) (run : list RefinedEntry.t) :
  distinct_titles isocalendar run →
  NoDup (List.map RefinedEntry.title (bucket isocalendar l run)).
Proof.
  unfold distinct_titles, keyed, bucket.
  induction run as [|e run IH]; [constructor|]. simpl.
  intros [He Hrun]%NoDup_cons. case_bool_decide as Hl; [|by apply IH].
  simpl. apply NoDup_cons. split; [|by apply IH].
  intros Hin. apply He.
  apply list_elem_of_In, in_map_iff in Hin as (e' & Ht & Hin).
  apply filter_In in Hin as [Hin Hl']. apply bool_decide_eq_true in Hl'.
  apply list_elem_of_In, in_map_iff. exists e'. split; [|done]. congruence.
Qed.

(** An entry whose title is a heading of the file is not among the entries
    that are added. *)
Lemma new_entries_skip (old : str) (es : list RefinedEntry.t)
    (e : RefinedEntry.t) :
  e ∈ new_entries_of old es →
  e ∈ es ∧ RefinedEntry.title e ∉ findall_headings old.
Proof.
  intros H. apply elem_of_list_filter_1 in H as [Hin Hp].
  split; [done|]. apply negb_true_iff, bool_decide_eq_false in Hp. done.
Qed.

(** A run keeps the files free of duplicate headings. *)
Lemma vault_ok_run (run : list RefinedEntry.t) (v : gmap str str) :
  vault_ok v →
  Forall wf_entry run →
  distinct_titles isocalendar run →
  vault_ok (vault_after isocalendar run v).
Proof.
  intros Hv Hwf Hd f c Hc. unfold vault_after in Hc.
  destruct (merge_run_cases isocalendar run v f)
    as [[Hsame _]|(l & -> & Hne & Hnew & _)].
  - rewrite Hsame in Hc. by apply (Hv f c).
  - rewrite Hnew in Hc. injection Hc as <-.
    set (old := read_existing v (bucket_file l)) in *.
    set (new := new_entries_of old (bucket isocalendar l run)) in *.
    assert (NoDup (findall_headings old) ∧ Forall clean (findall_headings old))
      as [Hnd Hcl].
    { unfold old, read_existing. destruct (v !! bucket_file l) as [o|] eqn:Ho.
      - by apply (Hv _ _ Ho).
      - split; constructor. }
    assert (Forall wf_entry new) as Hwn.
    { by apply Forall_list_filter, Forall_list_filter. }
    assert (Forall reads_back new) as Hrb.
    { eapply Forall_impl; [exact Hwn|]. by intros e [? _]. }
    rewrite read_new_content by (done || apply read_existing_no_cr).
    rewrite findall_headings_new_content, concat_titles,
      findall_headings_rstrip; try done.
    2:{ eapply Forall_impl; [exact Hrb|]. by intros e [? _]. }
    split.
    + apply NoDup_app. split; [done|]. split.
      * intros t Ht Hin.
        apply list_elem_of_In, in_map_iff in Hin as (e & <- & Hin).
        apply list_elem_of_In, new_entries_skip in Hin as [_ Hin]. done.
      * by apply NoDup_map_list_filter, bucket_titles_NoDup.
    + apply Forall_app. split; [done|].
      apply Forall_forall. intros t Hin.
      apply list_elem_of_In, in_map_iff in Hin as (e & <- & Hin).
      apply list_elem_of_In in Hin.
      rewrite Forall_forall in Hwn.
      by destruct (Hwn e Hin) as [[(_ & _ & _ & ?) _] _].
Qed.

Lemma vault_ok_runs (runs : list (list RefinedEntry.t)) :
  ∀ v,
    vault_ok v →
    Forall (λ run, Forall wf_entry run ∧ distinct_titles isocalendar run) runs →
    vault_ok (vault_after_runs isocalendar runs v).
Proof.
  unfold vault_after_runs.
  induction runs as [|run runs IH]; intros v Hv Hruns; [done|].
  apply Forall_cons in Hruns as [[Hwf Hd] Hruns].
  foldl_step. apply IH; [|done]. by apply vault_ok_run.
Qed.

(** C1, as the code has it.  A run whose dates are all accepted adds to
    the file of a week the entries for that week whose title is not a
    heading of the file as it is read before the run, all of them and in
    their order, also when two of them have the same title, and it skips
    the others; the file of a week without such an entry, and every file
    that is not the file of a week, is left as it is.  A run with a date
    that is refused leaves every file as it is.  So, when the files, as
    they are read, have no duplicate headings and no heading with trailing
    whitespace (the empty vault is such), and every run has entries with
    non-empty one-line titles without trailing whitespace, contents
    without heading lines, no carriage return in either, and no title
    twice in one week, then after any number of runs no file, as it is
    read, has two headings with the same text. *)
Theorem no_duplicate_headings (runs : list (list RefinedEntry.t))
    (v : gmap str str) :
  vault_ok v →
  Forall (λ run, Forall wf_entry run ∧ distinct_titles isocalendar run) runs →
  (∀ f c, vault_after_runs isocalendar runs v !! f = Some c →
          NoDup (findall_headings (read_text c)))
  ∧ (∀ run v',
        dated isocalendar run →
        (∀ l,
            let f := bucket_file l in
            let old := read_existing v' f in
            let added :=
              List.filter
                (λ e, bool_decide
                        (RefinedEntry.title e ∉ findall_headings old))
                (bucket isocalendar l run) in
            vault_after isocalendar run v' !! f
            = match added with
              | [] => v' !! f
              | _ => Some (new_content_of old added)
              end)
        ∧ (∀ f, (∀ l, f ≠ bucket_file l) →
                vault_after isocalendar run v' !! f = v' !! f))
  ∧ (∀ run v',
        ¬ dated isocalendar run → vault_after isocalendar run v' = v').
Proof.
  intros Hv Hruns. split; [|split].
  - intros f c Hc. by destruct (vault_ok_runs runs v Hv Hruns f c Hc).
  - intros run v' Hd. split.
    + intros l f old added. subst f. rewrite merge_run_file.
      destruct (group_by_week_some isocalendar run [] Hd) as [groups ->].
      unfold file_after, new_entries_of. cbv zeta.
      change (read_existing v' (bucket_file l)) with old.
      assert (List.filter
                (λ e, negb (bool_decide
                              (RefinedEntry.title e ∈ findall_headings old)))
                (bucket isocalendar l run) = added) as Heq.
      2:{ rewrite Heq. by destruct added. }
      unfold added. apply List.filter_ext. intros e.
      by destruct (decide (RefinedEntry.title e ∈ findall_headings old));
        [rewrite bool_decide_eq_true_2, bool_decide_eq_false_2 by auto
        |rewrite bool_decide_eq_false_2, bool_decide_eq_true_2 by auto].
    + intros f Hf. unfold vault_after.
      destruct (merge_run_cases isocalendar run v' f)
        as [[Hsame _]|(l & -> & _)]; [done|]. by destruct (Hf l).
  - intros run v' Hd. unfold vault_after, merge_to_shared_posts.
    destruct (group_by_week isocalendar run []) as [groups|] eqn:Hg; [|done].
    destruct Hd. eapply group_by_week_dated. by eexists.
Qed.

(** C9, as the code has it.  A run leaves a file as it is, or it writes:
    the content before the run as it is read (a carriage return, alone or
    in front of a newline, is read as a newline), without its trailing
    whitespace, then the separator, then the new entries joined by the
    separator, then a newline; for an empty file, the new entries and a
    newline.  The old content as it is read, without its trailing
    whitespace, is a prefix of the new content; for an old content
    without carriage return this is the old content without its trailing
    whitespace. *)
Theorem merge_appends (entries : list RefinedEntry.t) (v : gmap str str)
    (f stored : str) :
  v !! f = Some stored →
  let old := read_text stored in
  let st := (merge_to_shared_posts isocalendar entries v).2 in
  (vault st !! f = Some stored ∧ f ∉ written_paths st)
  ∨ (f ∈ written_paths st
     ∧ ∃ l added new,
         f = bucket_file l
         ∧ added = new_entries_of old (bucket isocalendar l entries)
         ∧ added ≠ []
         ∧ vault st !! f = Some new
         ∧ new = match old with
                 | [] => append_text_of added ++ [nl]
                 | _ => rstrip old ++ separator ++ append_text_of added ++ [nl]
                 end
         ∧ rstrip old `prefix_of` new
         ∧ ((cr ∉ stored) → rstrip stored `prefix_of` new)).
Proof.
  intros Hold old st. unfold st.
  destruct (merge_run_cases isocalendar entries v f)
    as [[Hsame Hw]|(l & -> & Hne & Hnew & Hw)].
  - left. by rewrite Hsame.
  - right. split; [done|]. unfold read_existing in *. rewrite Hold in *.
    fold old in Hne, Hnew.
    eexists l, _, _. split; [done|]. split; [done|]. split; [done|].
    split; [exact Hnew|]. split; [done|].
    assert (rstrip old `prefix_of`
              new_content_of old
                (new_entries_of old (bucket isocalendar l entries))) as Hpre.
    { unfold new_content_of. destruct old; [apply prefix_nil|]. by eexists. }
    split; [done|]. intros Hcr. unfold old in *.
    by rewrite (read_text_id stored Hcr) in *.
Qed.

End MergeTheorems.

(** Two runs on the empty vault: the second run brings one entry again and
    one new entry.  The new entry alone is added to the file of the first
    run, and the file has no heading twice. *)
Lemma no_duplicate_headings_witness :
  let v1 := SharePipeline.vault_after Calendar.isocalendar [foo_monday] ∅ in
  let v2 := SharePipeline.vault_after Calendar.isocalendar
              [foo_monday; bar_monday] v1 in
  v2 !! week2_file
  = Some (SharePipeline.new_content_of
            (SharePipeline.read_existing v1 week2_file) [bar_monday])
  ∧ ∃ c,
      SharePipeline.vault_after_runs Calendar.isocalendar
        [[foo_monday]; [foo_monday; bar_monday]] ∅ !! week2_file = Some c
      ∧ NoDup (findall_headings (read_text c)).
Proof.
  intros v1 v2.
  destruct (no_duplicate_headings Calendar.isocalendar
              [[foo_monday]; [foo_monday; bar_monday]] ∅) as (H & Hrun & _).
  - apply map_Forall_empty.
  - repeat constructor; try by_evaluation; try reflexivity.
  - split.
    + destruct (Hrun [foo_monday; bar_monday] v1) as [Hfile _].
      { repeat constructor; vm_compute; eauto. }
      exact (Hfile (lit "Week 2 - 2024")).
    + eexists. split; [vm_compute; reflexivity|].
      eapply (H week2_file). vm_compute. reflexivity.
Defined.

Example two_runs_file :
  SharePipeline.vault_after_runs Calendar.isocalendar
    [[foo_monday]; [foo_monday; bar_monday]] ∅ !! week2_file
  = Some (lit "## Foo" ++ [nl; nl] ++ lit "one" ++ [nl; nl] ++ lit "==="
          ++ [nl; nl] ++ lit "## Bar" ++ [nl; nl] ++ lit "three" ++ [nl]).
Proof. vm_compute. reflexivity. Qed.

(** C1 as worded fails: one run with the same title twice in one week
    writes the heading twice. *)
Lemma same_title_twice_in_one_run : ¬ no_duplicates_as_worded.
Proof.
  intros H.
  specialize (H [[foo_monday; foo_tuesday]] week2_file
                (lit "## Foo" ++ [nl; nl] ++ lit "one" ++ [nl; nl] ++ lit "==="
                 ++ [nl; nl] ++ lit "## Foo" ++ [nl; nl] ++ lit "two" ++ [nl])).
  assert (¬ NoDup (findall_headings
                     (read_text
                        (lit "## Foo" ++ [nl; nl] ++ lit "one" ++ [nl; nl]
                         ++ lit "===" ++ [nl; nl] ++ lit "## Foo" ++ [nl; nl]
                         ++ lit "two" ++ [nl])))) as Hdup.
  { intros Hnd. vm_compute in Hnd. apply NoDup_cons in Hnd as [Hin _].
    apply Hin. apply elem_of_cons. by left. }
  apply Hdup, H. vm_compute. reflexivity.
Qed.

(** A file and one new entry for its week. *)
Lemma merge_appends_witness :
  let st := (SharePipeline.merge_to_shared_posts Calendar.isocalendar
               [bar_monday] bare_vault).2 in
  week2_file ∈ SharePipeline.written_paths st
  ∧ SharePipeline.vault st !! week2_file
    = Some (lit "## A" ++ SharePipeline.separator ++ lit "## Bar" ++ [nl; nl]
            ++ lit "three" ++ [nl]).
Proof.
  intros st.
  destruct (merge_appends Calendar.isocalendar [bar_monday] bare_vault
              week2_file (lit "## A" ++ [nl; nl; nl]))
    as [[Hsame _]|(Hw & l & added & new & Hf & Hadd & _ & Hnew & Heq & _)];
    cbv zeta in *.
  - apply lookup_singleton_eq.
  - exfalso. vm_compute in Hsame. discriminate Hsame.
  - split; [exact Hw|]. fold st in Hnew. rewrite Hnew. f_equal.
    change week2_file with (SharePipeline.bucket_file (lit "Week 2 - 2024")) in Hf.
    apply bucket_file_inj in Hf. subst l.
    rewrite Heq, Hadd. vm_compute. reflexivity.
Defined.

(** The file of [bare_vault] is what a run writes for an entry that has no
    content. *)
Example bare_vault_written :
  SharePipeline.vault_after Calendar.isocalendar [bare_monday] ∅ = bare_vault.
Proof. vm_compute. reflexivity. Qed.

(** C9 as worded fails: the run removes the trailing newlines of the file
    before it adds the separator, so the old content is not a prefix of
    the new one. *)
Lemma old_content_is_not_a_prefix : ¬ append_only_as_worded.
Proof.
  intros H.
  destruct (H [bar_monday] bare_vault week2_file (lit "## A" ++ [nl; nl; nl]))
    as (new & Hnew & [k Hk]).
  - apply lookup_singleton_eq.
  - vm_compute in Hnew. injection Hnew as <-. vm_compute in Hk.
    discriminate Hk.
Qed.

(** ** Running the publish step twice *)

Section RerunFacts.

Import SharePipeline.

Variable isocalendar : str → option (N * N).

(** A clean heading of a text is a heading of the stripped text. *)
Lemma findall_headings_rstrip_elem_lines (t : str) (ls : list str) :
  clean t → ls ≠ [] → Forall (λ l, nl ∉ l) ls →
  t ∈ omap heading_of_line ls →
  t ∈ findall_headings (rstrip (join [nl] ls)).
Proof.
  intros Ht. induction ls as [|l ls IH]; [done|]. intros _ Hnl Hin.
  apply Forall_cons in Hnl as [Hl Hls].
  rewrite omap_cons_list in Hin. apply elem_of_app in Hin as [Hin|Hin].
  - assert (heading_of_line l = Some t) as Hh.
    { destruct (heading_of_line l); [|by apply elem_of_nil in Hin].
      apply list_elem_of_singleton in Hin. by subst. }
    assert (rstrip l = l) as Hrl.
    { apply heading_of_line_some in Hh as [-> Hne].
      rewrite rstrip_app, Ht. by destruct t. }
    destruct ls as [|l' ls].
    + simpl join. rewrite Hrl, (findall_headings_line _ Hl), Hh.
      apply elem_of_cons. by left.
    + rewrite join_cons_char by done. rewrite rstrip_app, rstrip_cons_nl.
      destruct (rstrip (join [nl] (l' :: ls))).
      * rewrite Hrl, (findall_headings_line _ Hl), Hh. apply elem_of_cons. by left.
      * rewrite findall_headings_app, (findall_headings_line _ Hl), Hh.
        apply elem_of_cons. by left.
  - destruct ls as [|l' ls]; [by apply elem_of_nil in Hin|].
    specialize (IH ltac:(done) Hls Hin).
    rewrite join_cons_char by done. rewrite rstrip_app, rstrip_cons_nl.
    destruct (rstrip (join [nl] (l' :: ls))); [by apply elem_of_nil in IH|].
    rewrite findall_headings_app. apply elem_of_app. by right.
Qed.

Lemma findall_headings_rstrip_elem (t s : str) :
  clean t → t ∈ findall_headings s → t ∈ findall_headings (rstrip s).
Proof.
  intros Ht Hin. rewrite <- (join_split_char nl s).
  apply findall_headings_rstrip_elem_lines;
    [done|apply split_char_not_nil|apply split_char_parts|done].
Qed.

(** After a run every title of the run is a heading of the file of its
    week as it is read, when the entries are read back as written. *)
Lemma titles_are_headings (run : list RefinedEntry.t) (v : gmap str str)
    (l : str) (e : RefinedEntry.t) :
  Forall reads_back run →
  is_Some (group_by_week isocalendar run []) →
  e ∈ bucket isocalendar l run →
  RefinedEntry.title e
  ∈ findall_headings
      (read_existing (vault_after isocalendar run v) (bucket_file l)).
Proof.
  intros Hrb [groups Hg] He. unfold read_existing at 1.
  rewrite merge_run_file, Hg. unfold file_after.
  set (old := read_existing v (bucket_file l)).
  assert (cr ∉ old) as Hcr by apply read_existing_no_cr.
  assert (wf_title (RefinedEntry.title e)) as Hwe.
  { rewrite Forall_forall in Hrb. apply Hrb.
    by apply elem_of_list_filter_1 in He as [? _]. }
  assert (Forall reads_back
            (new_entries_of old (bucket isocalendar l run))) as Hrn.
  { by apply Forall_list_filter, Forall_list_filter. }
  assert (Forall (λ e, wf_title (RefinedEntry.title e))
            (new_entries_of old (bucket isocalendar l run))) as Hwn.
  { eapply Forall_impl; [exact Hrn|]. by intros x [? _]. }
  destruct (decide (RefinedEntry.title e ∈ findall_headings old)) as [Hin|Hnot].
  - destruct (new_entries_of old (bucket isocalendar l run)) as [|n ns] eqn:E.
    + fold (read_existing v (bucket_file l)). done.
    + rewrite <- E in *. rewrite read_new_content by done.
      rewrite findall_headings_new_content by done.
      apply elem_of_app. left. apply findall_headings_rstrip_elem; [|done].
      by destruct Hwe as (_ & _ & _ & ?).
  - assert (e ∈ new_entries_of old (bucket isocalendar l run)) as Hnew.
    { apply list_elem_of_In, filter_In. split; [by apply list_elem_of_In|].
      apply negb_true_iff, bool_decide_eq_false. done. }
    destruct (new_entries_of old (bucket isocalendar l run)) as [|n ns] eqn:E;
      [by apply elem_of_nil in Hnew|].
    rewrite <- E in *. rewrite read_new_content by done.
    rewrite findall_headings_new_content by done.
    apply elem_of_app. right. apply list_elem_of_In, in_concat.
    exists (RefinedEntry.title e :: findall_headings (RefinedEntry.content e)).
    split; [|by left]. apply in_map_iff. exists e. split; [done|].
    by apply list_elem_of_In.
Qed.

(** A loop over groups that have nothing new writes nothing. *)
Lemma merge_fold_nothing_new (groups : list (str * list RefinedEntry.t)) :
  ∀ st,
    Forall (λ g, new_entries_of (read_existing (vault st) (bucket_file g.1)) g.2
                 = []) groups →
    vault (foldl merge_group st groups) = vault st
    ∧ written_paths (foldl merge_group st groups) = written_paths st.
Proof.
  induction groups as [|[l es] groups IH]; intros st Hall; [done|].
  apply Forall_cons in Hall as [Hg Hall]. cbn [fst snd] in Hg. foldl_step.
  assert (vault (merge_group st (l, es)) = vault st
          ∧ written_paths (merge_group st (l, es)) = written_paths st)
    as [Hv Hw].
  { unfold merge_group. by rewrite Hg. }
  destruct (IH (merge_group st (l, es))) as [IHv IHw].
  { by rewrite Hv. }
  split; congruence.
Qed.

(** The merge part of C2, where it holds: a second run with the same
    entries writes nothing, when the titles are not empty, on one line
    and without trailing whitespace, and neither titles nor contents have
    a carriage return. *)
Lemma merge_rerun_writes_nothing (run : list RefinedEntry.t) (v : gmap str str) :
  Forall reads_back run →
  dated isocalendar run →
  let v1 := vault_after isocalendar run v in
  (merge_to_shared_posts isocalendar run v1).1 = Ok []
  ∧ vault_after isocalendar run v1 = v1.
Proof.
  intros Hwf Hd v1.
  destruct (group_by_week_some isocalendar run [] Hd) as [groups Hg].
  unfold vault_after at 1. unfold merge_to_shared_posts. rewrite Hg. simpl.
  destruct (merge_fold_nothing_new groups (mk_merge v1 [] [])) as [Hv Hw].
  - apply Forall_forall. intros [l es] Hin. cbn [fst snd vault].
    apply group_by_week_spec in Hg as Hspec. destruct Hspec as [Hnd Hmap].
    apply (elem_of_list_to_map (M := gmap str)) in Hin; [|done].
    rewrite Hmap in Hin.
    assert (es = bucket isocalendar l run) as ->.
    { destruct (bucket isocalendar l run); [done|]. by injection Hin. }
    unfold new_entries_of.
    apply list_filter_nil_local. intros e He.
    apply negb_false_iff, bool_decide_eq_true.
    apply titles_are_headings; [done|by eexists|done].
  - by rewrite Hv, Hw.
Qed.

End RerunFacts.

(** ** [save_to_content_vault] run twice *)

Section SaveFacts.

Import ShareToSocial.

Variable manual_dir : path.

Lemma store_post_keeps (st : save_state) (post : SocialPost.t) (k : path) :
  is_Some (files st !! k) →
  is_Some (files (store_post manual_dir st post) !! k).
Proof.
  intros H. unfold store_post. case_bool_decide; simpl; [done|].
  destruct (decide (file_path_of manual_dir post = k)) as [->|Hne].
  - rewrite lookup_insert_eq. by eexists.
  - by rewrite lookup_insert_ne.
Qed.

Lemma store_post_own (st : save_state) (post : SocialPost.t) :
  is_Some (files (store_post manual_dir st post)
           !! file_path_of manual_dir post).
Proof.
  unfold store_post. case_bool_decide as H; simpl; [done|].
  rewrite lookup_insert_eq. by eexists.
Qed.

Lemma save_fold_keeps (posts : list SocialPost.t) :
  ∀ (st : save_state) (k : path),
    is_Some (files st !! k) →
    is_Some (files (foldl (store_post manual_dir) st posts) !! k).
Proof.
  induction posts as [|p posts IH]; intros st k H; [done|].
  foldl_step. by apply IH, store_post_keeps.
Qed.

(** After the loop the file of every post is there. *)
Lemma save_fold_all_there (posts : list SocialPost.t) :
  ∀ (st : save_state) (p : SocialPost.t),
    p ∈ posts →
    is_Some (files (foldl (store_post manual_dir) st posts)
             !! file_path_of manual_dir p).
Proof.
  induction posts as [|q posts IH]; intros st p Hp.
  - by apply elem_of_nil in Hp.
  - foldl_step. apply elem_of_cons in Hp as [->|Hp].
    + apply save_fold_keeps, store_post_own.
    + by apply IH.
Qed.

(** When the file of every post is there, the loop writes nothing. *)
Lemma save_fold_skips (posts : list SocialPost.t) :
  ∀ (st : save_state),
    (∀ p, p ∈ posts → is_Some (files st !! file_path_of manual_dir p)) →
    files (foldl (store_post manual_dir) st posts) = files st
    ∧ saved_paths (foldl (store_post manual_dir) st posts) = saved_paths st.
Proof.
  induction posts as [|q posts IH]; intros st H; [done|].
  foldl_step.
  assert (files (store_post manual_dir st q) = files st
          ∧ saved_paths (store_post manual_dir st q) = saved_paths st)
    as [Hf Hs].
  { unfold store_post. rewrite bool_decide_eq_true_2; [done|].
    apply H. apply elem_of_cons. by left. }
  destruct (IH (store_post manual_dir st q)) as [IHf IHs].
  { intros p Hp. rewrite Hf. apply H. apply elem_of_cons. by right. }
  split; congruence.
Qed.

Variable refuses : path → option fs_error.

(** The loop goes through the posts in front of the first one that
    raises, and it raises the exception of that one. *)
Lemma save_loop_reached (posts : list SocialPost.t) :
  ∀ st,
    (save_loop refuses manual_dir posts st).2
    = foldl (store_post manual_dir) st (reached refuses manual_dir posts)
    ∧ ((save_loop refuses manual_dir posts st).1 = Ok tt
       ∧ reached refuses manual_dir posts = posts
       ∨ ∃ post rest x,
           posts = reached refuses manual_dir posts ++ post :: rest
           ∧ refused refuses manual_dir post = Some x
           ∧ (save_loop refuses manual_dir posts st).1 = Raised (fs_exn x)).
Proof.
  induction posts as [|p posts IH]; intros st; cbn [save_loop reached].
  - split; [done|]. by left.
  - unfold save_post. destruct (refused refuses manual_dir p) as [x|] eqn:Hp.
    + split; [done|]. right. by exists p, posts, x.
    + destruct (IH (store_post manual_dir st p)) as [Hst Hres].
      split; [done|].
      destruct Hres as [[Hok Hall]|(post & rest & x & Heq & Hx & Hr)].
      * left. by rewrite Hall.
      * right. exists post, rest, x. split; [|done]. simpl. by f_equal.
Qed.

Lemma reached_accepted (posts : list SocialPost.t) :
  Forall (λ p, refused refuses manual_dir p = None)
    (reached refuses manual_dir posts).
Proof.
  induction posts as [|p posts IH]; cbn [reached]; [constructor|].
  destruct (refused refuses manual_dir p) eqn:Hp; [constructor|].
  by constructor.
Qed.

Lemma reached_elem (posts : list SocialPost.t) (p : SocialPost.t) :
  p ∈ reached refuses manual_dir posts → p ∈ posts.
Proof.
  induction posts as [|q posts IH]; cbn [reached]; [done|].
  destruct (refused refuses manual_dir q); [by intros H%elem_of_nil|].
  intros [->|H]%elem_of_cons; apply elem_of_cons; auto.
Qed.

(** The other part of C2: a second run of [save_to_content_vault] with
    the same posts writes nothing.  It returns the empty list when the
    first run returned, and it raises the exception of the first run when
    that one raised: it stops at the same post. *)
Lemma save_rerun_writes_nothing (posts : list SocialPost.t)
    (fs : gmap path str) :
  let r1 := save_to_content_vault refuses posts manual_dir fs in
  let r2 := save_to_content_vault refuses posts manual_dir (files r1.2) in
  files r2.2 = files r1.2
  ∧ saved_paths r2.2 = []
  ∧ r2.1 = match r1.1 with
           | Ok _ => Ok []
           | Raised e => Raised e
           end.
Proof.
  intros r1 r2. unfold r2, r1, save_to_content_vault.
  destruct (save_loop_reached posts (mk_save fs [] [])) as [Hst1 Hres1].
  destruct (save_loop refuses manual_dir posts (mk_save fs [] []))
    as [res1 st1].
  cbn [fst snd] in Hst1, Hres1.
  assert ((match res1 with
           | Ok _ => (Ok (saved_paths st1), st1)
           | Raised e => (Raised e, st1)
           end).2 = st1) as -> by by destruct res1.
  destruct (save_loop_reached posts (mk_save (files st1) [] []))
    as [Hst2 Hres2].
  destruct (save_loop refuses manual_dir posts (mk_save (files st1) [] []))
    as [res2 st2].
  cbn [fst snd] in Hst2, Hres2.
  destruct (save_fold_skips (reached refuses manual_dir posts)
              (mk_save (files st1) [] [])) as [Hf Hs].
  { intros p Hp. cbn [files]. rewrite Hst1. by apply save_fold_all_there. }
  rewrite <- Hst2 in Hf, Hs. cbn [files saved_paths] in Hf, Hs.
  assert (res2 = res1) as ->.
  { destruct Hres1 as [[-> Hall1]|(p1 & rest1 & x1 & Heq1 & Hx1 & ->)];
      destruct Hres2 as [[-> Hall2]|(p2 & rest2 & x2 & Heq2 & Hx2 & ->)];
      try done.
    - rewrite Hall1 in Heq2. apply (f_equal length) in Heq2.
      rewrite length_app in Heq2. simpl in Heq2. lia.
    - rewrite Hall2 in Heq1. apply (f_equal length) in Heq1.
      rewrite length_app in Heq1. simpl in Heq1. lia.
    - rewrite Heq1 in Heq2 at 1. apply app_inv_head in Heq2.
      injection Heq2 as <- _. congruence. }
  destruct res1 as [[]|e]; cbn [fst snd]; by rewrite ?Hs.
Qed.

End SaveFacts.

(** C2 at an entry whose title is empty.  The refined artifact
    [untitled_block] gives the entry [untitled_monday].  The first run
    writes the file of its week; the heading [## ] without text is not
    found by the pattern of the headings, so the second run with the same
    entry writes the entry again. *)
Theorem rerun_writes_again_for_empty_title :
  SharePipeline._parse_refined_entries (twitter_dir untitled_block)
    [entry_dated (lit "2024-01-08")] (lit "2024-02-01")
  = (Ok [untitled_monday], [])
  ∧ (let v1 := SharePipeline.vault_after Calendar.isocalendar
                 [untitled_monday] ∅ in
     v1 !! week2_file = Some (lit "## " ++ [nl; nl] ++ lit "x" ++ [nl])
     ∧ (SharePipeline.merge_to_shared_posts Calendar.isocalendar
          [untitled_monday] v1).1 = Ok [week2_file]
     ∧ SharePipeline.vault_after Calendar.isocalendar [untitled_monday] v1
       !! week2_file
       = Some (lit "## " ++ [nl; nl] ++ lit "x" ++ SharePipeline.separator
               ++ lit "## " ++ [nl; nl] ++ lit "x" ++ [nl])).
Proof. vm_compute. repeat split; reflexivity. Qed.

(** ** Safe file names *)

Section SafeFilename.

Import ShareToSocial.

Lemma lstrip_chars_head (chars s : str) (c : char) :
  head (lstrip_chars chars s) = Some c → c ∉ chars.
Proof.
  induction s as [|x s IH]; simpl; [done|].
  case_bool_decide as Hx; [done|]. simpl. by intros [= <-].
Qed.

Lemma lstrip_chars_elem (chars s : str) (c : char) :
  c ∈ lstrip_chars chars s → c ∈ s.
Proof.
  induction s as [|x s IH]; simpl; [done|].
  case_bool_decide as Hx; [|done]. intros Hin.
  apply elem_of_cons. right. by apply IH.
Qed.

Lemma rstrip_chars_prefix (chars s : str) : rstrip_chars chars s `prefix_of` s.
Proof.
  induction s as [|x s IH]; simpl; [done|].
  destruct (rstrip_chars chars s) as [|y r].
  - case_bool_decide as Hx; [apply prefix_nil|].
    by apply prefix_cons, prefix_nil.
  - by apply prefix_cons.
Qed.

Lemma rstrip_chars_last (chars s : str) (c : char) :
  last (rstrip_chars chars s) = Some c → c ∉ chars.
Proof.
  induction s as [|x s IH]; simpl; [done|].
  destruct (rstrip_chars chars s) as [|y r].
  - case_bool_decide as Hx; [done|]. simpl. by intros [= <-].
  - intros Hl. apply IH. by rewrite last_cons_cons in Hl.
Qed.

Lemma rstrip_chars_head (chars s : str) :
  rstrip_chars chars s ≠ [] → head (rstrip_chars chars s) = head s.
Proof.
  destruct s as [|x s]; simpl; [done|].
  destruct (rstrip_chars chars s); [|done]. by case_bool_decide as Hx.
Qed.

Lemma strip_chars_elem (chars s : str) (c : char) :
  c ∈ strip_chars chars s → c ∈ s.
Proof.
  unfold strip_chars. intros H. apply (lstrip_chars_elem chars).
  destruct (rstrip_chars_prefix chars (lstrip_chars chars s)) as [k Hk].
  rewrite Hk. apply elem_of_app. by left.
Qed.

Lemma strip_chars_head (chars s : str) (c : char) :
  head (strip_chars chars s) = Some c → c ∉ chars.
Proof.
  unfold strip_chars. intros H. apply (lstrip_chars_head chars s).
  rewrite <- (rstrip_chars_head chars); [done|]. intros Hn. by rewrite Hn in H.
Qed.

Lemma sanitize_elem (title : str) (c : char) :
  c ∈ sanitize title → c ∉ forbidden.
Proof.
  unfold sanitize. intros H.
  apply list_elem_of_In, in_map_iff in H as (x & Hx & _).
  case_bool_decide as Hc; subst; [by_evaluation|done].
Qed.

Lemma not_dot_space (c : char) : c ∉ [dot; space] ↔ c ≠ dot ∧ c ≠ space.
Proof.
  rewrite !not_elem_of_cons. split; [by intros (? & ? & _)|].
  intros [? ?]. split; [done|]. split; [done|]. apply not_elem_of_nil.
Qed.

(** The slug has no forbidden code point, and so no slash. *)
Lemma safe_filename_elem (title : str) (c : char) :
  c ∈ _safe_filename title → c ∉ forbidden.
Proof.
  unfold _safe_filename.
  destruct (strip_chars [dot; space] (sanitize title)) as [|x r] eqn:E.
  - assert (Forall (λ c, c ∉ forbidden) (lit "untitled")) as Hu
      by by_evaluation.
    rewrite Forall_forall in Hu. apply Hu.
  - rewrite <- E. intros H. by apply strip_chars_elem, sanitize_elem in H.
Qed.

Lemma components_single (name : str) :
  slash ∉ name → name ≠ [] → name ≠ [dot] → components name = [name].
Proof.
  intros Hs Hn Hd. unfold components. rewrite split_char_nosep by done. simpl.
  unfold eqb_str. by rewrite !bool_decide_eq_false_2.
Qed.

Lemma startswith_slash (name : str) : slash ∉ name → startswith [slash] name = false.
Proof.
  destruct name as [|c name]; [done|]. intros [Hc _]%not_elem_of_cons.
  change (startswith [slash] (c :: name)) with ((slash =? c) && true).
  apply N.eqb_neq in Hc. by rewrite Hc.
Qed.

(** C10.  For every title, [_safe_filename] returns a string that is not
    empty, holds none of the nine forbidden characters, and neither starts
    nor ends with a dot or a space; it is [untitled] when nothing is left
    of the title.  So, for a [source_date] without a slash, as every date
    is, the path of the file of a post is its month directory with one
    more part, the file name, which holds no slash and is not [..]. *)
Theorem safe_filename_ok (title : str) :
  let slug := _safe_filename title in
  slug ≠ []
  ∧ (∀ c, c ∈ slug → c ∉ forbidden)
  ∧ (∀ c, head slug = Some c → c ≠ dot ∧ c ≠ space)
  ∧ (∀ c, last slug = Some c → c ≠ dot ∧ c ≠ space)
  ∧ (strip_chars [dot; space] (sanitize title) = [] → slug = lit "untitled")
  ∧ ∀ (manual_dir : path) (post : SocialPost.t),
      SocialPost.title post = title →
      slash ∉ SocialPost.source_date post →
      file_path_of manual_dir post
      = ((month_dir_of manual_dir post).1,
         (month_dir_of manual_dir post).2 ++ [file_name_of post])
      ∧ (slash ∉ file_name_of post)
      ∧ file_name_of post ≠ lit "..".
Proof.
  intros slug. split; [|split; [|split; [|split; [|split]]]].
  - unfold slug, _safe_filename.
    by destruct (strip_chars [dot; space] (sanitize title)).
  - apply safe_filename_elem.
  - unfold slug, _safe_filename. intros c.
    destruct (strip_chars [dot; space] (sanitize title)) as [|x r] eqn:E.
    + intros [= <-]. split; discriminate.
    + rewrite <- E. intros H. by apply strip_chars_head, not_dot_space in H.
  - unfold slug, _safe_filename. intros c.
    destruct (strip_chars [dot; space] (sanitize title)) as [|x r] eqn:E.
    + intros [= <-]. split; discriminate.
    + rewrite <- E. intros H. by apply rstrip_chars_last, not_dot_space in H.
  - unfold slug, _safe_filename. by intros ->.
  - intros manual_dir post Ht Hdate.
    assert (slash ∉ file_name_of post) as Hname.
    { unfold file_name_of. rewrite !not_elem_of_app. split; [done|].
      split; [by_evaluation|]. split; [|by_evaluation].
      intros Hin. apply safe_filename_elem in Hin. apply Hin. by_evaluation. }
    assert (∃ k, file_name_of post = k ++ lit ".md") as [k Hk].
    { unfold file_name_of. eexists. by rewrite !app_assoc. }
    split; [|split; [done|]].
    + unfold file_path_of, path_div. rewrite startswith_slash by done.
      rewrite components_single; [done|done| |].
      * rewrite Hk. by destruct k.
      * rewrite Hk. destruct k as [|? [|? ?]]; discriminate.
    + rewrite Hk. destruct k as [|? [|? [|? ?]]]; discriminate.
Qed.

End SafeFilename.

(** A title made of forbidden characters, dots and spaces. *)
Lemma safe_filename_ok_witness :
  ShareToSocial._safe_filename (lit " .a/b:c. ") = lit "a-b-c"
  ∧ ShareToSocial.file_path_of (false, [lit "manual"])
      (SocialPost.mk (lit " .a/b:c. ") [] [] [] [] (lit "2024-01-08"))
    = (false, [lit "manual"; lit "2024-01"; lit "2024-01-08-a-b-c.md"]).
Proof.
  split; [reflexivity|].
  destruct (safe_filename_ok (lit " .a/b:c. ")) as (_ & _ & _ & _ & _ & H).
  destruct (H (false, [lit "manual"])
              (SocialPost.mk (lit " .a/b:c. ") [] [] [] [] (lit "2024-01-08")))
    as [-> _].
  - reflexivity.
  - by_evaluation.
  - reflexivity.
Defined.

Example safe_filename_untitled :
  ShareToSocial._safe_filename (lit " .. ") = lit "untitled"
  ∧ ShareToSocial._safe_filename [] = lit "untitled".
Proof. split; reflexivity. Qed.

(** ** The titles that the parser returns *)

Section ParsedTitles.

Import SharePipeline.

Lemma lstrip_elem (c : char) (s : str) : c ∈ lstrip s → c ∈ s.
Proof.
  induction s as [|x s IH]; simpl; [done|].
  destruct (isspace x); [|done]. intros H. apply elem_of_cons. right. by apply IH.
Qed.

Lemma strip_elem (c : char) (s : str) : c ∈ strip s → c ∈ s.
Proof.
  unfold strip. intros H. apply lstrip_elem.
  destruct (rstrip_prefix (lstrip s)) as [k Hk]. rewrite Hk.
  apply elem_of_app. by left.
Qed.

Lemma strip_clean (s : str) : clean (strip s).
Proof. apply rstrip_idemp. Qed.

Lemma span_line_no_nl (s : str) : nl ∉ (span_line s).1.
Proof.
  induction s as [|c s IH]; simpl; [apply not_elem_of_nil|].
  destruct (c =? nl) eqn:E; [apply not_elem_of_nil|].
  destruct (span_line s) as [l rest]. simpl in *.
  apply not_elem_of_cons. split; [|done].
  apply N.eqb_neq in E. congruence.
Qed.

Lemma match_heading_no_nl (block g rest : str) :
  match_heading block = Some (g, rest) → nl ∉ g.
Proof.
  unfold match_heading. destruct (startswith heading_mark block); [|done].
  pose proof (span_line_no_nl (drop 3 block)) as H.
  destruct (span_line (drop 3 block)) as [g' rest']. simpl in H.
  destruct g'; [done|]. by intros [= <- <-].
Qed.

Lemma span_line_elem (c : char) (s : str) :
  c ∈ (span_line s).1 ∨ c ∈ (span_line s).2 → c ∈ s.
Proof.
  induction s as [|x s IH]; simpl.
  - intros [H|H]; by apply elem_of_nil in H.
  - destruct (x =? nl); simpl.
    + intros [H|H]; [by apply elem_of_nil in H|done].
    + destruct (span_line s) as [l rest]. simpl in *.
      intros [[->|H]%elem_of_cons|H]; apply elem_of_cons; auto.
Qed.

Lemma drop_elem (c : char) (n : nat) (s : str) : c ∈ drop n s → c ∈ s.
Proof.
  intros H. rewrite <- (take_drop n s). apply elem_of_app. by right.
Qed.

Lemma match_heading_elem (c : char) (block g rest : str) :
  match_heading block = Some (g, rest) → c ∈ g ∨ c ∈ rest → c ∈ block.
Proof.
  unfold match_heading. destruct (startswith heading_mark block); [|done].
  pose proof (span_line_elem c (drop 3 block)) as H.
  destruct (span_line (drop 3 block)) as [g' rest']. simpl in H.
  destruct g'; [done|]. intros [= <- <-] Hc. by apply (drop_elem c 3), H.
Qed.

(** The parts of a split are made of code points of the text. *)
Lemma split_sep_elem (mark : str) (c : char) (s : str) :
  ∀ bol skip b, b ∈ split_sep mark bol skip s → c ∈ b → c ∈ s.
Proof.
  induction s as [|x s IH]; intros bol skip b Hb Hc.
  - apply list_elem_of_singleton in Hb. by subst.
  - cbn [split_sep] in Hb. apply elem_of_cons. destruct skip as [|k].
    2:{ right. by apply (IH _ _ _ Hb). }
    assert (b ∈ match split_sep mark (x =? nl) 0 s with
                | p :: ps => (x :: p) :: ps
                | [] => [[x]]
                end → c = x ∨ c ∈ s) as Hcur.
    { destruct (split_sep mark (x =? nl) 0 s) as [|p ps] eqn:E.
      - intros ->%list_elem_of_singleton.
        apply list_elem_of_singleton in Hc. by left.
      - intros [->|Hin]%elem_of_cons.
        + apply elem_of_cons in Hc as [->|Hc]; [by left|]. right.
          apply (IH (x =? nl) 0%nat p); [|done]. rewrite E.
          apply elem_of_cons. by left.
        + right. apply (IH (x =? nl) 0%nat b); [|done]. rewrite E.
          apply elem_of_cons. by right. }
    destruct (if bol then sep_len mark (x :: s) else None) as [[|n]|];
      [by apply Hcur| |by apply Hcur].
    apply elem_of_cons in Hb as [->|Hb]; [by apply elem_of_nil in Hc|].
    right. by apply (IH _ _ _ Hb).
Qed.

Lemma refined_blocks_elem (c : char) (text block : str) :
  block ∈ refined_blocks text → c ∈ block → c ∈ text.
Proof.
  unfold refined_blocks. intros [Hb _]%elem_of_list_filter_1 Hc.
  apply list_elem_of_In, in_map_iff in Hb as (p & <- & Hp).
  apply strip_elem in Hc.
  apply (split_sep_elem (lit "===") c text true 0%nat p);
    [by apply list_elem_of_In|done].
Qed.

(** The title of a record is on one line and has no whitespace around it;
    its content has no whitespace around it either; both are made of code
    points of the block. *)
Lemma block_record_title (entries : list ShareEntry.t) (today : str)
    (i : nat) (block : str) (r : RefinedEntry.t) (l : list str) :
  block_record entries today i block = Some (r, l) →
  (nl ∉ RefinedEntry.title r)
  ∧ clean (RefinedEntry.title r)
  ∧ clean (RefinedEntry.content r)
  ∧ ∀ c, c ∈ RefinedEntry.title r ∨ c ∈ RefinedEntry.content r → c ∈ block.
Proof.
  unfold block_record.
  destruct (match_heading block) as [[g rest]|] eqn:Hm; [|done].
  pose proof (match_heading_no_nl _ _ _ Hm) as Hg.
  assert (nl ∉ strip g) as Hnl by (intros H; by apply strip_elem in H).
  assert (∀ c, c ∈ strip g ∨ c ∈ strip rest → c ∈ block) as Hsub.
  { intros c [H|H]; apply strip_elem in H;
      apply (match_heading_elem c block g rest Hm); auto. }
  destruct (match entries !! i with
            | Some e => ShareEntry.source_date e
            | None => []
            end); intros [= <- <-]; simpl;
    auto using strip_clean.
Qed.

End ParsedTitles.

(** A second run with the two entries of the first run. *)
Lemma merge_rerun_writes_nothing_witness :
  (SharePipeline.merge_to_shared_posts Calendar.isocalendar
     [foo_monday; bar_monday]
     (SharePipeline.vault_after Calendar.isocalendar
        [foo_monday; bar_monday] ∅)).1
  = Ok [].
Proof.
  destruct (merge_rerun_writes_nothing Calendar.isocalendar
              [foo_monday; bar_monday] ∅) as [H _].
  - repeat constructor; try by_evaluation; try reflexivity.
  - repeat constructor; vm_compute; eauto.
  - exact H.
Defined.

(** The scenario of the specification: the file of the week has the
    heading [Foo], and the run brings the title [Foo] again.  Nothing is
    written and the skip is printed. *)
Example existing_title_is_skipped :
  let v := SharePipeline.vault_after Calendar.isocalendar [foo_monday] ∅ in
  let res := SharePipeline.merge_to_shared_posts Calendar.isocalendar
               [foo_tuesday] v in
  res.1 = Ok []
  ∧ SharePipeline.vault res.2 !! week2_file = v !! week2_file
  ∧ SharePipeline.printed res.2
    = [ lit "  Skipping (already exists): Foo";
        lit "  No new entries for Week 2 - 2024" ].
Proof. vm_compute. repeat split; reflexivity. Qed.

(** ** The client, whatever the service answers *)

Section ClientFacts.

Import Remote.

Variable service : nat → outcome.

(** An outcome is retried, or ends the call with the empty text, or is an
    answer with status 200. *)
Lemma outcome_cases (o : outcome) :
  transient o = true ∨ fatal o = true
  ∨ ∃ data text, o = Response 200 data text.
Proof.
  destruct o as [status data text| |e]; simpl; auto.
  destruct (status =? 200) eqn:E.
  - apply N.eqb_eq in E as ->. right. right. eauto.
  - destruct (transient_status status); auto.
Qed.

(** The effects of the loop over the attempts that are left. *)
Lemma attempt_loop_effects (um : str) (attempts : list nat) :
  ∀ w, ∃ t,
    (attempt_loop service um attempts w).2
    = mk_world (sent w + posts t) (trace w ++ t)
    ∧ (posts t ≤ length attempts)%nat
    ∧ (attempts ≠ [] → 1 ≤ posts t)%nat
    ∧ sleeps t `prefix_of` List.map retry_delay attempts
    ∧ (length (sleeps t) ≤ posts t)%nat.
Proof.
  induction attempts as [|a attempts IH]; intros w.
  - exists [EPrint (lit "    API failed after all retries")]. simpl.
    split; [by rewrite Nat.add_0_r|]. split; [done|]. split; [done|].
    split; [apply prefix_nil|done].
  - assert (∀ line,
              ∃ t, (attempt_loop service um attempts
                      (sleep (retry_delay a)
                         (print line
                            (mk_world (S (sent w)) (trace w ++ [EPost um]))))).2
                   = mk_world (sent w + posts t) (trace w ++ t)
                   ∧ (posts t ≤ length (a :: attempts))%nat
                   ∧ (a :: attempts ≠ [] → 1 ≤ posts t)%nat
                   ∧ sleeps t `prefix_of` List.map retry_delay (a :: attempts)
                   ∧ (length (sleeps t) ≤ posts t)%nat) as Hretry.
    { intros line.
      destruct (IH (sleep (retry_delay a)
                      (print line
                         (mk_world (S (sent w)) (trace w ++ [EPost um])))))
        as (t & Ht & Hle & _ & Hpre & Hlen).
      exists ([EPost um; EPrint line; ESleep (retry_delay a)] ++ t).
      rewrite Ht. simpl sent. simpl trace.
      rewrite posts_app, sleeps_app. simpl posts. simpl sleeps.
      rewrite <- !app_assoc. simpl.
      split; [f_equal; lia|]. split; [lia|]. split; [lia|].
      split; [by apply prefix_cons|lia]. }
    assert (∀ tail,
              posts tail = 0%nat → sleeps tail = [] →
              ∃ t, mk_world (S (sent w)) ((trace w ++ [EPost um]) ++ tail)
                   = mk_world (sent w + posts t) (trace w ++ t)
                   ∧ (posts t ≤ length (a :: attempts))%nat
                   ∧ (a :: attempts ≠ [] → 1 ≤ posts t)%nat
                   ∧ sleeps t `prefix_of` List.map retry_delay (a :: attempts)
                   ∧ (length (sleeps t) ≤ posts t)%nat) as Hstop.
    { intros tail Hp Hs. exists (EPost um :: tail).
      change (EPost um :: tail) with ([EPost um] ++ tail).
      rewrite posts_app, sleeps_app, Hp, Hs, <- app_assoc. simpl.
      split; [f_equal; lia|]. split; [lia|]. split; [lia|].
      split; [apply prefix_nil|lia]. }
    cbn [attempt_loop]. unfold post.
    destruct (service (sent w)) as [status data text| |e].
    + destruct (status =? 200).
      * destruct (Hstop []) as (t & Ht & ?); [done|done|].
        exists t. by rewrite app_nil_r in Ht.
      * destruct (transient_status status); [apply Hretry|].
        by apply (Hstop [EPrint _]).
    + apply Hretry.
    + by apply (Hstop [EPrint _]).
Qed.

Lemma sleeps_sum_bound (s : list N) :
  s `prefix_of` [2; 4; 8] → foldr N.add 0 s ≤ 14.
Proof.
  intros [k Hk].
  destruct s as [|a s]; [by vm_compute|]. injection Hk as <- Hk.
  destruct s as [|b s]; [by vm_compute|]. injection Hk as <- Hk.
  destruct s as [|c s]; [by vm_compute|]. injection Hk as <- Hk.
  destruct s; [by vm_compute|discriminate Hk].
Qed.

End ClientFacts.

(** Whatever the service answers, a call sends at least one request and at
    most [MAX_RETRIES]; it sleeps only after a request, for 2, then 4,
    then 8 seconds, so for 14 seconds at most; and [_call_claude] of the
    share scripts does what [_call_claude_api] does and returns its
    text. *)
Theorem call_is_bounded (service : nat → Remote.outcome) (um : str)
    (w : Remote.world) :
  ∃ t,
    (Remote._call_claude_api service um w).2
    = Remote.mk_world (Remote.sent w + Remote.posts t) (Remote.trace w ++ t)
    ∧ (1 ≤ Remote.posts t ≤ Config.MAX_RETRIES)%nat
    ∧ Remote.sleeps t `prefix_of` [2; 4; 8]
    ∧ (length (Remote.sleeps t) ≤ Remote.posts t)%nat
    ∧ foldr N.add 0 (Remote.sleeps t) ≤ 14
    ∧ Remote._call_claude service um w
      = ((Remote._call_claude_api service um w).1.1,
         (Remote._call_claude_api service um w).2).
Proof.
  destruct (attempt_loop_effects service um (seq 0 Config.MAX_RETRIES) w)
    as (t & Ht & Hle & Hge & Hpre & Hlen).
  exists t. split; [exact Ht|]. split; [split; [by apply Hge|exact Hle]|].
  split; [exact Hpre|]. split; [exact Hlen|]. split.
  - by apply sleeps_sum_bound.
  - unfold Remote._call_claude, Remote._call_claude_api.
    by destruct (Remote.attempt_loop service um (seq 0 Config.MAX_RETRIES) w)
      as [[text flag] w'].
Qed.

(** The result of a call is decided by the first outcome that is not
    retried, among the first [MAX_RETRIES] outcomes: an answer with status
    200 gives its text and its truncation flag; any other one, or none,
    gives the empty text. *)
Theorem call_result (service : nat → Remote.outcome) (um : str)
    (w : Remote.world) :
  let r := (Remote._call_claude_api service um w).1 in
  (∃ k data text,
      (k < Config.MAX_RETRIES)%nat
      ∧ (∀ j, (j < k)%nat →
              Remote.transient (service (Remote.sent w + j)%nat) = true)
      ∧ service (Remote.sent w + k)%nat = Remote.Response 200 data text
      ∧ r = (Remote.response_text data,
             bool_decide (Remote.stop_reason data = Some (lit "max_tokens"))))
  ∨ (r = ([], false)
     ∧ ((∃ k, (k < Config.MAX_RETRIES)%nat
              ∧ (∀ j, (j < k)%nat →
                      Remote.transient (service (Remote.sent w + j)%nat) = true)
              ∧ Remote.fatal (service (Remote.sent w + k)%nat) = true)
        ∨ ∀ k, (k < Config.MAX_RETRIES)%nat →
               Remote.transient (service (Remote.sent w + k)%nat) = true)).
Proof.
  intros r.
  assert (∀ n, (n ≤ Config.MAX_RETRIES)%nat →
               (∀ j, (j < n)%nat →
                     Remote.transient (service (Remote.sent w + j)%nat) = true)
               ∨ ∃ k, (k < n)%nat
                      ∧ (∀ j, (j < k)%nat →
                              Remote.transient
                                (service (Remote.sent w + j)%nat) = true)
                      ∧ Remote.transient (service (Remote.sent w + k)%nat)
                        = false) as Hfirst.
  { induction n as [|n IH]; intros Hn; [left; intros j Hj; lia|].
    destruct IH as [Hall|(k & Hk & Hpre & Hno)]; [lia| |].
    - destruct (Remote.transient (service (Remote.sent w + n)%nat)) eqn:E.
      + left. intros j Hj. destruct (decide (j = n)) as [->|]; [done|].
        apply Hall. lia.
      + right. exists n. split; [lia|]. split; [done|done].
    - right. exists k. split; [lia|]. done. }
  destruct (Hfirst Config.MAX_RETRIES) as [Hall|(k & Hk & Hpre & Hno)]; [done| |].
  - right. split; [|by right]. apply call_api_empty. by right.
  - destruct (outcome_cases (service (Remote.sent w + k)%nat))
      as [Ht|[Hf|(data & text & H200)]]; [congruence| |].
    + right. split; [apply call_api_empty|]; left; exists k; done.
    + left. exists k, data, text. split; [done|]. split; [done|].
      split; [done|].
      destruct (call_api_200 service um w k data text Hk Hpre H200)
        as (t & Ht). unfold r. by rewrite Ht.
Qed.

(** ** [refine_all]: requests, counters and files *)

Section RefineRun.

Import Remote Refine.

Variable service : nat → outcome.
Variables force dry_run : bool.

(** What one date does: it is skipped, without a request and without a
    write; or it is called, with one to [MAX_RETRIES] requests, and then
    it fails without a write or it succeeds and its file is written. *)
Lemma refine_one_cases (st : state) (date : str) (entries : list (str * str)) :
  let st' := refine_one service force dry_run st (date, entries) in
  (sent (st_world st') = sent (st_world st)
   ∧ st_out st' = st_out st
   ∧ success st' = success st
   ∧ skipped st' = S (skipped st)
   ∧ failed st' = failed st
   ∧ (dry_run = true
      ∨ is_Some (st_out st !! output_name date) ∧ force = false))
  ∨ (dry_run = false
     ∧ (st_out st !! output_name date = None ∨ force = true)
     ∧ skipped st' = skipped st
     ∧ (∃ n, sent (st_world st') = (sent (st_world st) + n)%nat
             ∧ (1 ≤ n ≤ Config.MAX_RETRIES)%nat)
     ∧ ((st_out st' = st_out st
         ∧ success st' = success st
         ∧ failed st' = S (failed st))
        ∨ (∃ refined,
              refined ≠ []
              ∧ st_out st'
                = <[output_name date
                    := output_md date (length entries) refined]> (st_out st)
              ∧ success st' = S (success st)
              ∧ failed st' = failed st))).
Proof.
  intros st'. unfold st', refine_one.
  destruct (bool_decide (is_Some (st_out st !! output_name date))) eqn:Hex;
    destruct force eqn:Hforce; simpl andb; cbv iota.
  2:{ left. apply bool_decide_eq_true in Hex.
      cbn [st_world st_out success skipped failed sent print emit with_world].
      auto 10. }
  all: destruct dry_run eqn:Hdry;
         [left;
          cbn [st_world st_out success skipped failed sent print emit with_world];
          auto 10|right].
  all: split; [done|].
  all: split; [first [by right | apply bool_decide_eq_false in Hex;
                                 left; by apply eq_None_not_Some]|].
  all: destruct (attempt_loop_effects service
                   (_build_user_message date entries)
                   (seq 0 Config.MAX_RETRIES)
                   (st_world (with_world (print (refining_line date entries)) st)))
         as (t & Ht & Hle & Hge & _).
  all: unfold _call_claude_api.
  all: destruct (attempt_loop service (_build_user_message date entries)
                   (seq 0 Config.MAX_RETRIES)
                   (st_world (with_world (print (refining_line date entries)) st)))
         as [[refined truncated] w'].
  all: cbn [snd st_world with_world sent trace print emit] in Ht; subst w'.
  all: assert (1 ≤ posts t ≤ Config.MAX_RETRIES)%nat as Hn
         by (split; [by apply Hge|exact Hle]).
  all: destruct refined as [|c refined];
         [cbn [st_world st_out success skipped failed sent print emit];
          split; [done|]; split; [by exists (posts t)|]; by left|].
  all: destruct truncated;
         cbn [st_world st_out success skipped failed sent print emit];
         (split; [done|]); (split; [by exists (posts t)|]); right;
         [exists (c :: refined ++ truncated_marker)|exists (c :: refined)];
         done.
Qed.

(** The loop over the dates: [s] dates succeed, [k] are skipped, [f] fail,
    and [n] requests are sent. *)
Lemma refine_loop_effects (groups : list (str * list (str * str))) :
  ∀ st, ∃ s k f n,
    let st' := foldl (refine_one service force dry_run) st groups in
    success st' = (success st + s)%nat
    ∧ skipped st' = (skipped st + k)%nat
    ∧ failed st' = (failed st + f)%nat
    ∧ (s + k + f = length groups)%nat
    ∧ sent (st_world st') = (sent (st_world st) + n)%nat
    ∧ (s + f ≤ n ≤ Config.MAX_RETRIES * (s + f))%nat
    ∧ (dry_run = true → (s = 0 ∧ f = 0)%nat ∧ st_out st' = st_out st)
    ∧ (∀ name, is_Some (st_out st !! name) → is_Some (st_out st' !! name))
    ∧ (force = false → st_out st ⊆ st_out st')
    ∧ (∀ name c,
          st_out st' !! name = Some c →
          st_out st !! name = Some c
          ∨ ∃ date entries refined,
              (date, entries) ∈ groups
              ∧ name = output_name date
              ∧ refined ≠ []
              ∧ c = output_md date (length entries) refined
              ∧ dry_run = false
              ∧ (force = true ∨ st_out st !! name = None))
    ∧ (∀ date entries,
          (date, entries) ∈ groups →
          is_Some (st_out st' !! output_name date) ∨ (0 < f)%nat
          ∨ dry_run = true).
Proof.
  induction groups as [|[date entries] groups IH]; intros st.
  - exists 0%nat, 0%nat, 0%nat, 0%nat. simpl.
    rewrite !Nat.add_0_r. repeat split; auto; try lia.
    intros d e H. by apply elem_of_nil in H.
  - foldl_step.
    destruct (IH (refine_one service force dry_run st (date, entries)))
      as (s & k & f & n & Hs & Hk & Hf & Hlen & Hn & Hbound & Hdry & Hkeep
          & Hsub & Hnew & Hall).
    cbv zeta in *.
    set (st1 := refine_one service force dry_run st (date, entries)) in *.
    set (st' := foldl (refine_one service force dry_run) st1 groups) in *.
    assert (∀ d e, (d, e) ∈ (date, entries) :: groups →
                   (d, e) = (date, entries) ∨ (d, e) ∈ groups) as Hcons.
    { intros d e H. by apply elem_of_cons in H. }
    destruct (refine_one_cases st date entries)
      as [(H1 & H2 & H3 & H4 & H5 & Hwhy)
         |(Hd & Hwhy & H4 & (m & Hm & Hmb) & [(H2 & H3 & H5)
                                             |(refined & Hne & H2 & H3 & H5)])];
      fold st1 in H1 || fold st1 in Hm; fold st1 in H2, H3, H4, H5.
    + (* skipped *)
      exists s, (S k), f, n. rewrite Hs, Hk, Hf, Hn, H1, H3, H4, H5.
      rewrite H2 in Hdry, Hkeep, Hsub, Hnew.
      split; [done|]. split; [lia|]. split; [done|]. split; [simpl; lia|].
      split; [done|]. split; [done|]. split; [done|]. split; [done|].
      split; [done|]. split.
      * intros name c Hc. destruct (Hnew name c Hc) as [?|(d & e & r & Hin & ?)];
          [by left|]. right. exists d, e, r. split; [|done].
        apply elem_of_cons. by right.
      * intros d e [[= -> ->]|Hin]%Hcons; [|by apply (Hall d e)].
        destruct Hwhy as [?|[Hex _]]; [auto|]. left. by apply Hkeep.
    + (* failed *)
      exists s, k, (S f), (m + n)%nat. rewrite Hs, Hk, Hf, Hn, Hm, H3, H4, H5.
      rewrite H2 in Hdry, Hkeep, Hsub, Hnew.
      split; [done|]. split; [done|]. split; [lia|]. split; [simpl; lia|].
      split; [lia|]. split; [unfold Config.MAX_RETRIES in *; lia|].
      split; [intros; congruence|]. split; [done|]. split; [done|]. split.
      * intros name c Hc. destruct (Hnew name c Hc) as [?|(d & e & r & Hin & ?)];
          [by left|]. right. exists d, e, r. split; [|done].
        apply elem_of_cons. by right.
      * intros d e _. right. left. lia.
    + (* written *)
      exists (S s), k, f, (m + n)%nat. rewrite Hs, Hk, Hf, Hn, Hm, H3, H4, H5.
      split; [lia|]. split; [done|]. split; [done|]. split; [simpl; lia|].
      split; [lia|]. split; [unfold Config.MAX_RETRIES in *; lia|].
      split; [intros; congruence|]. split; [|split; [|split]].
      * intros name Hname. apply Hkeep. rewrite H2.
        destruct (decide (output_name date = name)) as [<-|Hneq].
        -- rewrite lookup_insert_eq. by eexists.
        -- by rewrite lookup_insert_ne.
      * intros Hforce. specialize (Hsub Hforce).
        etrans; [|exact Hsub]. rewrite H2. apply insert_subseteq.
        destruct Hwhy as [?|?]; [done|congruence].
      * intros name c Hc.
        destruct (Hnew name c Hc) as [Hold|(d & e & r & Hin & Hname & Hr & Hcr
                                             & Hdd & Hfo)].
        -- rewrite H2 in Hold.
           destruct (decide (output_name date = name)) as [<-|Hneq].
           ++ rewrite lookup_insert_eq in Hold. injection Hold as <-.
              right. exists date, entries, refined.
              split; [apply elem_of_cons; by left|].
              repeat (split; [done|]). destruct Hwhy; auto.
           ++ rewrite lookup_insert_ne in Hold by done. by left.
        -- right. exists d, e, r. split; [apply elem_of_cons; by right|].
           repeat (split; [done|]). destruct Hfo as [?|Hnone]; [by left|].
           rewrite H2 in Hnone.
           destruct (decide (output_name date = name)) as [<-|Hneq].
           ++ by rewrite lookup_insert_eq in Hnone.
           ++ rewrite lookup_insert_ne in Hnone by done. by right.
      * intros d e [[= -> ->]|Hin]%Hcons; [|by apply (Hall d e)].
        left. apply Hkeep. rewrite H2, lookup_insert_eq. by eexists.
Qed.

End RefineRun.

(** A dry run of [refine_all] needs no key, sends no request and writes no
    file; every date is counted as skipped. *)
Theorem refine_dry_run_is_inert (service : nat → Remote.outcome)
    (force : bool) (groups : list (str * list (str * str)))
    (api_key : str) (w : Remote.world) (out : gmap str str) :
  let r := Refine.refine_all service force true groups api_key w out in
  r.1 = Ok (0, length groups, 0)%nat
  ∧ Refine.st_out r.2 = out
  ∧ Remote.sent (Refine.st_world r.2) = Remote.sent w.
Proof.
  unfold Refine.refine_all. destruct groups as [|g groups]; [done|].
  destruct (refine_loop_effects service force true (g :: groups)
              (Refine.mk_state w out 0 0 0))
    as (s & k & f & n & Hs & Hk & Hf & Hlen & Hn & Hb & Hdry & _).
  cbv zeta in *. destruct (Hdry eq_refl) as [[-> ->] Hout].
  cbn [fst snd]. rewrite Hs, Hk, Hf, Hn, Hout. cbn [Refine.st_world Refine.st_out
    Refine.success Refine.skipped Refine.failed Remote.sent] in *.
  assert (n = 0%nat) as -> by lia.
  split; [|split; [done|lia]].
  replace (0 + k)%nat with (length (g :: groups)) by lia. done.
Qed.

(** [refine_all] sends at least one request and at most [MAX_RETRIES]
    requests for every date that it counts as refined or as failed, and no
    request for a date that it skips; without a key it raises
    [SystemExit] before the first request. *)
Theorem refine_all_request_budget (service : nat → Remote.outcome)
    (force dry_run : bool) (groups : list (str * list (str * str)))
    (api_key : str) (w : Remote.world) (out : gmap str str) :
  let r := Refine.refine_all service force dry_run groups api_key w out in
  let called := (Refine.success r.2 + Refine.failed r.2)%nat in
  (Remote.sent w + called ≤ Remote.sent (Refine.st_world r.2)
   ≤ Remote.sent w + Config.MAX_RETRIES * called)%nat
  ∧ (∀ e, r.1 = Raised e →
          e = SystemExit Config.api_key_missing
          ∧ api_key = [] ∧ dry_run = false
          ∧ r.2 = Refine.mk_state w out 0 0 0).
Proof.
  unfold Refine.refine_all. destruct groups as [|g groups].
  { cbn. split; [lia|done]. }
  destruct (if dry_run then Ok [] else Refine.get_api_key api_key)
    as [key|e] eqn:Hkey.
  - destruct (refine_loop_effects service force dry_run (g :: groups)
                (Refine.mk_state w out 0 0 0))
      as (s & k & f & n & Hs & Hk & Hf & Hlen & Hn & Hb & _).
    cbv zeta in *. cbn [fst snd]. rewrite Hs, Hf, Hn.
    cbn [Refine.st_world Refine.success Refine.failed Remote.sent].
    split; [unfold Config.MAX_RETRIES in *; lia|done].
  - cbn. split; [lia|]. intros e' [= <-].
    destruct dry_run; [done|]. destruct api_key; [|done].
    by injection Hkey as <-.
Qed.

(** The files of the output directory after [refine_all]: no file is
    removed; without [--force] no file is changed; and a file that is new
    or changed is the note of a date of the run, with its front matter and
    a text that is not empty, written on a run that is not dry. *)
Theorem refine_all_outputs (service : nat → Remote.outcome)
    (force dry_run : bool) (groups : list (str * list (str * str)))
    (api_key : str) (w : Remote.world) (out : gmap str str) :
  let out' :=
    Refine.st_out
      (Refine.refine_all service force dry_run groups api_key w out).2 in
  (∀ name, is_Some (out !! name) → is_Some (out' !! name))
  ∧ (force = false → out ⊆ out')
  ∧ (∀ name c,
        out' !! name = Some c →
        out !! name = Some c
        ∨ ∃ date entries refined,
            (date, entries) ∈ groups
            ∧ name = Refine.output_name date
            ∧ refined ≠ []
            ∧ c = Refine.output_md date (length entries) refined
            ∧ dry_run = false
            ∧ (force = true ∨ out !! name = None)).
Proof.
  unfold Refine.refine_all. destruct groups as [|g groups].
  { cbn. split; [done|]. split; [done|]. intros name c H. by left. }
  destruct (if dry_run then Ok [] else Refine.get_api_key api_key)
    as [key|e].
  - destruct (refine_loop_effects service force dry_run (g :: groups)
                (Refine.mk_state w out 0 0 0))
      as (s & k & f & n & _ & _ & _ & _ & _ & _ & _ & Hkeep & Hsub & Hnew & _).
    cbv zeta in *. cbn [fst snd Refine.st_out] in *. done.
  - cbn. split; [done|]. split; [done|]. intros name c H. by left.
Qed.

(** A run without [--force] that counts no date as failed leaves a file
    for every date, so a second run on its files skips every date: it
    sends no request and leaves the files as they are. *)
Theorem refine_rerun_skips_all (service service' : nat → Remote.outcome)
    (groups : list (str * list (str * str))) (api_key : str)
    (w w' : Remote.world) (out : gmap str str) :
  api_key ≠ [] →
  let st1 := (Refine.refine_all service false false groups api_key w out).2 in
  Refine.failed st1 = 0%nat →
  let r := Refine.refine_all service' false false groups api_key w'
             (Refine.st_out st1) in
  r.1 = Ok (0, length groups, 0)%nat
  ∧ Refine.st_out r.2 = Refine.st_out st1
  ∧ Remote.sent (Refine.st_world r.2) = Remote.sent w'.
Proof.
  intros Hkey st1 Hfailed. unfold st1 in *. clear st1.
  unfold Refine.refine_all in *. destruct groups as [|g groups]; [done|].
  destruct api_key as [|c key]; [done|]. cbn [Refine.get_api_key] in *.
  cbn [snd] in Hfailed. cbn [fst snd].
  set (gs := g :: groups) in *.
  destruct (refine_loop_effects service false false gs
              (Refine.mk_state w out 0 0 0))
    as (s & k & f & n & _ & _ & Hf & _ & _ & _ & _ & _ & _ & _ & Hall).
  cbv zeta in *. rewrite Hfailed in Hf. cbn [Refine.failed] in Hf.
  assert (f = 0%nat) as -> by lia.
  set (out1 := Refine.st_out
                 (foldl (Refine.refine_one service false false)
                    (Refine.mk_state w out 0 0 0) gs)) in *.
  assert (∀ l st,
            (∀ d e, (d, e) ∈ l →
                    is_Some (Refine.st_out st !! Refine.output_name d)) →
            let st' := foldl (Refine.refine_one service' false false) st l in
            Refine.st_out st' = Refine.st_out st
            ∧ Remote.sent (Refine.st_world st')
              = Remote.sent (Refine.st_world st)
            ∧ Refine.success st' = Refine.success st
            ∧ Refine.failed st' = Refine.failed st
            ∧ Refine.skipped st' = (Refine.skipped st + length l)%nat)
    as Hskip.
  { induction l as [|[d e] l IH]; intros st Hl.
    - simpl. rewrite Nat.add_0_r. done.
    - foldl_step.
      destruct (refine_one_cases service' false false st d e)
        as [(H1 & H2 & H3 & H4 & H5 & _)|(_ & [Hnone|?] & _)]; [| |done].
      2:{ destruct (Hl d e) as [x Hx]; [apply elem_of_cons; by left|].
          congruence. }
      destruct (IH (Refine.refine_one service' false false st (d, e)))
        as (I1 & I2 & I3 & I4 & I5).
      { intros d' e' Hin. rewrite H2. apply (Hl d' e').
        apply elem_of_cons. by right. }
      cbv zeta in *. rewrite I1, I2, I3, I4, I5, H1, H2, H3, H4, H5.
      repeat split; try done. simpl. lia. }
  destruct (Hskip gs (Refine.mk_state w' out1 0 0 0))
    as (I1 & I2 & I3 & I4 & I5).
  { intros d e Hin. destruct (Hall d e Hin) as [?|[?|?]]; [done|lia|done]. }
  cbv zeta in *. rewrite I1, I2, I3, I4, I5. done.
Qed.

(** A service that answers every request with a text: the first run
    writes the file of the day, the second run skips it. *)
Lemma refine_rerun_skips_all_witness :
  let answers := λ _ : nat,
    Remote.Response 200
      (Remote.mk_body [Remote.mk_block (lit "text") (lit "note")] None) [] in
  let st1 := (Refine.refine_all answers false false one_day (lit "key")
                Remote.w0 ∅).2 in
  Refine.st_out st1 !! lit "2024-01-08.md" ≠ None
  ∧ (Refine.refine_all answers false false one_day (lit "key") Remote.w0
       (Refine.st_out st1)).1
    = Ok (0, 1, 0)%nat.
Proof.
  intros answers st1. split; [by vm_compute|].
  apply (refine_rerun_skips_all answers answers one_day (lit "key")
           Remote.w0 Remote.w0 ∅); [done|by vm_compute].
Defined.

(** ** [merge_to_shared_posts]: what a run touches *)

Section MergeReach.

Import SharePipeline.

Variable isocalendar : str → option (N * N).

Lemma written_sublist (v : gmap str str)
    (groups : list (str * list RefinedEntry.t)) :
  omap (λ g, match new_entries_of (read_existing v (bucket_file g.1)) g.2 with
             | [] => None
             | _ => Some (bucket_file g.1)
             end) groups
  `sublist_of` List.map bucket_file groups.*1.
Proof.
  induction groups as [|[l es] groups IH]; [done|].
  rewrite omap_cons_list. cbn [fst snd]. csimpl.
  destruct (new_entries_of (read_existing v (bucket_file l)) es); simpl.
  - by apply sublist_cons.
  - by apply sublist_skip.
Qed.

Lemma bucket_files_NoDup (labels : list str) :
  NoDup labels → NoDup (List.map bucket_file labels).
Proof.
  intros H. change (List.map bucket_file labels) with (bucket_file <$> labels).
  apply NoDup_fmap_2; [|done]. intros a b. apply bucket_file_inj.
Qed.

Lemma bucket_elem (l : str) (entries : list RefinedEntry.t)
    (e : RefinedEntry.t) :
  e ∈ bucket isocalendar l entries
  ↔ e ∈ entries
    ∧ _iso_week_label isocalendar (RefinedEntry.source_date e) = Some l.
Proof.
  unfold bucket. rewrite list_elem_of_In, filter_In, <- list_elem_of_In.
  by rewrite bool_decide_eq_true.
Qed.

Lemma join_infix (sep x : str) (parts : list str) :
  x ∈ parts → ∃ a b, join sep parts = a ++ x ++ b.
Proof.
  induction parts as [|p parts IH]; [by intros H%elem_of_nil|].
  intros [->|Hin]%elem_of_cons.
  - destruct parts as [|q parts].
    + exists [], []. simpl. by rewrite app_nil_r.
    + exists [], (sep ++ join sep (q :: parts)). by rewrite join_cons.
  - destruct (IH Hin) as (a & b & Hab).
    destruct parts as [|q parts]; [by apply elem_of_nil in Hin|].
    rewrite join_cons by done. rewrite Hab.
    exists (p ++ sep ++ a), b. by rewrite <- !app_assoc.
Qed.

End MergeReach.

(** What [merge_to_shared_posts] touches.  The paths that it returns are
    pairwise different; each is the file of the week of an entry of the
    run whose title was not a heading of that file; a file that is not
    returned is left as it is; and no file is removed. *)
Theorem merge_touches_only_its_weeks (isocalendar : str → option (N * N))
    (entries : list RefinedEntry.t) (v : gmap str str) :
  let st := (SharePipeline.merge_to_shared_posts isocalendar entries v).2 in
  NoDup (SharePipeline.written_paths st)
  ∧ (∀ f, f ∈ SharePipeline.written_paths st →
          ∃ e l,
            e ∈ entries
            ∧ SharePipeline._iso_week_label isocalendar
                (RefinedEntry.source_date e) = Some l
            ∧ f = SharePipeline.bucket_file l
            ∧ RefinedEntry.title e
              ∉ findall_headings (SharePipeline.read_existing v f))
  ∧ (∀ f, f ∉ SharePipeline.written_paths st →
          SharePipeline.vault st !! f = v !! f)
  ∧ (∀ f, is_Some (v !! f) → is_Some (SharePipeline.vault st !! f)).
Proof.
  intros st. split; [|split; [|split]].
  - unfold st, SharePipeline.merge_to_shared_posts.
    destruct (SharePipeline.group_by_week isocalendar entries [])
      as [groups|] eqn:Hg; [|constructor].
    apply group_by_week_spec in Hg as [Hnd _]. cbn [snd].
    rewrite merge_fold_written by done. simpl.
    apply (sublist_NoDup _ (List.map SharePipeline.bucket_file groups.*1));
      [by apply bucket_files_NoDup|apply written_sublist].
  - intros f Hf.
    destruct (merge_run_cases isocalendar entries v f)
      as [[_ Hno]|(l & -> & Hne & _)]; [done|].
    destruct (SharePipeline.new_entries_of
                (SharePipeline.read_existing v (SharePipeline.bucket_file l))
                (bucket isocalendar l entries)) as [|e new] eqn:Hnew; [done|].
    assert (e ∈ SharePipeline.new_entries_of
                  (SharePipeline.read_existing v (SharePipeline.bucket_file l))
                  (bucket isocalendar l entries)) as He.
    { rewrite Hnew. apply elem_of_cons. by left. }
    apply new_entries_skip in He as [Hin Hnot].
    apply bucket_elem in Hin as [Hin Hl]. by exists e, l.
  - intros f Hf.
    destruct (merge_run_cases isocalendar entries v f)
      as [[Hsame _]|(l & _ & _ & _ & Hin)]; done.
  - intros f Hf.
    destruct (merge_run_cases isocalendar entries v f)
      as [[Hsame _]|(l & _ & _ & Hnew & _)]; fold st in Hsame || fold st in Hnew.
    + by rewrite Hsame.
    + rewrite Hnew. by eexists.
Qed.

(** A date that [fromisoformat] refuses makes [merge_to_shared_posts]
    raise [ValueError], and only such a date does.  The dates are read
    before the first file is, so a run that raises has written nothing and
    printed nothing. *)
Theorem merge_refuses_bad_dates (isocalendar : str → option (N * N))
    (entries : list RefinedEntry.t) (v : gmap str str) :
  let r := SharePipeline.merge_to_shared_posts isocalendar entries v in
  (r.1 = Raised ValueError
   ↔ ∃ e, e ∈ entries ∧ isocalendar (RefinedEntry.source_date e) = None)
  ∧ (∀ x, r.1 = Raised x → r.2 = SharePipeline.mk_merge v [] [])
  ∧ (∀ paths, r.1 = Ok paths → paths = SharePipeline.written_paths r.2).
Proof.
  intros r. unfold r, SharePipeline.merge_to_shared_posts.
  destruct (SharePipeline.group_by_week isocalendar entries [])
    as [groups|] eqn:Hg; cbn [fst snd].
  - split; [|split; [done|by intros paths [= <-]]]. split; [done|].
    intros (e & He & Hnone).
    assert (dated isocalendar entries) as Hd.
    { eapply group_by_week_dated. by eexists. }
    unfold dated in Hd. rewrite Forall_forall in Hd.
    destruct (Hd e He) as [x Hx]. congruence.
  - split; [|split; [done|done]]. split; [|done]. intros _.
    destruct (decide (Forall (λ e, is_Some (isocalendar
                                              (RefinedEntry.source_date e)))
                        entries)) as [Hall|Hnot].
    + destruct (group_by_week_some isocalendar entries [] Hall) as [g Hg'].
      congruence.
    + apply not_Forall_Exists in Hnot; [|apply _].
      apply Exists_exists in Hnot as (e & He & Hbad).
      exists e. split; [done|]. by apply eq_None_not_Some.
Qed.

(** Every entry of a run that does not raise is in the file of its week
    after the run: its text stands there, or its title was a heading of
    the file before the run. *)
Theorem merge_places_every_entry (isocalendar : str → option (N * N))
    (entries : list RefinedEntry.t) (v : gmap str str)
    (e : RefinedEntry.t) (l : str) :
  dated isocalendar entries →
  e ∈ entries →
  SharePipeline._iso_week_label isocalendar (RefinedEntry.source_date e)
  = Some l →
  RefinedEntry.title e
  ∈ findall_headings
      (SharePipeline.read_existing v (SharePipeline.bucket_file l))
  ∨ ∃ a b,
      SharePipeline.vault_after isocalendar entries v
      !! SharePipeline.bucket_file l
      = Some (a ++ SharePipeline.entry_text e ++ b).
Proof.
  intros Hd He Hl.
  destruct (group_by_week_some isocalendar entries [] Hd) as [groups Hg].
  rewrite merge_run_file, Hg. unfold file_after.
  set (old := SharePipeline.read_existing v (SharePipeline.bucket_file l)).
  destruct (decide (RefinedEntry.title e ∈ findall_headings old))
    as [Hin|Hnot]; [by left|right].
  assert (e ∈ SharePipeline.new_entries_of old (bucket isocalendar l entries))
    as Hnew.
  { apply list_elem_of_In, filter_In. split.
    - apply list_elem_of_In, bucket_elem. done.
    - apply negb_true_iff, bool_decide_eq_false. done. }
  destruct (SharePipeline.new_entries_of old (bucket isocalendar l entries))
    as [|n ns] eqn:E; [by apply elem_of_nil in Hnew|].
  rewrite <- E in *.
  destruct (join_infix SharePipeline.separator (SharePipeline.entry_text e)
              (List.map SharePipeline.entry_text
                 (SharePipeline.new_entries_of old
                    (bucket isocalendar l entries))))
    as (a & b & Hab).
  { apply list_elem_of_In, in_map, list_elem_of_In. done. }
  unfold SharePipeline.new_content_of, SharePipeline.append_text_of.
  rewrite Hab. destruct old as [|c old'].
  - exists a, (b ++ [nl]). by rewrite <- !app_assoc.
  - exists (rstrip (c :: old') ++ SharePipeline.separator ++ a), (b ++ [nl]).
    by rewrite <- !app_assoc.
Qed.

(** Two entries of one week in the empty vault. *)
Lemma merge_places_every_entry_witness :
  ∃ a b,
    SharePipeline.vault_after Calendar.isocalendar [foo_monday; bar_monday] ∅
    !! week2_file
    = Some (a ++ SharePipeline.entry_text bar_monday ++ b).
Proof.
  destruct (merge_places_every_entry Calendar.isocalendar
              [foo_monday; bar_monday] ∅ bar_monday (lit "Week 2 - 2024"))
    as [Hin|H].
  - repeat constructor; vm_compute; eauto.
  - apply elem_of_cons. right. apply elem_of_cons. by left.
  - reflexivity.
  - exfalso. vm_compute in Hin. by apply elem_of_nil in Hin.
  - exact H.
Defined.

(** ** One file for each ISO week *)

Section WeekLabels.

Import SharePipeline.

Lemma lit_String (a : ascii) (s : string) :
  lit (String a s) = N_of_ascii a :: lit s.
Proof. reflexivity. Qed.

Lemma lit_inj (s s' : string) : lit s = lit s' → s = s'.
Proof.
  revert s'. induction s as [|a s IH]; intros [|a' s'] H; try done.
  rewrite !lit_String in H. injection H as Ha Hs.
  f_equal; [|by apply IH].
  by rewrite <- (ascii_N_embedding a), <- (ascii_N_embedding a'), Ha.
Qed.

Lemma dec_digits (n : N) : Forall decimal_digit (dec n).
Proof.
  unfold dec. induction (N.to_uint n) as [|d IH|d IH|d IH|d IH|d IH|d IH|d IH
                                         |d IH|d IH|d IH];
    [constructor|..]; cbn [NilEmpty.string_of_uint]; rewrite lit_String;
    (constructor; [by vm_compute|exact IH]).
Qed.

Lemma dec_inj (n m : N) : dec n = dec m → n = m.
Proof.
  unfold dec. intros H%lit_inj.
  rewrite <- (DecimalN.Unsigned.of_to n), <- (DecimalN.Unsigned.of_to m).
  f_equal.
  assert (Some (N.to_uint n) = Some (N.to_uint m)) as Heq.
  { by rewrite <- !NilEmpty.usu, H. }
  by injection Heq.
Qed.

(** A run of digits that ends in front of a code point that is no digit
    is read off in one way. *)
Lemma digits_app_inj (a a' r r' : str) (c c' : char) :
  Forall decimal_digit a → Forall decimal_digit a' →
  ¬ decimal_digit c → ¬ decimal_digit c' →
  a ++ c :: r = a' ++ c' :: r' → a = a' ∧ c :: r = c' :: r'.
Proof.
  intros Ha. revert a'. induction Ha as [|x a Hx Ha IH]; intros a' Ha' Hc Hc' H.
  - destruct Ha' as [|x' a' Hx' Ha']; [done|].
    simpl in H. injection H as -> _. done.
  - destruct Ha' as [|x' a' Hx' Ha'].
    + simpl in H. injection H as -> _. done.
    + simpl in H. injection H as -> H.
      destruct (IH a' Ha' Hc Hc' H) as [-> ?]. done.
Qed.

Lemma week_label_inj (y w y' w' : N) :
  lit "Week " ++ dec w ++ lit " - " ++ dec y
  = lit "Week " ++ dec w' ++ lit " - " ++ dec y' →
  y = y' ∧ w = w'.
Proof.
  intros H. apply app_inv_head in H.
  change (lit " - ") with (32 :: lit "- ") in H.
  apply digits_app_inj in H as [Hw H]; try apply dec_digits;
    try (unfold decimal_digit; lia).
  injection H as H. split; by apply dec_inj.
Qed.

End WeekLabels.

(** Two dates go to the same file of the vault exactly when they have the
    same ISO year and the same ISO week. *)
Theorem week_file_of_a_date (isocalendar : str → option (N * N))
    (d1 d2 l1 l2 : str) :
  SharePipeline._iso_week_label isocalendar d1 = Some l1 →
  SharePipeline._iso_week_label isocalendar d2 = Some l2 →
  SharePipeline.bucket_file l1 = SharePipeline.bucket_file l2
  ↔ isocalendar d1 = isocalendar d2.
Proof.
  unfold SharePipeline._iso_week_label.
  destruct (isocalendar d1) as [[y1 w1]|]; [|done].
  destruct (isocalendar d2) as [[y2 w2]|]; [|done].
  simpl. intros [= <-] [= <-]. split.
  - intros H%bucket_file_inj. apply week_label_inj in H as [-> ->]. done.
  - by intros [= -> ->].
Qed.

(** A Monday and the Tuesday after it. *)
Lemma week_file_of_a_date_witness :
  SharePipeline.bucket_file (lit "Week 2 - 2024")
  = SharePipeline.bucket_file (lit "Week 2 - 2024")
  ↔ Calendar.isocalendar (lit "2024-01-08")
    = Calendar.isocalendar (lit "2024-01-09").
Proof.
  apply (week_file_of_a_date Calendar.isocalendar); reflexivity.
Defined.

(** ** [save_to_content_vault]: what a run touches *)

Section SaveReach.

Import ShareToSocial.

Variable manual_dir : path.

(** The loop over the posts: the files that were there stay as they are;
    the paths that are added were not there, are pairwise different, and
    each holds the text of a post of the run; and one line is printed for
    every post. *)
Lemma save_fold_effects (posts : list SocialPost.t) :
  ∀ st, ∃ new,
    let st' := foldl (store_post manual_dir) st posts in
    saved_paths st' = saved_paths st ++ new
    ∧ NoDup new
    ∧ files st ⊆ files st'
    ∧ (∀ p, p ∈ new →
            files st !! p = None
            ∧ ∃ post, post ∈ posts
                      ∧ p = file_path_of manual_dir post
                      ∧ files st' !! p = Some (post_text post))
    ∧ (∀ p, p ∉ new → files st' !! p = files st !! p)
    ∧ length (shown st') = (length (shown st) + length posts)%nat.
Proof.
  induction posts as [|q posts IH]; intros st.
  - exists []. simpl. rewrite app_nil_r, Nat.add_0_r.
    split; [done|]. split; [constructor|]. split; [done|].
    split; [by intros p H%elem_of_nil|done].
  - foldl_step.
    destruct (IH (store_post manual_dir st q))
      as (new & Hsaved & Hnd & Hsub & Hnew & Hold & Hshown).
    cbv zeta in *.
    set (st' := foldl (store_post manual_dir) (store_post manual_dir st q) posts)
      in *.
    unfold store_post in Hsaved, Hsub, Hnew, Hold, Hshown.
    destruct (bool_decide (is_Some (files st !! file_path_of manual_dir q)))
      eqn:Hex; cbn [files saved_paths shown] in *.
    + exists new. rewrite Hshown, length_app. simpl.
      split; [done|]. split; [done|]. split; [done|]. split; [|split; [done|lia]].
      intros p Hp. destruct (Hnew p Hp) as (Hnone & post & Hin & Hrest).
      split; [done|]. exists post. split; [apply elem_of_cons; by right|done].
    + apply bool_decide_eq_false in Hex.
      assert (files st !! file_path_of manual_dir q = None) as Hnone
        by by apply eq_None_not_Some.
      assert (files st' !! file_path_of manual_dir q = Some (post_text q))
        as Hq.
      { eapply lookup_weaken; [|exact Hsub]. apply lookup_insert_eq. }
      assert (file_path_of manual_dir q ∉ new) as Hfresh.
      { intros Hin. destruct (Hnew _ Hin) as [Hn _].
        by rewrite lookup_insert_eq in Hn. }
      exists (file_path_of manual_dir q :: new).
      rewrite Hsaved, Hshown, <- app_assoc, length_app. simpl.
      split; [done|]. split; [by apply NoDup_cons|]. split.
      { etrans; [|exact Hsub]. by apply insert_subseteq. }
      split; [|split; [|lia]].
      * intros p [->|Hp]%elem_of_cons.
        -- split; [done|]. exists q. split; [apply elem_of_cons; by left|done].
        -- destruct (Hnew p Hp) as (Hn & post & Hin & Hrest).
           split.
           ++ destruct (decide (file_path_of manual_dir q = p)) as [<-|Hne];
                [done|]. by rewrite lookup_insert_ne in Hn.
           ++ exists post. split; [apply elem_of_cons; by right|done].
      * intros p Hp. apply not_elem_of_cons in Hp as [Hne Hp].
        rewrite (Hold p Hp). by rewrite lookup_insert_ne.
Qed.

End SaveReach.

(** [save_to_content_vault] never changes a file that is there, whether it
    returns or raises.  The paths that it has written are pairwise
    different; none of them was there; each is a path that the file system
    takes and holds the text of a post of the run whose path it is; every
    other path is as it was.  When it returns, it returns these paths, no
    path of a post is refused and one line is printed for every post.
    When it raises, it does so at the first post with a path that the file
    system refuses, with the exception of that refusal, and one line is
    printed for every post in front of it. *)
Theorem save_never_overwrites
    (refuses : ShareToSocial.path → option ShareToSocial.fs_error)
    (posts : list SocialPost.t)
    (manual_dir : ShareToSocial.path) (fs : gmap ShareToSocial.path str) :
  let r := ShareToSocial.save_to_content_vault refuses posts manual_dir fs in
  let written := ShareToSocial.saved_paths r.2 in
  fs ⊆ ShareToSocial.files r.2
  ∧ NoDup written
  ∧ (∀ p, p ∈ written →
          fs !! p = None
          ∧ refuses p = None
          ∧ ∃ post, post ∈ posts
                    ∧ p = ShareToSocial.file_path_of manual_dir post
                    ∧ ShareToSocial.files r.2 !! p
                      = Some (ShareToSocial.post_text post))
  ∧ (∀ p, p ∉ written → ShareToSocial.files r.2 !! p = fs !! p)
  ∧ match r.1 with
    | Ok paths =>
        paths = written
        ∧ length (ShareToSocial.shown r.2) = length posts
        ∧ ∀ post, post ∈ posts →
                  refuses (ShareToSocial.month_dir_of manual_dir post) = None
                  ∧ refuses (ShareToSocial.file_path_of manual_dir post)
                    = None
    | Raised e =>
        ∃ before post rest x,
          posts = before ++ post :: rest
          ∧ e = ShareToSocial.fs_exn x
          ∧ Forall (λ q, refuses (ShareToSocial.month_dir_of manual_dir q)
                         = None
                         ∧ refuses (ShareToSocial.file_path_of manual_dir q)
                           = None) before
          ∧ (refuses (ShareToSocial.month_dir_of manual_dir post) = Some x
             ∨ refuses (ShareToSocial.month_dir_of manual_dir post) = None
               ∧ refuses (ShareToSocial.file_path_of manual_dir post)
                 = Some x)
          ∧ length (ShareToSocial.shown r.2) = length before
    end.
Proof.
  intros r written. unfold written, r, ShareToSocial.save_to_content_vault.
  destruct (save_loop_reached manual_dir refuses posts
              (ShareToSocial.mk_save fs [] [])) as [Hst Hres].
  destruct (ShareToSocial.save_loop refuses manual_dir posts
              (ShareToSocial.mk_save fs [] [])) as [res st].
  cbn [fst snd] in Hst, Hres.
  assert ((match res with
           | Ok _ => (Ok (ShareToSocial.saved_paths st), st)
           | Raised e => (Raised e, st)
           end).2 = st) as -> by by destruct res.
  destruct (save_fold_effects manual_dir
              (ShareToSocial.reached refuses manual_dir posts)
              (ShareToSocial.mk_save fs [] []))
    as (new & Hsaved & Hnd & Hsub & Hnew & Hold & Hshown).
  cbv zeta in *. rewrite <- Hst in *.
  cbn [ShareToSocial.files ShareToSocial.saved_paths
         ShareToSocial.shown] in *.
  rewrite Hsaved. cbn [app].
  pose proof (reached_accepted manual_dir refuses posts) as Hacc.
  assert (∀ q, ShareToSocial.refused refuses manual_dir q = None →
               refuses (ShareToSocial.month_dir_of manual_dir q) = None
               ∧ refuses (ShareToSocial.file_path_of manual_dir q) = None)
    as Hsplit.
  { intros q. unfold ShareToSocial.refused.
    by destruct (refuses (ShareToSocial.month_dir_of manual_dir q)). }
  split; [done|]. split; [done|]. split; [|split; [done|]].
  - intros p Hp. destruct (Hnew p Hp) as (Hnone & post & Hin & -> & Hfile).
    split; [done|]. split.
    + rewrite Forall_forall in Hacc. by apply Hsplit, Hacc.
    + exists post. split; [|done].
      by apply (reached_elem manual_dir refuses posts).
  - destruct Hres as [[-> Hall]|(post & rest & x & Heq & Hx & ->)];
      cbn [fst snd].
    + rewrite Hall in *. rewrite Hshown. split; [done|].
      split; [done|]. intros post Hpost. rewrite Forall_forall in Hacc.
      by apply Hsplit, Hacc.
    + exists (ShareToSocial.reached refuses manual_dir posts), post, rest, x.
      split; [done|]. split; [done|]. split.
      { eapply Forall_impl; [exact Hacc|]. apply Hsplit. }
      split; [|by rewrite Hshown].
      unfold ShareToSocial.refused in Hx.
      destruct (refuses (ShareToSocial.month_dir_of manual_dir post));
        [left; congruence|by right].
Qed.

(** ** The extract step *)

Section ExtractFacts.

Variable tagged : str → bool.
Variable isdecimal : char → bool.

Lemma lstrip_head (s r : str) (c : char) :
  lstrip s = c :: r → isspace c = false.
Proof.
  induction s as [|x s IH]; simpl; [done|].
  destruct (isspace x) eqn:E; [done|]. by intros [= <- _].
Qed.

Lemma rstrip_head (c : char) (r : str) :
  isspace c = false → ∃ r', rstrip (c :: r) = c :: r'.
Proof. intros H. simpl. rewrite H. destruct (rstrip r); eauto. Qed.

Lemma strip_head (c : char) (r : str) :
  isspace c = false → ∃ r', strip (c :: r) = c :: r'.
Proof. intros H. unfold strip. simpl. rewrite H. by apply rstrip_head. Qed.

(** [strip] leaves a stripped text as it is. *)
Lemma strip_strip (s : str) : strip (strip s) = strip s.
Proof.
  unfold strip. destruct (lstrip s) as [|c r] eqn:E; [reflexivity|].
  apply lstrip_head in E.
  destruct (rstrip_head c r E) as [r' Hr]. rewrite Hr.
  cbn [lstrip]. rewrite E, <- Hr. apply rstrip_idemp.
Qed.

Lemma segment_body_strip (entry_text : str) :
  strip (Extract.segment_body entry_text) = Extract.segment_body entry_text.
Proof.
  unfold Extract.segment_body.
  destruct (split_sep_once Extract.dashes true entry_text) as [[a b]|];
    apply strip_strip.
Qed.

(** A date that the pattern of the dates gives is of the form of a
    date. *)
Lemma date_at_fix (s d : str) :
  Extract.date_at isdecimal s = Some d → Extract.date_at isdecimal d = Some d.
Proof.
  unfold Extract.date_at.
  destruct s as [|y1 [|y2 [|y3 [|y4 [|h1 [|m1 [|m2 [|h2 [|d1 [|d2 s]]]]]]]]]];
    try done.
  destruct (isdecimal y1 && isdecimal y2 && isdecimal y3 && isdecimal y4
            && (h1 =? 45) && isdecimal m1 && isdecimal m2 && (h2 =? 45)
            && isdecimal d1 && isdecimal d2) eqn:E; [|done].
  intros [= <-]. cbn [take]. by rewrite E.
Qed.

Lemma search_date_fix (m : str → option str) (s d : str) :
  (∀ x g, m x = Some g → Extract.date_at isdecimal g = Some g) →
  Extract.search_group m s = Some d → Extract.date_at isdecimal d = Some d.
Proof.
  intros Hm H. apply search_group_spec in H as (pre & suf & _ & H).
  by apply (Hm suf).
Qed.

Lemma date_field_at_fix (s d : str) :
  Extract.date_field_at isdecimal s = Some d →
  Extract.date_at isdecimal d = Some d.
Proof.
  unfold Extract.date_field_at. destruct (startswith (lit "date:") s); [|done].
  apply date_at_fix.
Qed.

Lemma entry_of_segment_fields (name date raw : str) (e : ShareEntry.t) :
  Extract.entry_of_segment tagged name date raw = Some e →
  ShareEntry.body e ≠ []
  ∧ strip (ShareEntry.body e) = ShareEntry.body e
  ∧ strip (ShareEntry.title e) = ShareEntry.title e
  ∧ (nl ∉ ShareEntry.title e)
  ∧ ShareEntry.source_file e = name
  ∧ ShareEntry.source_date e = date
  ∧ tagged (strip raw) = true.
Proof.
  unfold Extract.entry_of_segment.
  destruct (startswith heading_mark (strip raw)); [|done]. simpl.
  destruct (tagged (strip raw)); [|done]. simpl.
  destruct (match_heading (strip raw)) as [[g rest]|] eqn:Hm; [|done].
  destruct (Extract.segment_body (strip raw)) as [|c b] eqn:Hb; [done|].
  intros [= <-]. simpl. split; [done|]. split.
  { rewrite <- Hb. apply segment_body_strip. }
  split; [apply strip_strip|]. split; [|done].
  intros Hin. apply strip_elem in Hin. by apply match_heading_no_nl in Hm.
Qed.

(** Every entry of a file is built from one segment of the file. *)
Lemma parse_file_fields (f : ExtractStep.md_file) (e : ShareEntry.t) :
  e ∈ ExtractStep.parse_file tagged isdecimal f →
  extracted_entry isdecimal e
  ∧ ShareEntry.source_file e = ExtractStep.md_name f.
Proof.
  unfold ExtractStep.parse_file, Extract._parse_entries_from_file.
  intros (raw & _ & He)%list_elem_of_omap.
  apply entry_of_segment_fields in He
    as (H1 & H2 & H3 & H4 & H5 & H6 & _).
  split; [|done]. unfold extracted_entry. rewrite H6.
  split; [done|]. split; [done|]. split; [done|]. split; [done|].
  destruct (Extract.search_group (Extract.date_field_at isdecimal)
              (ExtractStep.md_text f)) as [d|] eqn:Hd.
  - right. eapply search_date_fix; [|exact Hd]. apply date_field_at_fix.
  - destruct (Extract.search_group (Extract.date_at isdecimal)
                (ExtractStep.md_stem f)) as [d|] eqn:Hs; [|by left].
    right. eapply search_date_fix; [|exact Hs]. apply date_at_fix.
Qed.

Lemma extract_fold (files : list ExtractStep.md_file) :
  ∀ acc,
    (foldl (ExtractStep.extract_file tagged isdecimal) acc files).1
    = acc.1 ++ concat (List.map (ExtractStep.parse_file tagged isdecimal) files).
Proof.
  induction files as [|f files IH]; intros acc; simpl.
  - by rewrite app_nil_r.
  - rewrite IH. simpl. by rewrite <- app_assoc.
Qed.

End ExtractFacts.

(** [extract_share_entries] returns no entry for a directory that is not
    there or lists no file; else it returns the entries of the files, file
    after file in the order of the listing.  Every entry that it returns
    carries the name of its file, a body that is not empty, a title on one
    line, both without whitespace around them, and a date that is empty or
    of the form [dddd-dd-dd]. *)
Theorem extract_share_entries_collects (tagged : str → bool)
    (isdecimal : char → bool) (input_dir : str)
    (listing : option (list ExtractStep.md_file)) :
  let r := ExtractStep.extract_share_entries tagged isdecimal input_dir
             listing in
  r.1 = concat (List.map (ExtractStep.parse_file tagged isdecimal)
                  (default [] listing))
  ∧ (∀ e, e ∈ r.1 →
          extracted_entry isdecimal e
          ∧ ∃ files f,
              listing = Some files ∧ f ∈ files
              ∧ e ∈ ExtractStep.parse_file tagged isdecimal f
              ∧ ShareEntry.source_file e = ExtractStep.md_name f).
Proof.
  intros r.
  assert (r.1 = concat (List.map (ExtractStep.parse_file tagged isdecimal)
                          (default [] listing))) as Hr.
  { unfold r, ExtractStep.extract_share_entries.
    destruct listing as [[|f files]|]; [done| |done].
    by rewrite extract_fold. }
  split; [exact Hr|]. intros e He. rewrite Hr in He.
  apply list_elem_of_In, in_concat in He as (es & Hes & He).
  apply in_map_iff in Hes as (f & <- & Hf).
  apply list_elem_of_In in He.
  destruct (parse_file_fields tagged isdecimal f e He) as [Hwf Hname].
  split; [done|]. destruct listing as [files|]; [|done].
  exists files, f. split; [done|]. split; [by apply list_elem_of_In|done].
Qed.

(** ** The artifact of the extract step *)

Section ExtractedText.

Import ExtractStep.

Lemma extracted_text_cons (e : ShareEntry.t) (es : list ShareEntry.t) :
  extracted_text (e :: es)
  = (heading_mark ++ ShareEntry.title e)
    ++ nl :: nl :: ShareEntry.body e
    ++ nl :: match es with
             | [] => []
             | _ => nl :: extracted_text es
             end.
Proof.
  unfold extracted_text. cbn [flat_map app].
  rewrite join_cons_char by done. rewrite join_cons_char by done.
  rewrite <- !app_assoc. do 3 f_equal.
  destruct es as [|e' es]; [done|].
  rewrite join_cons_char by done. done.
Qed.

Lemma extracted_text_headings (e : ShareEntry.t) (es : list ShareEntry.t) :
  findall_headings (extracted_text (e :: es))
  = findall_headings (heading_mark ++ ShareEntry.title e)
    ++ findall_headings (ShareEntry.body e)
    ++ findall_headings (extracted_text es).
Proof.
  rewrite extracted_text_cons, findall_headings_app, findall_headings_nl,
    findall_headings_app.
  destruct es as [|e' es]; [done|]. by rewrite findall_headings_nl.
Qed.

End ExtractedText.

(** [write_extracted] writes the artifact [01_extracted.md] and no other
    file.  Its text is, entry after entry, a heading line with the title,
    an empty line, the body and a newline, with an empty line between two
    entries; so every title that is not empty and on one line is a
    heading of the artifact. *)
Theorem write_extracted_lists_titles (entries : list ShareEntry.t)
    (dir : gmap str str) :
  let r := ExtractStep.write_extracted entries dir in
  r.2 !! r.1
  = Some (join [nl]
            (List.map (λ e, heading_mark ++ ShareEntry.title e ++ [nl; nl]
                            ++ ShareEntry.body e ++ [nl]) entries))
  ∧ (∀ name, name ≠ r.1 → r.2 !! name = dir !! name)
  ∧ (∀ e, e ∈ entries →
          ShareEntry.title e ≠ [] → nl ∉ ShareEntry.title e →
          ShareEntry.title e
          ∈ findall_headings (ExtractStep.extracted_text entries)).
Proof.
  intros r. unfold r, ExtractStep.write_extracted. cbn [fst snd].
  split; [|split].
  - rewrite lookup_insert_eq. f_equal.
    induction entries as [|e es IH]; [done|].
    rewrite extracted_text_cons, IH. destruct es as [|e' es].
    + cbn [List.map join]. by rewrite <- app_assoc.
    + cbn [List.map]. rewrite (join_cons_char nl _ (_ :: _)) by done.
      by rewrite <- !app_assoc.
  - intros name Hne. by rewrite lookup_insert_ne.
  - induction entries as [|x es IH]; intros e He Hne Hnl.
    { by apply elem_of_nil in He. }
    rewrite extracted_text_headings.
    apply elem_of_cons in He as [->|He].
    + apply elem_of_app. left. rewrite findall_headings_line.
      * rewrite heading_of_line_mark. destruct (ShareEntry.title x); [done|].
        apply elem_of_cons. by left.
      * intros [Hin|Hin]%elem_of_app; [|done]. vm_compute in Hin.
        repeat (apply elem_of_cons in Hin as [Hin|Hin]; [done|]).
        by apply elem_of_nil in Hin.
    + apply elem_of_app. right. apply elem_of_app. right. by apply IH.
Qed.

(** ** A note of the refine step in the extract step *)

Section DailyNote.

Variable tagged : str → bool.
Variable isdecimal : char → bool.

Lemma search_group_skip (m : str → option str) (c : char) (s : str) :
  m (c :: s) = None →
  Extract.search_group m (c :: s) = Extract.search_group m s.
Proof. intros H. simpl. by rewrite H. Qed.

Lemma search_group_here (m : str → option str) (s g : str) :
  m s = Some g → Extract.search_group m s = Some g.
Proof. intros H. destruct s; simpl; by rewrite H. Qed.

Lemma not_space_not_nl (c : char) : isspace c = false → c ≠ nl.
Proof. by intros H ->. Qed.

Lemma strip_not_dashes (c : char) (r : str) :
  isspace c = false → c ≠ 45 →
  eqb_str (strip (c :: r)) Extract.dashes = false.
Proof.
  intros Hc Hne. destruct (strip_head c r Hc) as [r' ->].
  apply bool_decide_eq_false. intros [= ? _]. done.
Qed.

Lemma dec_no_nl (n : N) : nl ∉ dec n.
Proof.
  intros H. pose proof (dec_digits n) as Hd. rewrite Forall_forall in Hd.
  destruct (Hd nl H) as [Hlo _]. by vm_compute in Hlo.
Qed.

(** The lines, the start of the content and the date of a note that
    [_write_output_md] wrote. *)
Lemma output_md_lines (date : str) (n : nat) (refined : str) :
  nl ∉ date →
  split_lines (Refine.output_md date n refined)
  = [ lit "---"; lit "date: " ++ date; lit "type: daily-note";
      lit "entries: " ++ dec (N.of_nat n); lit "---"; [] ]
    ++ split_lines refined.
Proof.
  intros Hdate. unfold Refine.output_md.
  assert (∀ a b : str, a ++ [nl] ++ b = a ++ nl :: b) as Hcons by done.
  assert (nl ∉ lit "---") as H1 by by_evaluation.
  assert (nl ∉ lit "date: ") as H2 by by_evaluation.
  assert (nl ∉ lit "type: daily-note") as H3 by by_evaluation.
  assert (nl ∉ lit "entries: ") as H4 by by_evaluation.
  rewrite Hcons, split_char_app, split_char_nosep by done.
  rewrite (app_assoc (lit "date: ") date), Hcons, split_char_app,
    split_char_nosep.
  2:{ by intros [H|H]%elem_of_app. }
  rewrite Hcons, split_char_app, split_char_nosep by done.
  rewrite (app_assoc (lit "entries: ") (dec _)), Hcons, split_char_app,
    split_char_nosep.
  2:{ intros [H|H]%elem_of_app; [done|by apply dec_no_nl in H]. }
  change (lit "---" ++ [nl; nl] ++ refined)
    with (lit "---" ++ nl :: ([] ++ nl :: refined)).
  rewrite split_char_app, split_char_nosep by done.
  rewrite split_char_app. done.
Qed.

Lemma date_shape (date : str) :
  Extract.date_at isdecimal date = Some date →
  ∃ y1 y2 y3 y4 m1 m2 d1 d2,
    date = [y1; y2; y3; y4; 45; m1; m2; 45; d1; d2]
    ∧ Forall (λ c, isdecimal c = true) [y1; y2; y3; y4; m1; m2; d1; d2].
Proof.
  unfold Extract.date_at.
  destruct date as [|y1 [|y2 [|y3 [|y4 [|h1 [|m1 [|m2 [|h2 [|d1 [|d2 s]]]]]]]]]];
    try done.
  destruct (isdecimal y1 && isdecimal y2 && isdecimal y3 && isdecimal y4
            && (h1 =? 45) && isdecimal m1 && isdecimal m2 && (h2 =? 45)
            && isdecimal d1 && isdecimal d2) eqn:E; [|done].
  cbn [take]. intros [= Hs]. destruct s; [|done].
  repeat (apply andb_true_iff in E as [E ?]).
  exists y1, y2, y3, y4, m1, m2, d1, d2.
  repeat match goal with H : (_ =? _) = true |- _ => apply N.eqb_eq in H as -> end.
  split; [done|]. repeat constructor; done.
Qed.

(** The parser on the text of a note: the front matter is left out of
    the content and gives the date. *)
Lemma daily_note_parse (date : str) (n : nat)
    (refined name stem : str) :
  (∀ c, isdecimal c = true → isspace c = false) →
  Extract.date_at isdecimal date = Some date →
  Extract._parse_entries_from_file tagged isdecimal
    (Refine.output_md date n refined) name stem
  = omap (Extract.entry_of_segment tagged name date)
      (split_headings true (nl :: refined)).
Proof.
  intros isdecimal_not_space Hdate.
  destruct (date_shape date Hdate)
    as (y1 & y2 & y3 & y4 & m1 & m2 & d1 & d2 & Hd & Hall).
  assert (Forall (λ c, isspace c = false) [y1; y2; y3; y4; m1; m2; d1; d2])
    as Hns.
  { eapply Forall_impl; [exact Hall|]. apply isdecimal_not_space. }
  assert (nl ∉ date) as Hnl.
  { rewrite Hd. intros Hin.
    repeat (apply elem_of_cons in Hin as [Hin|Hin];
            [first [done
                   |subst; repeat (apply Forall_cons in Hns as [? Hns]); done]|]).
    by apply elem_of_nil in Hin. }
  unfold Extract._parse_entries_from_file.
  rewrite output_md_lines by done.
  assert (Extract.search_group (Extract.date_field_at isdecimal)
            (Refine.output_md date n refined) = Some date) as ->.
  { unfold Refine.output_md.
    set (rest := [nl] ++ lit "type: daily-note" ++ _).
    change (lit "---" ++ [nl] ++ lit "date: " ++ date ++ rest)
      with (45 :: 45 :: 45 :: 10 :: lit "date: " ++ date ++ rest).
    rewrite !search_group_skip by reflexivity.
    apply search_group_here. unfold Extract.date_field_at.
    change (startswith (lit "date:") (lit "date: " ++ date ++ rest)) with true.
    change (drop 5 (lit "date: " ++ date ++ rest)) with (32 :: date ++ rest).
    rewrite Hd in Hdate |- *. apply Forall_cons in Hns as [Hy1 _].
    cbn [lstrip app]. change (isspace 32) with true. cbv iota. rewrite Hy1.
    unfold Extract.date_at in *. cbn [take] in *.
    destruct (isdecimal y1 && isdecimal y2 && isdecimal y3 && isdecimal y4
              && (45 =? 45) && isdecimal m1 && isdecimal m2 && (45 =? 45)
              && isdecimal d1 && isdecimal d2); done. }
  f_equal. f_equal.
  unfold Extract.content_start. cbn [app].
  assert (eqb_str (strip (lit "---")) Extract.dashes = true) as Hdash
    by by vm_compute.
  rewrite Hdash. cbn [Extract.front_matter_end].
  change (lit "date: " ++ date) with (100 :: lit "ate: " ++ date).
  change (lit "type: daily-note") with (116 :: lit "ype: daily-note").
  change (lit "entries: " ++ dec (N.of_nat n))
    with (101 :: lit "ntries: " ++ dec (N.of_nat n)).
  rewrite !strip_not_dashes by done. rewrite Hdash. cbn [default id drop].
  rewrite join_cons_char by apply split_char_not_nil.
  by rewrite join_split_char.
Qed.

(** A text without carriage return is read as it is, whatever follows
    it. *)
Lemma read_text_app (a b : str) :
  cr ∉ a → read_text (a ++ b) = a ++ read_text b.
Proof.
  induction a as [|c a IH]; [done|]. intros [Hc Ha]%not_elem_of_cons.
  cbn [app read_text]. destruct (c =? cr) eqn:E.
  - apply N.eqb_eq in E. congruence.
  - by rewrite IH.
Qed.

Lemma read_output_md (date : str) (n : nat) (refined : str) :
  cr ∉ date →
  read_text (Refine.output_md date n refined)
  = Refine.output_md date n (read_text refined).
Proof.
  intros Hdate. unfold Refine.output_md.
  rewrite !app_assoc. rewrite read_text_app; [done|].
  assert (cr ∉ lit "---") as H1 by by_evaluation.
  assert (cr ∉ lit "date: ") as H2 by by_evaluation.
  assert (cr ∉ lit "type: daily-note") as H3 by by_evaluation.
  assert (cr ∉ lit "entries: ") as H4 by by_evaluation.
  assert (cr ∉ [nl]) as H5 by by_evaluation.
  assert (cr ∉ [nl; nl]) as H6 by by_evaluation.
  assert (cr ∉ dec (N.of_nat n)) as H7.
  { intros H. pose proof (dec_digits (N.of_nat n)) as Hd.
    rewrite Forall_forall in Hd. destruct (Hd cr H) as [Hlo _].
    by vm_compute in Hlo. }
  repeat (apply not_elem_of_app; split); done.
Qed.

(** The extract step on a note that the refine step wrote, for a date of
    the form [dddd-dd-dd] (no digit is whitespace).  The note is read as
    [read_text] gives it: a carriage return of the refined text is read as
    a newline.  The front matter is left out of the content, and every
    entry carries the date of the front matter, whatever the name of the
    file is. *)
Theorem daily_note_is_read_back (date : str) (n : nat)
    (refined name stem : str) :
  (∀ c, isdecimal c = true → isspace c = false) →
  Extract.date_at isdecimal date = Some date →
  Extract._parse_entries_from_file tagged isdecimal
    (read_text (Refine.output_md date n refined)) name stem
  = omap (Extract.entry_of_segment tagged name date)
      (split_headings true (nl :: read_text refined)).
Proof.
  intros isdecimal_not_space Hdate.
  rewrite read_output_md; [by apply daily_note_parse|].
  destruct (date_shape date Hdate)
    as (y1 & y2 & y3 & y4 & m1 & m2 & d1 & d2 & Hd & Hall).
  rewrite Hd. intros Hin.
  assert (isdecimal cr = false) as Hcr.
  { destruct (isdecimal cr) eqn:E; [|done].
    by apply isdecimal_not_space in E. }
  repeat (apply elem_of_cons in Hin as [Hin|Hin];
          [first [done
                 |subst; repeat (apply Forall_cons in Hall as [? Hall]);
                  congruence]|]).
  by apply elem_of_nil in Hin.
Qed.

End DailyNote.

Lemma ascii_digit_not_space (c : char) :
  Extract.ascii_digit c = true → isspace c = false.
Proof.
  unfold Extract.ascii_digit, isspace.
  intros [H1 H2]%andb_true_iff. apply N.leb_le in H1, H2.
  repeat match goal with
         | |- context [?a <=? ?b] => destruct (N.leb_spec a b); try lia
         | |- context [?a =? ?b] => destruct (N.eqb_spec a b); try lia
         end.
  all: reflexivity.
Qed.

(** The note of a day with one tagged entry, stored with carriage returns
    in front of the newlines, in a file whose name has another date. *)
Lemma daily_note_is_read_back_witness :
  Extract._parse_entries_from_file has_share_tag Extract.ascii_digit
    (read_text (Refine.output_md (lit "2024-01-08") 1 tagged_note_crlf))
    (lit "2023-12-31.md") (lit "2023-12-31")
  = [ShareEntry.mk (lit "Idea") (lit "Write it down.") (lit "2023-12-31.md")
       (lit "2024-01-08")].
Proof.
  rewrite (daily_note_is_read_back has_share_tag Extract.ascii_digit
             (lit "2024-01-08") 1 tagged_note_crlf
             (lit "2023-12-31.md") (lit "2023-12-31")
             ascii_digit_not_space eq_refl).
  vm_compute. reflexivity.
Defined.

(** ** [_parse_social_posts] *)

Section SocialFacts.

Import SocialParse.

Variable isword : char → bool.
Variable source_entries : list ShareEntry.t.
Variable today : str.

(** The date that a post at position [i] gets. *)
Lemma post_record_date (i : nat) (block : str) (r : SocialPost.t)
    (l : list str) :
  post_record isword source_entries today i block = Some (r, l) →
  match source_entries !! i with
  | Some e =>
      match ShareEntry.source_date e with
      | [] => SocialPost.source_date r = today
              ∧ l = [no_date_warning (SocialPost.title r)]
      | d => SocialPost.source_date r = d ∧ l = []
      end
  | None => SocialPost.source_date r = today
            ∧ l = [no_date_warning (SocialPost.title r)]
  end.
Proof.
  unfold post_record.
  destruct (match_heading block) as [[g rest]|]; [|done].
  destruct (source_entries !! i) as [e|].
  - destruct (ShareEntry.source_date e); intros [= <- <-]; done.
  - intros [= <- <-]. done.
Qed.

Lemma post_record_some (i : nat) (block : str) :
  is_Some (match_heading block) →
  is_Some (post_record isword source_entries today i block).
Proof.
  intros [[g rest] H]. unfold post_record. rewrite H.
  destruct (source_entries !! i) as [e|]; [destruct (ShareEntry.source_date e)|];
    eauto.
Qed.

(** With headed blocks only, the post at position [j] is the post of the
    block at position [j]. *)
Lemma parse_posts_headed (blocks : list str) :
  ∀ i,
    Forall (λ b, is_Some (match_heading b)) blocks →
    length (parse_posts isword source_entries today i blocks).1 = length blocks
    ∧ ∀ j block,
        blocks !! j = Some block →
        ∃ r l,
          post_record isword source_entries today (i + j) block = Some (r, l)
          ∧ (parse_posts isword source_entries today i blocks).1 !! j = Some r.
Proof.
  induction blocks as [|b blocks IH]; intros i Hall.
  - split; [done|]. intros j block H. done.
  - apply Forall_cons in Hall as [Hb Hall].
    destruct (IH (S i) Hall) as [Hlen Hrec]. simpl.
    destruct (parse_posts isword source_entries today (S i) blocks) as [posts lines].
    destruct (post_record_some i b Hb) as [[r l] Hr]. rewrite Hr. simpl in *.
    split; [by rewrite Hlen|].
    intros [|j] block Hj; simpl in Hj.
    + injection Hj as <-. rewrite Nat.add_0_r. eauto.
    + replace (i + S j)%nat with (S i + j)%nat by lia. by apply Hrec.
Qed.

(** Every post of the loop is the post of a block at its position, and
    every line printed is a line of such a post. *)
Lemma parse_posts_elem (blocks : list str) :
  ∀ i,
    let res := parse_posts isword source_entries today i blocks in
    (∀ j block r l,
        blocks !! j = Some block →
        post_record isword source_entries today (i + j) block = Some (r, l) →
        r ∈ res.1 ∧ ∀ line, line ∈ l → line ∈ res.2)
    ∧ (∀ r, r ∈ res.1 →
            ∃ j block l,
              blocks !! j = Some block
              ∧ post_record isword source_entries today (i + j) block = Some (r, l))
    ∧ (∀ line, line ∈ res.2 →
               ∃ j block r l,
                 blocks !! j = Some block
                 ∧ post_record isword source_entries today (i + j) block = Some (r, l)
                 ∧ line ∈ l).
Proof.
  induction blocks as [|b blocks IH]; intros i; simpl.
  - split; [|split].
    + intros j block r l H. done.
    + intros r H. by apply elem_of_nil in H.
    + intros line H. by apply elem_of_nil in H.
  - destruct (IH (S i)) as (IH1 & IH2 & IH3).
    destruct (parse_posts isword source_entries today (S i) blocks) as [posts lines].
    simpl in *.
    destruct (post_record isword source_entries today i b) as [[r0 l0]|] eqn:Hb; simpl.
    + split; [|split].
      * intros [|j] block r l Hj Hr; simpl in Hj.
        -- injection Hj as <-. rewrite Nat.add_0_r, Hb in Hr.
           injection Hr as <- <-. split; [apply elem_of_cons; by left|].
           intros line Hl. apply elem_of_app. by left.
        -- replace (i + S j)%nat with (S i + j)%nat in Hr by lia.
           destruct (IH1 j block r l Hj Hr) as [Hin Hl].
           split; [apply elem_of_cons; by right|].
           intros line Hline. apply elem_of_app. right. by apply Hl.
      * intros r Hr. apply elem_of_cons in Hr as [->|Hr].
        -- exists 0%nat, b, l0. by rewrite Nat.add_0_r.
        -- destruct (IH2 r Hr) as (j & block & l & Hj & Hrec).
           exists (S j), block, l.
           replace (i + S j)%nat with (S i + j)%nat by lia. done.
      * intros line Hline. apply elem_of_app in Hline as [Hline|Hline].
        -- exists 0%nat, b, r0, l0. by rewrite Nat.add_0_r.
        -- destruct (IH3 line Hline) as (j & block & r & l & Hj & Hrec & Hl).
           exists (S j), block, r, l.
           replace (i + S j)%nat with (S i + j)%nat by lia. done.
    + split; [|split].
      * intros [|j] block r l Hj Hr; simpl in Hj.
        -- injection Hj as <-. rewrite Nat.add_0_r, Hb in Hr. done.
        -- replace (i + S j)%nat with (S i + j)%nat in Hr by lia.
           by apply (IH1 j block r l).
      * intros r Hr. destruct (IH2 r Hr) as (j & block & l & Hj & Hrec).
        exists (S j), block, l.
        replace (i + S j)%nat with (S i + j)%nat by lia. done.
      * intros line Hline.
        destruct (IH3 line Hline) as (j & block & r & l & Hj & Hrec & Hl).
        exists (S j), block, r, l.
        replace (i + S j)%nat with (S i + j)%nat by lia. done.
Qed.

End SocialFacts.

Section SocialFields.

Import SocialParse.

Variable isword : char → bool.

Lemma extract_section_strip (block tag : str) :
  strip (_extract_section isword block tag) = _extract_section isword block tag.
Proof.
  unfold _extract_section.
  destruct (Extract.search_group (section_at isword tag) block);
    [apply strip_strip|done].
Qed.

Lemma brief_of_strip (block : str) : strip (brief_of block) = brief_of block.
Proof.
  unfold brief_of.
  destruct (Extract.search_group brief_at block); [apply strip_strip|done].
Qed.

Lemma contains_app (sub a b : str) : contains sub (a ++ sub ++ b) = true.
Proof.
  induction a as [|c a IH]; simpl.
  - pose proof (startswith_app sub b) as H.
    destruct (sub ++ b); simpl; by rewrite H.
  - rewrite IH. apply orb_true_r.
Qed.

(** A block without the marker of a section has an empty section. *)
Lemma extract_section_missing (block tag : str) :
  contains (lit "---" ++ tag ++ lit "---") block = false →
  _extract_section isword block tag = [].
Proof.
  intros Hno. unfold _extract_section.
  destruct (Extract.search_group (section_at isword tag) block) as [g|] eqn:E;
    [|done].
  apply search_group_spec in E as (pre & suf & -> & Hat).
  unfold section_at in Hat.
  destruct (startswith (lit "---" ++ tag ++ lit "---") suf) eqn:Hs; [|done].
  apply startswith_spec in Hs as [r ->].
  by rewrite contains_app in Hno.
Qed.

Lemma post_record_heading (source_entries : list ShareEntry.t) (today : str)
    (i : nat) (block : str) (p : SocialPost.t) (l : list str) :
  post_record isword source_entries today i block = Some (p, l) →
  ∃ g rest,
    match_heading block = Some (g, rest) ∧ SocialPost.title p = strip g.
Proof.
  unfold post_record.
  destruct (match_heading block) as [[g rest]|]; [|done].
  destruct (match source_entries !! i with
            | Some e => ShareEntry.source_date e
            | None => []
            end); intros [= <- <-]; by exists g, rest.
Qed.

Lemma post_record_fields (source_entries : list ShareEntry.t) (today : str)
    (i : nat) (block : str) (p : SocialPost.t) (l : list str) :
  post_record isword source_entries today i block = Some (p, l) →
  strip (SocialPost.title p) = SocialPost.title p
  ∧ (nl ∉ SocialPost.title p)
  ∧ SocialPost.brief p = brief_of block
  ∧ SocialPost.twitter_cn p = _extract_section isword block (lit "twitter-cn")
  ∧ SocialPost.linkedin_en p
    = _extract_section isword block (lit "linkedin-en")
  ∧ SocialPost.youtube_shorts p
    = _extract_section isword block (lit "youtube-shorts")
  ∧ (today ≠ [] → SocialPost.source_date p ≠ []).
Proof.
  unfold post_record.
  destruct (match_heading block) as [[g rest]|] eqn:Hm; [|done].
  assert (nl ∉ strip g) as Hnl.
  { intros H. apply strip_elem in H. by apply match_heading_no_nl in Hm. }
  destruct (match source_entries !! i with
            | Some e => ShareEntry.source_date e
            | None => []
            end) eqn:Hd; intros [= <- <-]; simpl;
    (split; [apply strip_strip|]); repeat (split; [done|]); done.
Qed.

End SocialFields.

(** [_parse_social_posts] raises [SystemExit] when the artifact
    [02_social.md] is not there, and only then.  Every post that it
    returns is the post of a block of the artifact that opens with a
    heading: its title is the text of that heading, stripped, on one
    line; its brief and its three sections are those of that block,
    without whitespace around them; a section whose marker is not in the
    block is empty; and its date is not empty (today's date is not). *)
Theorem social_post_fields (isword : char → bool) (dir : gmap str str)
    (source_entries : list ShareEntry.t) (today : str) :
  today ≠ [] →
  match (SocialParse._parse_social_posts isword dir source_entries today).1 with
  | Raised e =>
      dir !! lit "02_social.md" = None
      ∧ e = SystemExit
              (lit "ERROR: 02_social.md not found. Run generate step first.")
  | Ok posts =>
      ∃ stored,
        dir !! lit "02_social.md" = Some stored
        ∧ ∀ p, p ∈ posts →
               SocialPost.source_date p ≠ []
               ∧ (nl ∉ SocialPost.title p)
               ∧ Forall (λ s, strip s = s)
                   [SocialPost.title p; SocialPost.brief p;
                    SocialPost.twitter_cn p; SocialPost.linkedin_en p;
                    SocialPost.youtube_shorts p]
               ∧ ∃ i block g rest,
                   SharePipeline.refined_blocks (read_text stored) !! i
                   = Some block
                   ∧ match_heading block = Some (g, rest)
                   ∧ SocialPost.title p = strip g
                   ∧ SocialPost.brief p = SocialParse.brief_of block
                   ∧ SocialPost.twitter_cn p
                     = SocialParse._extract_section isword block
                         (lit "twitter-cn")
                   ∧ SocialPost.linkedin_en p
                     = SocialParse._extract_section isword block
                         (lit "linkedin-en")
                   ∧ SocialPost.youtube_shorts p
                     = SocialParse._extract_section isword block
                         (lit "youtube-shorts")
                   ∧ (contains (lit "---twitter-cn---") block = false →
                      SocialPost.twitter_cn p = [])
                   ∧ (contains (lit "---linkedin-en---") block = false →
                      SocialPost.linkedin_en p = [])
                   ∧ (contains (lit "---youtube-shorts---") block = false →
                      SocialPost.youtube_shorts p = [])
  end.
Proof.
  intros Htoday. unfold SocialParse._parse_social_posts.
  destruct (dir !! lit "02_social.md") as [stored|]; [|done].
  pose proof (parse_posts_elem isword source_entries today
                (SharePipeline.refined_blocks (read_text stored)) 0)
    as (_ & H & _).
  destruct (SocialParse.parse_posts isword source_entries today 0
              (SharePipeline.refined_blocks (read_text stored)))
    as [posts lines].
  cbn [fst snd] in *. exists stored. split; [done|]. intros p Hp.
  destruct (H p Hp) as (j & block & l & Hj & Hrec).
  destruct (post_record_heading isword _ _ _ _ _ _ Hrec)
    as (g & rest & Hm & Hg).
  apply post_record_fields in Hrec as (Ht & Hnl & Hbr & Htw & Hli & Hyt & Hd).
  split; [by apply Hd|]. split; [done|]. split.
  - rewrite Hbr, Htw, Hli, Hyt.
    repeat constructor; auto using extract_section_strip, brief_of_strip.
  - exists j, block, g, rest. do 7 (split; [done|]).
    rewrite Htw, Hli, Hyt. split; [|split].
    + apply (extract_section_missing isword block (lit "twitter-cn")).
    + apply (extract_section_missing isword block (lit "linkedin-en")).
    + apply (extract_section_missing isword block (lit "youtube-shorts")).
Qed.

(** An artifact of one block that has no LinkedIn section. *)
Lemma social_post_fields_witness :
  ∃ p,
    (SocialParse._parse_social_posts SocialParse.ascii_word
       (social_dir social_block) [entry_dated (lit "2024-01-08")]
       (lit "2024-02-01")).1
    = Ok [p]
    ∧ SocialPost.source_date p ≠ []
    ∧ ∃ block,
        block ∈ SharePipeline.refined_blocks (read_text social_block)
        ∧ SocialPost.twitter_cn p
          = SocialParse._extract_section SocialParse.ascii_word block
              (lit "twitter-cn").
Proof.
  pose proof (social_post_fields SocialParse.ascii_word
                (social_dir social_block) [entry_dated (lit "2024-01-08")]
                (lit "2024-02-01")) as H.
  destruct (SocialParse._parse_social_posts SocialParse.ascii_word
              (social_dir social_block) [entry_dated (lit "2024-01-08")]
              (lit "2024-02-01")).1 as [posts|e] eqn:E.
  - destruct posts as [|p [|q posts]]; [by vm_compute in E| |by vm_compute in E].
    exists p. split; [done|].
    destruct H as (stored & Hs & H); [done|].
    unfold social_dir in Hs. rewrite lookup_singleton_eq in Hs.
    injection Hs as <-.
    destruct (H p) as (Hd & _ & _ & i & block & g & rest & Hi & _ & _ & _
                       & Htw & _); [apply elem_of_cons; by left|].
    split; [done|]. exists block. split; [|done].
    by apply list_elem_of_lookup_2 in Hi.
  - by vm_compute in E.
Defined.

(** Dates by position in [_parse_social_posts], when the artifact is
    there.  The post of a headed block at position [i] carries the
    [source_date] of the entry at position [i]; when that date is empty or
    when there is no entry at that position it carries today's date, and
    the warning with its title is printed; no other line is printed.  A
    block without heading gives no post but keeps its position.  With
    headed blocks only there is one post for every block, in the order of
    the blocks. *)
Theorem social_posts_by_position (isword : char → bool)
    (dir : gmap str str) (stored today : str)
    (source_entries : list ShareEntry.t) :
  dir !! lit "02_social.md" = Some stored →
  let blocks := SharePipeline.refined_blocks (read_text stored) in
  ∃ posts lines,
    SocialParse._parse_social_posts isword dir source_entries today
    = (Ok posts, lines)
    ∧ (∀ p, p ∈ posts →
            ∃ i block l,
              blocks !! i = Some block
              ∧ SocialParse.post_record isword source_entries today i block
                = Some (p, l))
    ∧ (∀ i block,
          blocks !! i = Some block →
          is_Some (match_heading block) →
          ∃ p l,
            SocialParse.post_record isword source_entries today i block
            = Some (p, l)
            ∧ p ∈ posts
            ∧ match source_entries !! i with
              | Some (ShareEntry.mk _ _ _ (c :: d)) =>
                  SocialPost.source_date p = c :: d ∧ l = []
              | _ =>
                  SocialPost.source_date p = today
                  ∧ l = [SocialParse.no_date_warning (SocialPost.title p)]
                  ∧ SocialParse.no_date_warning (SocialPost.title p) ∈ lines
              end)
    ∧ (∀ line, line ∈ lines →
               ∃ i block p,
                 blocks !! i = Some block
                 ∧ SocialParse.post_record isword source_entries today i block
                   = Some (p, [line])
                 ∧ p ∈ posts
                 ∧ line = SocialParse.no_date_warning (SocialPost.title p)
                 ∧ SocialPost.source_date p = today
                 ∧ ∀ e, source_entries !! i = Some e →
                        ShareEntry.source_date e = [])
    ∧ (Forall (λ b, is_Some (match_heading b)) blocks →
       length posts = length blocks
       ∧ ∀ i block,
           blocks !! i = Some block →
           ∃ p l,
             SocialParse.post_record isword source_entries today i block
             = Some (p, l)
             ∧ posts !! i = Some p).
Proof.
  intros Hdir blocks. unfold SocialParse._parse_social_posts. rewrite Hdir.
  fold blocks.
  pose proof (parse_posts_elem isword source_entries today blocks 0)
    as (H1 & H2 & H4).
  pose proof (parse_posts_headed isword source_entries today blocks 0) as H3.
  destruct (SocialParse.parse_posts isword source_entries today 0 blocks)
    as [posts lines].
  cbn [fst snd] in *. exists posts, lines. split; [done|].
  split; [exact H2|]. split; [|split; [|exact H3]].
  - intros i block Hb Hh.
    destruct (post_record_some isword source_entries today i block Hh)
      as [[p l] Hr].
    destruct (H1 i block p l Hb Hr) as [Hin Hl].
    exists p, l. split; [done|]. split; [done|].
    apply post_record_date in Hr.
    destruct (source_entries !! i) as [[t b f [|c d]]|]; cbn in Hr |- *;
      destruct Hr as [Hd ->]; split; try done;
      (split; [done|]); apply Hl; apply elem_of_cons; by left.
  - intros line Hline.
    destruct (H4 line Hline) as (j & block & p & l & Hj & Hrec & Hin).
    destruct (H1 j block p l Hj Hrec) as [Hp _].
    change (0 + j)%nat with j in *.
    pose proof (post_record_date _ _ _ _ _ _ _ Hrec) as Hd.
    exists j, block, p.
    destruct (source_entries !! j) as [e|].
    + destruct (ShareEntry.source_date e) eqn:He; rewrite ?He in Hd.
      * destruct Hd as [Hd ->]. apply list_elem_of_singleton in Hin as ->.
        do 5 (split; [done|]). by intros ? [= <-].
      * destruct Hd as [_ ->]. by apply elem_of_nil in Hin.
    + destruct Hd as [Hd ->]. apply list_elem_of_singleton in Hin as ->.
      do 5 (split; [done|]). done.
Qed.

(** Two blocks for one entry: the second post falls back to today, and
    its warning is printed. *)
Lemma social_posts_by_position_witness :
  ∃ posts lines,
    SocialParse._parse_social_posts SocialParse.ascii_word
      (social_dir two_blocks) [entry_dated (lit "2024-01-08")]
      (lit "2024-02-01")
    = (Ok posts, lines)
    ∧ ∃ p, p ∈ posts
           ∧ SocialPost.source_date p = lit "2024-02-01"
           ∧ SocialParse.no_date_warning (SocialPost.title p) ∈ lines.
Proof.
  destruct (social_posts_by_position SocialParse.ascii_word
              (social_dir two_blocks) two_blocks (lit "2024-02-01")
              [entry_dated (lit "2024-01-08")])
    as (posts & lines & Hp & _ & Hpos & _).
  { apply lookup_singleton_eq. }
  exists posts, lines. split; [exact Hp|].
  destruct (Hpos 1%nat (lit "## B" ++ [nl] ++ lit "more"))
    as (p & l & _ & Hin & Hd & _ & Hw).
  - reflexivity.
  - vm_compute. eauto.
  - exists p. split; [exact Hin|]. split; [exact Hd|exact Hw].
Defined.

(** ** Sorting, as [sorted] does it *)

Section SortFacts.

Import Transcripts.

Context {A : Type}.
Variable le : A → A → bool.

Lemma insert_by_perm (x : A) (l : list A) : insert_by le x l ≡ₚ x :: l.
Proof.
  induction l as [|y l IH]; simpl; [done|].
  destruct (le x y); [done|]. rewrite IH. apply Permutation_swap.
Qed.

Lemma sorted_by_perm (l : list A) : sorted_by le l ≡ₚ l.
Proof.
  induction l as [|x l IH]; simpl; [done|].
  by rewrite insert_by_perm, IH.
Qed.

Lemma insert_by_sorted (x : A) (l : list A) :
  (∀ a b, le a b = true ∨ le b a = true) →
  Sorted (λ a b, le a b = true) l →
  Sorted (λ a b, le a b = true) (insert_by le x l).
Proof.
  intros Htotal. induction 1 as [|y l Hl IH Hhd]; simpl.
  - repeat constructor.
  - destruct (le x y) eqn:E.
    + constructor; [by constructor|]. by constructor.
    + constructor; [done|].
      assert (le y x = true) as Hyx by (destruct (Htotal x y); congruence).
      destruct l as [|z l]; simpl; [by constructor|].
      destruct (le x z); constructor; [done|]. by inversion Hhd.
Qed.

Lemma sorted_by_sorted (l : list A) :
  (∀ a b, le a b = true ∨ le b a = true) →
  Sorted (λ a b, le a b = true) (sorted_by le l).
Proof.
  intros Htotal. induction l as [|x l IH]; simpl; [constructor|].
  by apply insert_by_sorted.
Qed.

End SortFacts.

Section OrderFacts.

Import Transcripts.

Lemma str_leb_refl (a : str) : str_leb a a = true.
Proof. induction a as [|x a IH]; simpl; [done|]. by rewrite N.eqb_refl. Qed.

Lemma str_leb_total (a b : str) : str_leb a b = true ∨ str_leb b a = true.
Proof.
  revert b. induction a as [|x a IH]; intros [|y b]; simpl; auto.
  rewrite (N.eqb_sym y x). destruct (x =? y) eqn:E; [apply IH|].
  apply N.eqb_neq in E.
  destruct (N.ltb_spec x y); [by left|]. right. apply N.ltb_lt. lia.
Qed.

Lemma key_leb_total (a b : str * str * N) :
  key_leb a b = true ∨ key_leb b a = true.
Proof.
  unfold key_leb, eqb_str.
  destruct (decide (a.1.1 = b.1.1)) as [Heq|Hne].
  - rewrite !bool_decide_eq_true_2 by done.
    destruct (N.leb_spec a.2 b.2); [by left|]. right. apply N.leb_le. lia.
  - rewrite !bool_decide_eq_false_2 by done. apply str_leb_total.
Qed.

Lemma key_leb_time (a b : str * str * N) :
  key_leb a b = true → str_leb a.1.1 b.1.1 = true.
Proof.
  unfold key_leb, eqb_str. case_bool_decide as Heq; [|done].
  intros _. rewrite Heq. apply str_leb_refl.
Qed.

Lemma Sorted_map {B C : Type} (R : B → B → Prop) (R' : C → C → Prop)
    (f : B → C) (l : list B) :
  (∀ a b, R a b → R' (f a) (f b)) →
  Sorted R l → Sorted R' (List.map f l).
Proof.
  intros Hf. induction 1 as [|x l Hl IH Hhd]; simpl; constructor; [done|].
  destruct Hhd; simpl; constructor. by apply Hf.
Qed.

End OrderFacts.

(** ** [extract_timestamp] and [group_transcripts_by_date] *)

Section TranscriptFacts.

Import Transcripts.

Variable isdecimal : char → bool.
Variable digit_value : char → N.

Lemma search_first_spec {A : Type} (m : str → option A) (s : str) (g : A) :
  search_first m s = Some g → ∃ pre suf, s = pre ++ suf ∧ m suf = Some g.
Proof.
  induction s as [|c s IH]; simpl.
  - destruct (m []) eqn:E; [|done]. intros [= ->]. by exists [], [].
  - destruct (m (c :: s)) eqn:E.
    + intros [= ->]. by exists [], (c :: s).
    + intros H. destruct (IH H) as (pre & suf & -> & Hm).
      by exists (c :: pre), suf.
Qed.

Lemma date_of_digits (y1 y2 y3 y4 mo1 mo2 d1 d2 : char) :
  all_decimal isdecimal [y1; y2; y3; y4; mo1; mo2; d1; d2] = true →
  Extract.date_at isdecimal [y1; y2; y3; y4; 45; mo1; mo2; 45; d1; d2]
  = Some [y1; y2; y3; y4; 45; mo1; mo2; 45; d1; d2].
Proof.
  unfold all_decimal. cbn [forallb]. intros H.
  repeat (apply andb_true_iff in H as [? H]).
  unfold Extract.date_at. cbn [take].
  repeat match goal with Hd : isdecimal _ = true |- _ => rewrite Hd; clear Hd end.
  done.
Qed.

Lemma full_at_shape (s date time : str) :
  full_at isdecimal s = Some (date, time) →
  Extract.date_at isdecimal date = Some date
  ∧ length time = 8%nat ∧ time !! 2%nat = Some 58 ∧ time !! 5%nat = Some 58.
Proof.
  unfold full_at.
  destruct s as [|y1 [|y2 [|y3 [|y4 [|mo1 [|mo2 [|d1 [|d2 [|u [|h1 [|h2
                [|mi1 [|mi2 [|s1 [|s2 s]]]]]]]]]]]]]]]; try done.
  destruct (all_decimal isdecimal [y1; y2; y3; y4; mo1; mo2; d1; d2]) eqn:E;
    cbn [andb]; [|done].
  destruct ((u =? 95) && all_decimal isdecimal [h1; h2; mi1; mi2; s1; s2]);
    [|done].
  intros [= <- <-]. split; [by apply date_of_digits|done].
Qed.

Lemma date_only_at_shape (s date : str) (seq : N) :
  date_only_at isdecimal digit_value s = Some (date, seq) →
  Extract.date_at isdecimal date = Some date.
Proof.
  unfold date_only_at.
  destruct s as [|y1 [|y2 [|y3 [|y4 [|mo1 [|mo2 [|d1 [|d2 [|h s]]]]]]]]];
    try done.
  destruct (all_decimal isdecimal [y1; y2; y3; y4; mo1; mo2; d1; d2]) eqn:E;
    cbn [andb]; [|done].
  destruct (h =? 45); [|done].
  destruct (take_while isdecimal s); [done|].
  intros [= <- <-]. by apply date_of_digits.
Qed.

(** The first match: no position in front of it matches. *)
Lemma search_first_first {A : Type} (m : str → option A) (s : str) (g : A) :
  search_first m s = Some g →
  ∃ pre suf,
    s = pre ++ suf ∧ m suf = Some g
    ∧ ∀ pre' suf', s = pre' ++ suf' → (length pre' < length pre)%nat →
                   m suf' = None.
Proof.
  induction s as [|c s IH]; simpl.
  - destruct (m []) eqn:E; [|done]. intros [= ->]. exists [], [].
    split; [done|]. split; [done|]. intros pre' suf' _ H. simpl in H. lia.
  - destruct (m (c :: s)) eqn:E.
    + intros [= ->]. exists [], (c :: s). split; [done|]. split; [done|].
      intros pre' suf' _ H. simpl in H. lia.
    + intros H. destruct (IH H) as (pre & suf & -> & Hm & Hfirst).
      exists (c :: pre), suf. split; [done|]. split; [done|].
      intros [|c' pre'] suf' Heq Hlen; simpl in Heq.
      * by subst suf'.
      * injection Heq as -> Heq. apply (Hfirst pre' suf' Heq).
        simpl in Hlen. lia.
Qed.

Lemma search_first_none {A : Type} (m : str → option A) (s : str) :
  search_first m s = None → ∀ pre suf, s = pre ++ suf → m suf = None.
Proof.
  induction s as [|c s IH]; simpl.
  - destruct (m []) eqn:E; [done|]. intros _ pre suf H.
    symmetry in H. apply app_eq_nil in H as [_ ->]. done.
  - destruct (m (c :: s)) eqn:E; [done|]. intros H [|c' pre] suf Heq.
    + simpl in Heq. by subst suf.
    + injection Heq as -> Heq. by apply (IH H pre).
Qed.

Lemma all_decimal_Forall (l : str) :
  all_decimal isdecimal l = true ↔ Forall (λ c, isdecimal c = true) l.
Proof.
  unfold all_decimal. rewrite forallb_forall, Forall_forall.
  split; intros H c Hc; apply H; by apply list_elem_of_In.
Qed.

Lemma take_while_spec (p : char → bool) (s : str) :
  ∃ rest,
    s = take_while p s ++ rest
    ∧ Forall (λ c, p c = true) (take_while p s)
    ∧ ∀ c rest', rest = c :: rest' → p c = false.
Proof.
  induction s as [|a s (rest & Heq & Hall & Hstop)]; simpl.
  - exists []. split; [done|]. split; [constructor|]. done.
  - destruct (p a) eqn:E.
    + exists rest. split; [simpl; by f_equal|]. split; [by constructor|done].
    + exists (a :: s). split; [done|]. split; [constructor|].
      by intros c rest' [= <- _].
Qed.

Lemma full_at_inv (s date time : str) :
  full_at isdecimal s = Some (date, time) →
  ∃ y1 y2 y3 y4 mo1 mo2 d1 d2 h1 h2 mi1 mi2 s1 s2 suf,
    s = [y1; y2; y3; y4; mo1; mo2; d1; d2] ++ [95]
        ++ [h1; h2; mi1; mi2; s1; s2] ++ suf
    ∧ Forall (λ c, isdecimal c = true) [y1; y2; y3; y4; mo1; mo2; d1; d2]
    ∧ Forall (λ c, isdecimal c = true) [h1; h2; mi1; mi2; s1; s2]
    ∧ date = [y1; y2; y3; y4; 45; mo1; mo2; 45; d1; d2]
    ∧ time = [h1; h2; 58; mi1; mi2; 58; s1; s2].
Proof.
  unfold full_at.
  destruct s as [|y1 [|y2 [|y3 [|y4 [|mo1 [|mo2 [|d1 [|d2 [|u [|h1 [|h2
                [|mi1 [|mi2 [|s1 [|s2 s]]]]]]]]]]]]]]]; try done.
  destruct (all_decimal isdecimal [y1; y2; y3; y4; mo1; mo2; d1; d2]) eqn:E;
    cbn [andb]; [|done].
  destruct (u =? 95) eqn:Eu; cbn [andb]; [|done].
  destruct (all_decimal isdecimal [h1; h2; mi1; mi2; s1; s2]) eqn:E'; [|done].
  intros [= <- <-]. apply N.eqb_eq in Eu as ->.
  exists y1, y2, y3, y4, mo1, mo2, d1, d2, h1, h2, mi1, mi2, s1, s2, s.
  split; [done|]. split; [by apply all_decimal_Forall|].
  split; [by apply all_decimal_Forall|done].
Qed.

Lemma date_only_at_inv (s date : str) (seq : N) :
  date_only_at isdecimal digit_value s = Some (date, seq) →
  ∃ y1 y2 y3 y4 mo1 mo2 d1 d2 digits rest,
    s = [y1; y2; y3; y4; mo1; mo2; d1; d2] ++ [45] ++ digits ++ rest
    ∧ Forall (λ c, isdecimal c = true) [y1; y2; y3; y4; mo1; mo2; d1; d2]
    ∧ digits ≠ []
    ∧ Forall (λ c, isdecimal c = true) digits
    ∧ (∀ c rest', rest = c :: rest' → isdecimal c = false)
    ∧ date = [y1; y2; y3; y4; 45; mo1; mo2; 45; d1; d2]
    ∧ seq = int_of digit_value digits.
Proof.
  unfold date_only_at.
  destruct s as [|y1 [|y2 [|y3 [|y4 [|mo1 [|mo2 [|d1 [|d2 [|h s]]]]]]]]];
    try done.
  destruct (all_decimal isdecimal [y1; y2; y3; y4; mo1; mo2; d1; d2]) eqn:E;
    cbn [andb]; [|done].
  destruct (h =? 45) eqn:Hh; [|done]. apply N.eqb_eq in Hh as ->.
  destruct (take_while_spec isdecimal s) as (rest & Heq & Hall & Hstop).
  destruct (take_while isdecimal s) as [|c digits] eqn:Hw; [done|].
  intros [= <- <-].
  exists y1, y2, y3, y4, mo1, mo2, d1, d2, (c :: digits), rest.
  split; [simpl; by rewrite Heq at 1|].
  split; [by apply all_decimal_Forall|]. done.
Qed.

End TranscriptFacts.

(** What [extract_timestamp] returns for a file name.  The date has the
    form [dddd-dd-dd] of the dates of the share scripts.  Either the name
    holds a full timestamp, eight digits, an underscore and six digits,
    the first one when there are several: then the date is made of the
    eight digits, the time is [dd:dd:dd] made of the six digits and the
    sequence number is 0.  Or the name holds no full timestamp and starts
    with eight digits, a hyphen and a run of digits that is not empty and
    ends where the digits end: then the date is made of the eight digits,
    the time is [00:00:00] and the sequence number is the value of the
    run. *)
Theorem extract_timestamp_shape (isdecimal : char → bool)
    (digit_value : char → N) (filename date time : str) (seq : N) :
  Transcripts.extract_timestamp isdecimal digit_value filename
  = Some (date, time, seq) →
  Extract.date_at isdecimal date = Some date
  ∧ ∃ y1 y2 y3 y4 mo1 mo2 d1 d2,
      date = [y1; y2; y3; y4; 45; mo1; mo2; 45; d1; d2]
      ∧ Forall (λ c, isdecimal c = true) [y1; y2; y3; y4; mo1; mo2; d1; d2]
      ∧ ((∃ pre h1 h2 mi1 mi2 s1 s2 suf,
            filename = pre ++ [y1; y2; y3; y4; mo1; mo2; d1; d2] ++ [95]
                       ++ [h1; h2; mi1; mi2; s1; s2] ++ suf
            ∧ Forall (λ c, isdecimal c = true) [h1; h2; mi1; mi2; s1; s2]
            ∧ time = [h1; h2; 58; mi1; mi2; 58; s1; s2]
            ∧ seq = 0
            ∧ ∀ pre' suf',
                filename = pre' ++ suf' → (length pre' < length pre)%nat →
                Transcripts.full_at isdecimal suf' = None)
         ∨ ((∀ pre suf, filename = pre ++ suf →
                        Transcripts.full_at isdecimal suf = None)
            ∧ ∃ digits rest,
                filename = [y1; y2; y3; y4; mo1; mo2; d1; d2] ++ [45]
                           ++ digits ++ rest
                ∧ digits ≠ []
                ∧ Forall (λ c, isdecimal c = true) digits
                ∧ (∀ c rest', rest = c :: rest' → isdecimal c = false)
                ∧ time = lit "00:00:00"
                ∧ seq = Transcripts.int_of digit_value digits)).
Proof.
  unfold Transcripts.extract_timestamp.
  destruct (Transcripts.search_first (Transcripts.full_at isdecimal) filename)
    as [[d t]|] eqn:Hfull.
  - intros [= <- <- <-].
    apply search_first_first in Hfull as (pre & suf & -> & Hat & Hfirst).
    destruct (full_at_shape isdecimal suf d t Hat) as (H1 & _).
    split; [done|].
    destruct (full_at_inv isdecimal suf d t Hat)
      as (y1 & y2 & y3 & y4 & mo1 & mo2 & d1 & d2 & h1 & h2 & mi1 & mi2
          & s1 & s2 & suf' & -> & Hd & Ht & -> & ->).
    exists y1, y2, y3, y4, mo1, mo2, d1, d2.
    split; [done|]. split; [done|]. left.
    exists pre, h1, h2, mi1, mi2, s1, s2, suf'. done.
  - destruct (Transcripts.date_only_at isdecimal digit_value filename)
      as [[d q]|] eqn:Hd; [|done].
    intros [= <- <- <-].
    pose proof (date_only_at_shape isdecimal digit_value filename d q Hd) as H1.
    split; [done|].
    destruct (date_only_at_inv isdecimal digit_value filename d q Hd)
      as (y1 & y2 & y3 & y4 & mo1 & mo2 & d1 & d2 & digits & rest
          & -> & Hall & Hne & Hdig & Hstop & -> & ->).
    exists y1, y2, y3, y4, mo1, mo2, d1, d2.
    split; [done|]. split; [done|]. right. split.
    + by apply search_first_none.
    + by exists digits, rest.
Qed.

(** A recorder name and a voice memo name. *)
Lemma extract_timestamp_shape_witness :
  Transcripts.extract_timestamp Extract.ascii_digit Transcripts.ascii_value
    (lit "TX00_MIC031_20260212_175200_orig.wav")
  = Some (lit "2026-02-12", lit "17:52:00", 0)
  ∧ Transcripts.extract_timestamp Extract.ascii_digit Transcripts.ascii_value
      (lit "20260212-12.wav")
    = Some (lit "2026-02-12", lit "00:00:00", 12)
  ∧ Extract.date_at Extract.ascii_digit (lit "2026-02-12")
    = Some (lit "2026-02-12").
Proof.
  split; [by vm_compute|]. split; [by vm_compute|].
  apply (extract_timestamp_shape Extract.ascii_digit Transcripts.ascii_value
           (lit "20260212-12.wav") (lit "2026-02-12") (lit "00:00:00") 12).
  by vm_compute.
Defined.

Section GroupingFacts.

Import Transcripts.

Variable isdecimal : char → bool.
Variable digit_value : char → N.

Lemma extract_timestamp_date (filename date time : str) (seq : N) :
  extract_timestamp isdecimal digit_value filename = Some (date, time, seq) →
  Extract.date_at isdecimal date = Some date.
Proof.
  unfold extract_timestamp.
  destruct (search_first (full_at isdecimal) filename) as [[d t]|] eqn:Hfull.
  - intros [= <- <- <-].
    apply search_first_spec in Hfull as (pre & suf & _ & Hat).
    by destruct (full_at_shape isdecimal suf d t Hat).
  - destruct (date_only_at isdecimal digit_value filename) as [[d q]|] eqn:Hd;
      [|done].
    intros [= <- <- <-]. by eapply date_only_at_shape.
Qed.

(** A file gives an item exactly when its name has a timestamp and its
    text is not blank. *)
Lemma see_item (name content date : str) (entry : str * str * N) :
  see isdecimal digit_value (name, content) = Item date entry
  ↔ extract_timestamp isdecimal digit_value name
    = Some (date, entry.1.1, entry.2)
    ∧ entry.1.2 = content ∧ strip content ≠ [].
Proof.
  unfold see. destruct entry as [[t c] q]. simpl.
  destruct (extract_timestamp isdecimal digit_value name) as [[[d t'] q']|].
  - destruct (strip content) eqn:E.
    + split; [done|]. by intros (_ & _ & ?).
    + split.
      * intros [= -> -> -> ->]. done.
      * intros ([= -> -> ->] & -> & _). done.
  - split; [done|]. by intros [? _].
Qed.

Lemma dates_fold (l : list seen) :
  ∀ ks,
    NoDup ks →
    let r := foldl (λ ks s, match s with
                            | Item date _ =>
                                if bool_decide (date ∈ ks) then ks
                                else ks ++ [date]
                            | _ => ks
                            end) ks l in
    NoDup r ∧ ∀ d, d ∈ r ↔ d ∈ ks ∨ ∃ e, Item d e ∈ l.
Proof.
  induction l as [|s l IH]; intros ks Hks; simpl.
  - split; [done|]. intros d. split; [by left|].
    intros [?|[e He]]; [done|]. by apply elem_of_nil in He.
  - assert (∀ ks', NoDup ks' →
                   (∀ d, d ∈ ks' ↔ d ∈ ks ∨ ∃ e, s = Item d e) →
                   let r := foldl (λ ks s, match s with
                                           | Item date _ =>
                                               if bool_decide (date ∈ ks)
                                               then ks else ks ++ [date]
                                           | _ => ks
                                           end) ks' l in
                   NoDup r ∧ ∀ d, d ∈ r ↔ d ∈ ks ∨ ∃ e, Item d e ∈ s :: l)
      as Hstep.
    { intros ks' Hnd Hks'. destruct (IH ks' Hnd) as [Hr Hin].
      split; [done|]. intros d. rewrite Hin, Hks'. split.
      - intros [[?|[e ->]]|[e He]]; [by left| |].
        + right. exists e. apply elem_of_cons. by left.
        + right. exists e. apply elem_of_cons. by right.
      - intros [?|[e [Hs|He]%elem_of_cons]]; [by left; left| |].
        + left. right. by exists e.
        + right. by exists e. }
    destruct s as [n|n|date e].
    + apply Hstep; [done|]. intros d. split; [by left|].
      by intros [?|[e ?]].
    + apply Hstep; [done|]. intros d. split; [by left|].
      by intros [?|[e ?]].
    + case_bool_decide as Hin.
      * apply Hstep; [done|]. intros d. split; [by left|].
        intros [?|[e' [= -> _]]]; done.
      * apply Hstep.
        -- apply NoDup_app. split; [done|]. split; [|apply NoDup_singleton].
           intros x Hx Hx'%list_elem_of_singleton. by subst.
        -- intros d. rewrite elem_of_app, list_elem_of_singleton. split.
           ++ intros [?| ->]; [by left|]. right. by exists e.
           ++ intros [?|[e' [= -> _]]]; [by left|by right].
Qed.

Lemma dates_seen_spec (l : list seen) :
  NoDup (dates_seen l) ∧ ∀ d, d ∈ dates_seen l ↔ ∃ e, Item d e ∈ l.
Proof.
  destruct (dates_fold l [] (NoDup_nil_2)) as [Hnd Hin].
  split; [exact Hnd|]. intros d. unfold dates_seen. rewrite Hin.
  split; [|by right]. intros [H|?]; [by apply elem_of_nil in H|done].
Qed.

Lemma entries_of_spec (date : str) (l : list seen) (e : str * str * N) :
  e ∈ entries_of date l ↔ Item date e ∈ l.
Proof.
  unfold entries_of. rewrite list_elem_of_omap. split.
  - intros ([n|n|d e'] & Hin & H); try done.
    unfold eqb_str in H. case_bool_decide as Hd; [|done].
    injection H as <-. by subst.
  - intros H. exists (Item date e). split; [done|].
    unfold eqb_str. by rewrite bool_decide_eq_true_2.
Qed.

End GroupingFacts.

(** The groups of [group_transcripts_by_date]: the dates are pairwise
    different and in ascending order; every date has the form
    [dddd-dd-dd]; no group is empty; and the entries of a group are in
    ascending order of their times. *)
Theorem transcript_groups_are_ordered (isdecimal : char → bool)
    (digit_value : char → N) (listing : option (list (str * str))) :
  let groups :=
    (Transcripts.group_transcripts_by_date isdecimal digit_value listing).1 in
  NoDup groups.*1
  ∧ Sorted (λ a b, Transcripts.str_leb a b = true) groups.*1
  ∧ Forall (λ g : str * list (str * str),
              Extract.date_at isdecimal g.1 = Some g.1
              ∧ g.2 ≠ []
              ∧ Sorted (λ a b : str * str,
                          Transcripts.str_leb a.1 b.1 = true) g.2)
      groups.
Proof.
  intros groups. unfold groups, Transcripts.group_transcripts_by_date.
  destruct listing as [files|]; cbn [fst].
  2:{ split; [constructor|]. split; constructor. }
  set (l := List.map (Transcripts.see isdecimal digit_value) files).
  destruct (dates_seen_spec l) as [Hnd Hin].
  assert (∀ (f : str → list (str * str)) ds,
            (List.map (λ date, (date, f date)) ds).*1 = ds) as Hfst.
  { intros f ds. induction ds as [|d ds IH]; [done|]. csimpl. by rewrite IH. }
  rewrite Hfst. split; [|split].
  - by rewrite sorted_by_perm.
  - apply sorted_by_sorted, str_leb_total.
  - apply Forall_forall. intros g Hg.
    apply list_elem_of_In, in_map_iff in Hg as (date & <- & Hdate).
    apply list_elem_of_In in Hdate. rewrite sorted_by_perm in Hdate.
    apply Hin in Hdate as [e He]. cbn [fst snd]. split; [|split].
    + apply list_elem_of_In, in_map_iff in He as ([name content] & Hsee & _).
      apply see_item in Hsee as (Hts & _).
      by eapply extract_timestamp_date.
    + apply entries_of_spec in He.
      intros Hnil. apply map_eq_nil in Hnil.
      rewrite <- (sorted_by_perm Transcripts.key_leb) in He.
      rewrite Hnil in He. by apply elem_of_nil in He.
    + apply (Sorted_map (λ a b, Transcripts.key_leb a b = true)).
      * intros a b. apply key_leb_time.
      * apply sorted_by_sorted, key_leb_total.
Qed.

(** The groups hold the usable files and nothing else: an entry with a
    time and a text stands in the group of a date exactly when a listed
    file has that text, a name with the timestamp of that date and time,
    and a text that is not blank. *)
Theorem transcript_groups_hold_the_files (isdecimal : char → bool)
    (digit_value : char → N) (files : list (str * str))
    (date time content : str) :
  let groups :=
    (Transcripts.group_transcripts_by_date isdecimal digit_value
       (Some files)).1 in
  (∃ entries, (date, entries) ∈ groups ∧ (time, content) ∈ entries)
  ↔ ∃ name seq,
      (name, content) ∈ files
      ∧ Transcripts.extract_timestamp isdecimal digit_value name
        = Some (date, time, seq)
      ∧ strip content ≠ [].
Proof.
  intros groups. unfold groups, Transcripts.group_transcripts_by_date.
  cbn [fst].
  set (l := List.map (Transcripts.see isdecimal digit_value) files).
  destruct (dates_seen_spec l) as [Hnd Hin].
  assert (∀ q, Transcripts.Item date (time, content, q) ∈ l
               ↔ ∃ name, (name, content) ∈ files
                         ∧ Transcripts.extract_timestamp isdecimal
                             digit_value name = Some (date, time, q)
                         ∧ strip content ≠ []) as Hitem.
  { intros q. unfold l. rewrite list_elem_of_In, in_map_iff. split.
    - intros ([name c] & Hsee & Hf). apply see_item in Hsee as (H1 & H2 & H3).
      simpl in *. subst c. exists name. by rewrite list_elem_of_In.
    - intros (name & Hf & H1 & H2). exists (name, content).
      split; [|by apply list_elem_of_In]. by apply see_item. }
  split.
  - intros (entries & Hg & He).
    apply list_elem_of_In, in_map_iff in Hg as (d & [= -> <-] & _).
    apply list_elem_of_In, in_map_iff in He as ([[t c] q] & [= -> ->] & He).
    apply list_elem_of_In in He. rewrite sorted_by_perm in He.
    apply entries_of_spec, Hitem in He as (name & ?). by exists name, q.
  - intros (name & q & H).
    assert (Transcripts.Item date (time, content, q) ∈ l) as Hl.
    { apply Hitem. by exists name. }
    eexists. split.
    + apply list_elem_of_In, in_map_iff. exists date. split; [done|].
      apply list_elem_of_In. rewrite sorted_by_perm. apply Hin. by eexists.
    + apply list_elem_of_In, in_map_iff. exists (time, content, q).
      split; [done|]. apply list_elem_of_In. rewrite sorted_by_perm.
      by apply entries_of_spec.
Qed.

(** ** The command lines *)

Section PrintFacts.

Import Remote.

Lemma print_sent (line : str) (w : world) : sent (print line w) = sent w.
Proof. reflexivity. Qed.

Lemma prints_sent (lines : list str) (w : world) :
  sent (prints lines w) = sent w.
Proof.
  revert w. induction lines as [|l lines IH]; intros w; [done|].
  unfold prints in *. simpl. by rewrite IH.
Qed.

Variable service : nat → outcome.

(** A stage of a share script: it sends the requests of one call, it
    writes its artifact and no other file, and it writes nothing when it
    raises. *)
Lemma stage_run_effects (input output missing announce empty : str)
    (w : world) (dir : gmap str str) :
  let r := Stage.run service input output missing announce empty w dir in
  (sent w ≤ sent r.1.2 ≤ sent w + Config.MAX_RETRIES)%nat
  ∧ (∀ n, is_Some (dir !! n) → is_Some (r.2 !! n))
  ∧ (∀ n, n ≠ output → r.2 !! n = dir !! n)
  ∧ (∀ e, r.1.1 = Raised e →
          r.2 = dir ∧ (e = SystemExit missing ∨ e = SystemExit empty)).
Proof.
  unfold Stage.run. destruct (dir !! input) as [stored|]; cbn [fst snd].
  2:{ split; [lia|]. split; [done|]. split; [done|].
      intros e [= <-]. auto. }
  unfold _call_claude.
  destruct (attempt_loop_effects service (read_text stored)
              (seq 0 Config.MAX_RETRIES) (print announce w))
    as (t & Ht & Hle & _).
  destruct (attempt_loop service (read_text stored) (seq 0 Config.MAX_RETRIES)
              (print announce w)) as [[text flag] w'].
  cbn [snd] in Ht. subst w'. cbn [print emit sent] in *.
  destruct text as [|c text]; cbn [fst snd sent].
  - split; [unfold Config.MAX_RETRIES in *; simpl in Hle; lia|]. split; [done|]. split; [done|].
    intros e [= <-]. auto.
  - split; [unfold Config.MAX_RETRIES in *; simpl in Hle; lia|]. split; [|split; [|done]].
    + intros n Hn. destruct (decide (output = n)) as [->|Hne].
      * rewrite lookup_insert_eq. by eexists.
      * by rewrite lookup_insert_ne.
    + intros n Hne. by rewrite lookup_insert_ne.
Qed.

(** A stage whose input is there stops only on an empty answer, and a
    stage that returns has written its artifact, not empty. *)
Lemma stage_run_outcome (input output missing announce empty : str)
    (w : world) (dir : gmap str str) :
  let r := Stage.run service input output missing announce empty w dir in
  (∀ e, r.1.1 = Raised e → is_Some (dir !! input) → e = SystemExit empty)
  ∧ (∀ name, r.1.1 = Ok name →
       name = output
       ∧ ∃ text, text ≠ [] ∧ r.2 = <[output := text]> dir).
Proof.
  unfold Stage.run. destruct (dir !! input) as [stored|]; cbn [fst snd].
  2:{ split; [|done]. by intros e _ [x Hx]. }
  destruct (_call_claude service (read_text stored) (print announce w))
    as [text w'].
  destruct text as [|c text]; cbn [fst snd].
  - split; [|done]. by intros e [= <-] _.
  - split; [done|]. intros name [= <-]. split; [done|]. by exists (c :: text).
Qed.

End PrintFacts.

Ltac sent_simpl := repeat (rewrite prints_sent || rewrite print_sent).

Ltac nine :=
  split; [split|split; [split; [|split; [|split]]|split; [split; [|split]|]]].

Ltac eight :=
  split; [split; [|split]|split; [split; [|split; [|split; [|split]]]|]].

Ltac leaf :=
  try done; try lia; auto;
  try (intros [?|[?|[?|?]]]; done);
  try (intros [?|?]; done).

Section PipelineMainFacts.

Import Remote PipelineMain.

Variable isdecimal : char → bool.
Variable service : nat → outcome.
Variable isocalendar : str → option (N * N).

Lemma preview_effects (entries : list ShareEntry.t) :
  ∀ w, sent (preview isocalendar entries w).2 = sent w
       ∧ ∀ e, (preview isocalendar entries w).1 = Raised e → e = ValueError.
Proof.
  induction entries as [|entry entries IH]; intros w; [done|].
  cbn [preview].
  destruct (match ShareEntry.source_date entry with
            | [] => Some (lit "(no date)")
            | n :: l => SharePipeline._iso_week_label isocalendar (n :: l)
            end) as [label|]; [|split; [done|by intros e [= <-]]].
  match goal with
  | |- context [preview isocalendar entries ?w'] =>
      destruct (IH w') as [Hs He]
  end.
  split; [by rewrite Hs|done].
Qed.

Lemma merge_keeps_files (refined : list RefinedEntry.t) (v : gmap str str)
    (f : str) :
  is_Some (v !! f) →
  is_Some (SharePipeline.vault
             (SharePipeline.merge_to_shared_posts isocalendar refined v).2
           !! f).
Proof.
  intros Hf.
  destruct (merge_run_cases isocalendar refined v f)
    as [[Hsame _]|(l & _ & _ & Hnew & _)].
  - by rewrite Hsame.
  - rewrite Hnew. by eexists.
Qed.

(** Step 3: no request; the output directory is not touched; no file of
    the vault is removed; and the vault is as it was when the step
    raises. *)
Lemma merge_step_effects (entries : list ShareEntry.t)
    (vault_dir : ShareToSocial.path) (today : str) (st : state) :
  let r := merge_step isocalendar entries vault_dir today st in
  sent (st_world r.2) = sent (st_world st)
  ∧ st_out r.2 = st_out st
  ∧ (∀ f, is_Some (st_vault st !! f) → is_Some (st_vault r.2 !! f))
  ∧ (r.1 ≠ Ok tt → st_vault r.2 = st_vault st)
  ∧ (r.1 = Ok tt →
     ∃ refined,
       (SharePipeline._parse_refined_entries (st_out st) entries today).1
       = Ok refined
       ∧ st_vault r.2
         = SharePipeline.vault_after isocalendar refined (st_vault st)).
Proof.
  unfold merge_step.
  destruct (SharePipeline._parse_refined_entries (st_out st) entries today)
    as [[refined|e] lines]; cbn [fst snd st_world st_out st_vault].
  2:{ rewrite prints_sent. done. }
  pose proof (merge_keeps_files refined (st_vault st)) as Hkeep.
  unfold SharePipeline.vault_after.
  destruct (SharePipeline.merge_to_shared_posts isocalendar refined
              (st_vault st)) as [[written|e] merged] eqn:Em;
    cbn [fst snd st_world st_out st_vault] in *.
  2:{ unfold SharePipeline.merge_to_shared_posts in Em.
      destruct (SharePipeline.group_by_week isocalendar refined []);
        [done|].
      injection Em as <- <-. cbn [SharePipeline.printed SharePipeline.vault].
      by rewrite !prints_sent. }
  split.
  { destruct written; by repeat (rewrite prints_sent || rewrite print_sent). }
  split; [done|]. split; [done|]. split; [by intros []|].
  intros _. exists refined. split; [done|]. by rewrite Em.
Qed.

Lemma merge_step_errors (entries : list ShareEntry.t)
    (vault_dir : ShareToSocial.path) (today : str) (st : state) (e : exn) :
  (merge_step isocalendar entries vault_dir today st).1 = Raised e →
  is_Some (st_out st !! lit "02_twitter.md") → e = ValueError.
Proof.
  unfold merge_step, SharePipeline._parse_refined_entries.
  intros Hr [stored Hs]. rewrite Hs in Hr.
  destruct (SharePipeline.parse_blocks entries today 0
              (SharePipeline.refined_blocks (read_text stored)))
    as [refined lines].
  unfold SharePipeline.merge_to_shared_posts in Hr.
  destruct (SharePipeline.group_by_week isocalendar refined []);
    cbn [fst snd] in Hr; congruence.
Qed.

(** All that a run of [main] does, by cases on its arguments. *)
Lemma main_effects (step : option step_choice) (dry_run : bool)
    (input_dir : str) (listing : option (list ExtractStep.md_file))
    (output_dir vault_dir : ShareToSocial.path) (api_key today : str)
    (st : state) :
  let entries :=
    (ExtractStep.extract_share_entries has_share_tag isdecimal input_dir
       listing).1 in
  let r := main isdecimal service isocalendar step dry_run input_dir listing
             output_dir vault_dir api_key today st in
  ((sent (st_world st) ≤ sent (st_world r.2)
    ≤ sent (st_world st) + Config.MAX_RETRIES)%nat
   ∧ (dry_run = true ∨ step = Some StepExtract ∨ api_key = [] ∨ entries = []
      → sent (st_world r.2) = sent (st_world st)))
  ∧ ((∀ n, is_Some (st_out st !! n) → is_Some (st_out r.2 !! n))
     ∧ (∀ n, n ≠ lit "01_extracted.md" → n ≠ lit "02_twitter.md" →
             st_out r.2 !! n = st_out st !! n)
     ∧ (entries = [] → st_out r.2 = st_out st)
     ∧ (entries ≠ [] →
        st_out r.2 !! lit "01_extracted.md"
        = Some (ExtractStep.extracted_text entries)))
  ∧ ((∀ f, is_Some (st_vault st !! f) → is_Some (st_vault r.2 !! f))
     ∧ (dry_run = true ∨ step ≠ None ∨ entries = [] ∨ r.1 ≠ Ok tt →
        st_vault r.2 = st_vault st)
     ∧ (dry_run = false → step = None → entries ≠ [] → r.1 = Ok tt →
        ∃ refined,
          (SharePipeline._parse_refined_entries (st_out r.2) entries today).1
          = Ok refined
          ∧ st_vault r.2
            = SharePipeline.vault_after isocalendar refined (st_vault st)))
  ∧ (∀ e, r.1 = Raised e →
          e = SystemExit Config.api_key_missing
          ∨ e = SystemExit twitter_empty
          ∨ e = ValueError).
Proof.
  unfold main.
  destruct (ExtractStep.extract_share_entries has_share_tag isdecimal
              input_dir listing) as [entries lines].
  cbn [fst].
  destruct entries as [|entry entries].
  { cbn [fst snd st_world st_out st_vault]. sent_simpl.
    repeat split; try done; try lia. }
  set (es := entry :: entries).
  assert (es ≠ []) as Hes by done. clearbody es.
  unfold ExtractStep.write_extracted. cbv beta iota zeta.
  set (out1 := <[lit "01_extracted.md" := ExtractStep.extracted_text es]>
                 (st_out st)).
  assert (∀ n, is_Some (st_out st !! n) → is_Some (out1 !! n)) as Hkeep1.
  { intros n Hn. by apply lookup_insert_is_Some'; right. }
  assert (∀ n, n ≠ lit "01_extracted.md" → out1 !! n = st_out st !! n)
    as Hframe1.
  { intros n Hn. by apply lookup_insert_ne. }
  assert (out1 !! lit "01_extracted.md"
          = Some (ExtractStep.extracted_text es)) as Hat1.
  { apply lookup_insert_eq. }
  clearbody out1.
  set (w1 := print (lit "  -> " ++ _) _).
  assert (sent w1 = sent (st_world st)) as Hw1.
  { unfold w1. by sent_simpl. }
  clearbody w1.
  destruct dry_run.
  { match goal with
    | |- context [preview isocalendar es ?w] =>
        destruct (preview_effects es w) as [Hs He];
        destruct (preview isocalendar es w) as [r w']
    end.
    cbn [fst snd st_world st_out st_vault] in *.
    rewrite Hs, print_sent, Hw1.
    nine; leaf. }
  destruct step as [[|]|].
  { cbn [fst snd st_world st_out st_vault]. rewrite print_sent, Hw1.
    nine; leaf. }
  all: destruct api_key as [|k api_key]; cbn [Refine.get_api_key];
    [cbn [fst snd st_world st_out st_vault]; rewrite Hw1;
     nine; leaf;
     intros e [= <-]; auto|].
  all: unfold SharePipeline.refine_for_twitter.
  all: match goal with
       | |- context [Stage.run service ?i ?o ?m ?a ?e ?w ?d] =>
           destruct (stage_run_effects service i o m a e w d)
             as (Hsent & Hkeep2 & Hframe2 & Hraise);
           destruct (stage_run_outcome service i o m a e w d)
             as (Hwhy & Hok);
           destruct (Stage.run service i o m a e w d) as [[[name|x] w2] out2]
       end.
  all: cbn [fst snd st_world st_out st_vault] in *.
  all: rewrite print_sent, Hw1 in Hsent.
  all: assert (lit "01_extracted.md" ≠ lit "02_twitter.md") as Hne
         by (by vm_compute).
  all: assert (∀ n, is_Some (st_out st !! n) → is_Some (out2 !! n)) as Hkeep
         by (intros n Hn; by apply Hkeep2, Hkeep1).
  all: assert (∀ n, n ≠ lit "01_extracted.md" → n ≠ lit "02_twitter.md" →
                    out2 !! n = st_out st !! n) as Hframe
         by (intros n H1 H2; by rewrite Hframe2, Hframe1).
  all: assert (out2 !! lit "01_extracted.md"
               = Some (ExtractStep.extracted_text es)) as Hat
         by (by rewrite Hframe2).
  2, 4: (nine; leaf);
    intros e [= <-]; right; left; apply (Hwhy x eq_refl); by rewrite Hat1.
  { sent_simpl. nine; leaf. }
  destruct (Hok name eq_refl) as (-> & text & Htext & Hout2).
  match goal with
  | |- context [merge_step isocalendar es vault_dir today ?s] =>
      destruct (merge_step_effects es vault_dir today s)
        as (Hs3 & Ho3 & Hv3 & Hbad3 & Hok3);
      pose proof (merge_step_errors es vault_dir today s) as He3;
      destruct (merge_step isocalendar es vault_dir today s) as [r st3]
  end.
  cbn [fst snd st_world st_out st_vault] in *.
  rewrite print_sent in Hs3. rewrite Hs3, Ho3.
  nine; leaf.
  - intros [?|[?|[?|?]]]; auto; done.
  - intros e He. right; right. apply (He3 e He).
    rewrite Hout2, lookup_insert_eq. by eexists.
Qed.

End PipelineMainFacts.

Section SocialMainFacts.

Import Remote SocialMain.

Variable isdecimal : char → bool.
Variable isword : char → bool.
Variable service : nat → outcome.
Variable refuses : ShareToSocial.path → option ShareToSocial.fs_error.

Lemma social_preview_sent (entries : list ShareEntry.t) :
  ∀ w, sent (preview entries w) = sent w.
Proof.
  induction entries as [|entry entries IH]; intros w; [done|].
  unfold preview in *. cbn [foldl]. by rewrite IH.
Qed.

(** A run of [save_to_content_vault] changes no file that is there, and
    when it raises, the exception is that of a path of one of its posts
    that the file system refuses. *)
Lemma save_run_effects (posts : list SocialPost.t)
    (manual_dir : ShareToSocial.path) (fs : gmap ShareToSocial.path str) :
  let r := ShareToSocial.save_to_content_vault refuses posts manual_dir fs in
  (∀ p, is_Some (fs !! p) → ShareToSocial.files r.2 !! p = fs !! p)
  ∧ (∀ e, r.1 = Raised e →
          ∃ post x,
            post ∈ posts
            ∧ e = ShareToSocial.fs_exn x
            ∧ (refuses (ShareToSocial.month_dir_of manual_dir post) = Some x
               ∨ refuses (ShareToSocial.file_path_of manual_dir post)
                 = Some x)).
Proof.
  intros r. unfold r, ShareToSocial.save_to_content_vault.
  destruct (save_loop_reached manual_dir refuses posts
              (ShareToSocial.mk_save fs [] [])) as [Hst Hres].
  destruct (ShareToSocial.save_loop refuses manual_dir posts
              (ShareToSocial.mk_save fs [] [])) as [res st].
  cbn [fst snd] in Hst, Hres.
  destruct (save_fold_effects manual_dir
              (ShareToSocial.reached refuses manual_dir posts)
              (ShareToSocial.mk_save fs [] []))
    as (new & _ & _ & Hsub & _).
  cbv zeta in Hsub. rewrite <- Hst in Hsub. cbn [ShareToSocial.files] in Hsub.
  split.
  - assert ((match res with
             | Ok _ => (Ok (ShareToSocial.saved_paths st), st)
             | Raised e => (Raised e, st)
             end).2 = st) as -> by by destruct res.
    intros p [x Hx]. rewrite Hx. by apply (lookup_weaken _ _ _ _ Hx).
  - destruct Hres as [[-> _]|(post & rest & x & Heq & Hx & ->)];
      cbn [fst snd]; [done|].
    intros e [= <-]. exists post, x. split.
    { rewrite Heq. apply elem_of_app. right. apply elem_of_cons. by left. }
    split; [done|]. unfold ShareToSocial.refused in Hx.
    destruct (refuses (ShareToSocial.month_dir_of manual_dir post));
      [left; congruence|by right].
Qed.

(** Step 3: no request; the output directory is not touched; no file that
    is there is changed.  The step leaves with [SystemExit] only when
    [02_social.md] is not there, and then it writes nothing; else the
    files are those of [save_to_content_vault] for the posts of the
    artifact, and the step raises when that raises. *)
Lemma save_step_effects (entries : list ShareEntry.t)
    (manual_dir : ShareToSocial.path) (today : str) (st : state) :
  let r := save_step isword refuses entries manual_dir today st in
  sent (st_world r.2) = sent (st_world st)
  ∧ st_out r.2 = st_out st
  ∧ (∀ p, is_Some (st_files st !! p) → st_files r.2 !! p = st_files st !! p)
  ∧ (is_Some (st_out st !! lit "02_social.md") →
     ∃ posts,
       (SocialParse._parse_social_posts isword (st_out st) entries today).1
       = Ok posts
       ∧ st_files r.2
         = ShareToSocial.files
             (ShareToSocial.save_to_content_vault refuses posts manual_dir
                (st_files st)).2
       ∧ r.1 = match (ShareToSocial.save_to_content_vault refuses posts
                        manual_dir (st_files st)).1 with
               | Ok _ => Ok tt
               | Raised e => Raised e
               end).
Proof.
  unfold save_step, SocialParse._parse_social_posts.
  destruct (st_out st !! lit "02_social.md") as [stored|];
    cbn [fst snd st_world st_out st_files].
  2:{ split; [done|]. split; [done|]. split; [done|]. by intros [x Hx]. }
  destruct (SocialParse.parse_posts isword entries today 0
              (SharePipeline.refined_blocks (read_text stored)))
    as [posts lines].
  destruct (save_run_effects posts manual_dir (st_files st)) as [Hkeep _].
  destruct (ShareToSocial.save_to_content_vault refuses posts manual_dir
              (st_files st)) as [[written|e] saved] eqn:Es;
    cbn [fst snd st_world st_out st_files] in *.
  - split.
    { destruct written; by sent_simpl. }
    split; [done|]. split; [done|]. intros _. exists posts. by rewrite Es.
  - split; [by sent_simpl|]. split; [done|]. split; [done|].
    intros _. exists posts. by rewrite Es.
Qed.

(** All that a run of [main] does, by cases on its arguments. *)
Lemma social_main_effects (step : option step_choice) (dry_run : bool)
    (input_dir : str) (listing : option (list ExtractStep.md_file))
    (output_dir manual_dir : ShareToSocial.path) (api_key today : str)
    (st : state) :
  let entries :=
    (ExtractStep.extract_share_entries has_share_tag isdecimal input_dir
       listing).1 in
  let r := main isdecimal isword service refuses step dry_run input_dir
             listing output_dir manual_dir api_key today st in
  ((sent (st_world st) ≤ sent (st_world r.2)
    ≤ sent (st_world st) + Config.MAX_RETRIES)%nat
   ∧ (dry_run = true ∨ step = Some StepExtract ∨ api_key = [] ∨ entries = []
      → sent (st_world r.2) = sent (st_world st)))
  ∧ ((∀ n, is_Some (st_out st !! n) → is_Some (st_out r.2 !! n))
     ∧ (∀ n, n ≠ lit "01_extracted.md" → n ≠ lit "02_social.md" →
             st_out r.2 !! n = st_out st !! n)
     ∧ (entries = [] → st_out r.2 = st_out st)
     ∧ (entries ≠ [] →
        st_out r.2 !! lit "01_extracted.md"
        = Some (ExtractStep.extracted_text entries)))
  ∧ ((∀ p, is_Some (st_files st !! p) →
           st_files r.2 !! p = st_files st !! p)
     ∧ (dry_run = true ∨ step ≠ None ∨ entries = []
        ∨ (∃ msg, r.1 = Raised (SystemExit msg)) →
        st_files r.2 = st_files st)
     ∧ (dry_run = false → step = None → entries ≠ [] →
        (∀ msg, r.1 ≠ Raised (SystemExit msg)) →
        ∃ posts,
          (SocialParse._parse_social_posts isword (st_out r.2) entries
             today).1 = Ok posts
          ∧ st_files r.2
            = ShareToSocial.files
                (ShareToSocial.save_to_content_vault refuses posts
                   manual_dir (st_files st)).2
          ∧ r.1 = match (ShareToSocial.save_to_content_vault refuses posts
                           manual_dir (st_files st)).1 with
                  | Ok _ => Ok tt
                  | Raised e => Raised e
                  end))
  ∧ (∀ e, r.1 = Raised e →
          e = SystemExit Config.api_key_missing
          ∨ e = SystemExit social_empty
          ∨ ∃ posts post x,
              (SocialParse._parse_social_posts isword (st_out r.2) entries
                 today).1 = Ok posts
              ∧ post ∈ posts
              ∧ e = ShareToSocial.fs_exn x
              ∧ (refuses (ShareToSocial.month_dir_of manual_dir post)
                 = Some x
                 ∨ refuses (ShareToSocial.file_path_of manual_dir post)
                   = Some x)).
Proof.
  unfold main.
  destruct (ExtractStep.extract_share_entries has_share_tag isdecimal
              input_dir listing) as [entries lines].
  cbn [fst].
  destruct entries as [|entry entries].
  { cbn [fst snd st_world st_out st_files]. sent_simpl.
    repeat split; try done; try lia. }
  set (es := entry :: entries).
  assert (es ≠ []) as Hes by done. clearbody es.
  unfold ExtractStep.write_extracted. cbv beta iota zeta.
  set (out1 := <[lit "01_extracted.md" := ExtractStep.extracted_text es]>
                 (st_out st)).
  assert (∀ n, is_Some (st_out st !! n) → is_Some (out1 !! n)) as Hkeep1.
  { intros n Hn. by apply lookup_insert_is_Some'; right. }
  assert (∀ n, n ≠ lit "01_extracted.md" → out1 !! n = st_out st !! n)
    as Hframe1.
  { intros n Hn. by apply lookup_insert_ne. }
  assert (out1 !! lit "01_extracted.md"
          = Some (ExtractStep.extracted_text es)) as Hat1.
  { apply lookup_insert_eq. }
  clearbody out1.
  set (w1 := print (lit "  -> " ++ _) _).
  assert (sent w1 = sent (st_world st)) as Hw1.
  { unfold w1. by sent_simpl. }
  clearbody w1.
  destruct dry_run.
  { cbn [fst snd st_world st_out st_files].
    rewrite social_preview_sent, print_sent, Hw1.
    nine; leaf. }
  destruct step as [[|]|].
  { cbn [fst snd st_world st_out st_files]. rewrite print_sent, Hw1.
    nine; leaf. }
  all: destruct api_key as [|k api_key]; cbn [Refine.get_api_key];
    [cbn [fst snd st_world st_out st_files]; rewrite Hw1;
     nine; leaf;
     try (intros _ _ _ Hno; exfalso; eapply Hno; reflexivity);
     intros e [= <-]; auto|].
  all: unfold ShareToSocial.generate_social_posts.
  all: match goal with
       | |- context [Stage.run service ?i ?o ?m ?a ?e ?w ?d] =>
           destruct (stage_run_effects service i o m a e w d)
             as (Hsent & Hkeep2 & Hframe2 & Hraise);
           destruct (stage_run_outcome service i o m a e w d)
             as (Hwhy & Hok);
           destruct (Stage.run service i o m a e w d) as [[[name|x] w2] out2]
       end.
  all: cbn [fst snd st_world st_out st_files] in *.
  all: rewrite print_sent, Hw1 in Hsent.
  all: assert (lit "01_extracted.md" ≠ lit "02_social.md") as Hne
         by (by vm_compute).
  all: assert (∀ n, is_Some (st_out st !! n) → is_Some (out2 !! n)) as Hkeep
         by (intros n Hn; by apply Hkeep2, Hkeep1).
  all: assert (∀ n, n ≠ lit "01_extracted.md" → n ≠ lit "02_social.md" →
                    out2 !! n = st_out st !! n) as Hframe
         by (intros n H1 H2; by rewrite Hframe2, Hframe1).
  all: assert (out2 !! lit "01_extracted.md"
               = Some (ExtractStep.extracted_text es)) as Hat
         by (by rewrite Hframe2).
  2, 4: (assert (x = SystemExit social_empty) as ->
           by (apply (Hwhy x eq_refl); by rewrite Hat1));
    (nine; leaf);
    try (intros _ _ _ Hno; exfalso; eapply Hno; reflexivity);
    intros e [= <-]; auto.
  { sent_simpl. nine; leaf. }
  destruct (Hok name eq_refl) as (-> & text & Htext & Hout2).
  match goal with
  | |- context [save_step isword refuses es manual_dir today ?s] =>
      destruct (save_step_effects es manual_dir today s)
        as (Hs3 & Ho3 & Hv3 & Hgo3);
      destruct (save_step isword refuses es manual_dir today s) as [r st3]
  end.
  cbn [fst snd st_world st_out st_files] in *.
  rewrite print_sent in Hs3. rewrite Hs3, Ho3.
  destruct Hgo3 as (posts & Hparse & Hfiles & Hr).
  { rewrite Hout2, lookup_insert_eq. by eexists. }
  destruct (save_run_effects posts manual_dir (st_files st)) as [_ Hraised].
  nine; leaf.
  - intros [?|[?|[?|[msg Hmsg]]]]; try done.
    rewrite Hr in Hmsg.
    destruct (ShareToSocial.save_to_content_vault refuses posts manual_dir
                (st_files st)).1 as [paths|e]; [done|].
    destruct (Hraised e eq_refl) as (post & y & _ & He & _).
    injection Hmsg as ->. by destruct y.
  - intros _ _ _ _. by exists posts.
  - intros e He. right; right. rewrite Hr in He.
    destruct (ShareToSocial.save_to_content_vault refuses posts manual_dir
                (st_files st)).1 as [paths|e']; [done|].
    injection He as <-.
    destruct (Hraised e' eq_refl) as (post & y & Hin & Hy & Hwhere).
    by exists posts, post, y.
Qed.

End SocialMainFacts.

Section LinkedinMainFacts.

Import Remote LinkedinMain.

Variable isdecimal : char → bool.
Variable service : nat → outcome.

Lemma linkedin_preview_sent (entries : list ShareEntry.t) :
  ∀ w, sent (preview entries w) = sent w.
Proof.
  induction entries as [|entry entries IH]; intros w; [done|].
  unfold preview in *. cbn [foldl]. by rewrite IH.
Qed.

(** All that a run of [main] does, by cases on its arguments. *)
Lemma linkedin_main_effects (step : option step_choice) (dry_run : bool)
    (input_dir : str) (listing : option (list ExtractStep.md_file))
    (output_dir : ShareToSocial.path) (api_key : str) (st : state) :
  let entries :=
    (ExtractStep.extract_share_entries has_share_tag_strict isdecimal
       input_dir listing).1 in
  let r := main isdecimal service step dry_run input_dir listing output_dir
             api_key st in
  ((sent (st_world st) ≤ sent (st_world r.2)
    ≤ sent (st_world st) + 2 * Config.MAX_RETRIES)%nat
   ∧ (step = Some StepTwitter →
      (sent (st_world r.2) ≤ sent (st_world st) + Config.MAX_RETRIES)%nat)
   ∧ (dry_run = true ∨ step = Some StepExtract ∨ api_key = [] ∨ entries = []
      → sent (st_world r.2) = sent (st_world st)))
  ∧ ((∀ n, is_Some (st_out st !! n) → is_Some (st_out r.2 !! n))
     ∧ (∀ n, n ≠ lit "01_extracted.md" → n ≠ lit "02_twitter.md" →
             n ≠ lit "03_linkedin.md" → st_out r.2 !! n = st_out st !! n)
     ∧ (entries = [] → st_out r.2 = st_out st)
     ∧ (entries ≠ [] →
        st_out r.2 !! lit "01_extracted.md"
        = Some (ExtractStep.extracted_text entries))
     ∧ (dry_run = true ∨ step = Some StepExtract →
        ∀ n, n ≠ lit "01_extracted.md" → st_out r.2 !! n = st_out st !! n))
  ∧ (∀ e, r.1 = Raised e →
          e = SystemExit Config.api_key_missing
          ∨ e = SystemExit twitter_empty
          ∨ e = SystemExit linkedin_empty).
Proof.
  unfold main.
  destruct (ExtractStep.extract_share_entries has_share_tag_strict isdecimal
              input_dir listing) as [entries lines].
  cbn [fst].
  destruct entries as [|entry entries].
  { cbn [fst snd st_world st_out]. sent_simpl.
    repeat split; try done; try lia. }
  set (es := entry :: entries).
  assert (es ≠ []) as Hes by done. clearbody es.
  unfold ExtractStep.write_extracted. cbv beta iota zeta.
  set (out1 := <[lit "01_extracted.md" := ExtractStep.extracted_text es]>
                 (st_out st)).
  assert (∀ n, is_Some (st_out st !! n) → is_Some (out1 !! n)) as Hkeep1.
  { intros n Hn. by apply lookup_insert_is_Some'; right. }
  assert (∀ n, n ≠ lit "01_extracted.md" → out1 !! n = st_out st !! n)
    as Hframe1.
  { intros n Hn. by apply lookup_insert_ne. }
  assert (out1 !! lit "01_extracted.md"
          = Some (ExtractStep.extracted_text es)) as Hat1.
  { apply lookup_insert_eq. }
  clearbody out1.
  set (w1 := print (lit "  -> " ++ _) _).
  assert (sent w1 = sent (st_world st)) as Hw1.
  { unfold w1. by sent_simpl. }
  clearbody w1.
  destruct dry_run.
  { cbn [fst snd st_world st_out].
    rewrite linkedin_preview_sent, print_sent, Hw1.
    eight; leaf. }
  destruct step as [[| |]|].
  { cbn [fst snd st_world st_out]. rewrite print_sent, Hw1.
    eight; leaf. }
  all: destruct api_key as [|k api_key]; cbn [Refine.get_api_key];
    [cbn [fst snd st_world st_out]; rewrite Hw1;
     eight; leaf;
     intros e [= <-]; auto|].
  all: unfold ShareToLinkedin.refine_for_twitter.
  all: match goal with
       | |- context [Stage.run service ?i ?o ?m ?a ?e ?w ?d] =>
           destruct (stage_run_effects service i o m a e w d)
             as (Hsent & Hkeep2 & Hframe2 & Hraise);
           destruct (stage_run_outcome service i o m a e w d)
             as (Hwhy & Hok);
           destruct (Stage.run service i o m a e w d) as [[[name|x] w2] out2]
       end.
  all: cbn [fst snd st_world st_out] in *.
  all: rewrite print_sent, Hw1 in Hsent.
  all: assert (lit "01_extracted.md" ≠ lit "02_twitter.md") as Hne
         by (by vm_compute).
  all: assert (lit "01_extracted.md" ≠ lit "03_linkedin.md") as Hne'
         by (by vm_compute).
  all: assert (out2 !! lit "01_extracted.md"
               = Some (ExtractStep.extracted_text es)) as Hat
         by (by rewrite Hframe2).
  2, 4, 6: (eight; leaf);
    try (intros n Hn; by apply Hkeep2, Hkeep1);
    try (intros n H1 H2 H3; by rewrite Hframe2, Hframe1);
    intros e [= <-]; right; left; apply (Hwhy x eq_refl); by rewrite Hat1.
  { sent_simpl. eight; leaf.
    all: try (intros n Hn; by apply Hkeep2, Hkeep1).
    all: intros n H1 H2 H3; by rewrite Hframe2, Hframe1. }
  all: destruct (Hok name eq_refl) as (-> & text & Htext & Hout2).
  all: unfold linkedin_step, ShareToLinkedin.prepare_linkedin_posts.
  all: cbn [st_world st_out].
  all: match goal with
       | |- context [Stage.run service ?i ?o ?m ?a ?e ?w ?d] =>
           destruct (stage_run_effects service i o m a e w d)
             as (Hsent3 & Hkeep3 & Hframe3 & Hraise3);
           destruct (stage_run_outcome service i o m a e w d)
             as (Hwhy3 & Hok3);
           destruct (Stage.run service i o m a e w d) as [[[name|x] w3] out3]
       end.
  all: cbn [fst snd st_world st_out] in *.
  all: rewrite !print_sent in Hsent3.
  all: assert (out3 !! lit "01_extracted.md"
               = Some (ExtractStep.extracted_text es)) as Hat3
         by (by rewrite Hframe3).
  all: sent_simpl.
  all: eight; leaf.
  all: try (intros n Hn; by apply Hkeep3, Hkeep2, Hkeep1).
  all: try (intros n H1 H2 H3; by rewrite Hframe3, Hframe2, Hframe1).
  all: intros e [= <-]; right; right; apply (Hwhy3 x eq_refl);
    rewrite Hout2, lookup_insert_eq; by eexists.
Qed.

End LinkedinMainFacts.

(** *** [share_pipeline.py]: what a run of [main] does *)

(** A run of [main] of [share_pipeline.py] sends at most
    [MAX_RETRIES] requests, and it sends none in a dry run, with
    [--step extract], without an API key, or when no entry is found. *)
Theorem pipeline_main_request_budget (isdecimal : char → bool)
    (service : nat → Remote.outcome) (isocalendar : str → option (N * N))
    (step : option PipelineMain.step_choice) (dry_run : bool)
    (input_dir : str) (listing : option (list ExtractStep.md_file))
    (output_dir vault_dir : ShareToSocial.path) (api_key today : str)
    (st : PipelineMain.state) :
  let entries :=
    (ExtractStep.extract_share_entries has_share_tag isdecimal input_dir
       listing).1 in
  let r := PipelineMain.main isdecimal service isocalendar step dry_run
             input_dir listing output_dir vault_dir api_key today st in
  let before := Remote.sent (PipelineMain.st_world st) in
  let after := Remote.sent (PipelineMain.st_world r.2) in
  (before ≤ after ≤ before + Config.MAX_RETRIES)%nat
  ∧ (dry_run = true ∨ step = Some PipelineMain.StepExtract ∨ api_key = []
     ∨ entries = [] → after = before).
Proof.
  apply (main_effects isdecimal service isocalendar step dry_run input_dir
           listing output_dir vault_dir api_key today st).
Qed.

(** In the output directory a run of [main] of [share_pipeline.py]
    removes no file and changes none but [01_extracted.md] and
    [02_twitter.md]; when entries are found, [01_extracted.md] holds their
    text after the run, also in a dry run.  In the vault the run removes no
    file; the vault is as it was in a dry run, with [--step], without
    entries and when the run raises; and after a full run it is the vault
    that [merge_to_shared_posts] gives for the entries read back from
    [02_twitter.md]. *)
Theorem pipeline_main_files (isdecimal : char → bool)
    (service : nat → Remote.outcome) (isocalendar : str → option (N * N))
    (step : option PipelineMain.step_choice) (dry_run : bool)
    (input_dir : str) (listing : option (list ExtractStep.md_file))
    (output_dir vault_dir : ShareToSocial.path) (api_key today : str)
    (st : PipelineMain.state) :
  let entries :=
    (ExtractStep.extract_share_entries has_share_tag isdecimal input_dir
       listing).1 in
  let r := PipelineMain.main isdecimal service isocalendar step dry_run
             input_dir listing output_dir vault_dir api_key today st in
  let out := PipelineMain.st_out st in
  let out' := PipelineMain.st_out r.2 in
  let v := PipelineMain.st_vault st in
  let v' := PipelineMain.st_vault r.2 in
  ((∀ n, is_Some (out !! n) → is_Some (out' !! n))
   ∧ (∀ n, n ≠ lit "01_extracted.md" → n ≠ lit "02_twitter.md" →
           out' !! n = out !! n)
   ∧ (entries = [] → out' = out)
   ∧ (entries ≠ [] →
      out' !! lit "01_extracted.md"
      = Some (ExtractStep.extracted_text entries)))
  ∧ ((∀ f, is_Some (v !! f) → is_Some (v' !! f))
     ∧ (dry_run = true ∨ step ≠ None ∨ entries = [] ∨ r.1 ≠ Ok tt → v' = v)
     ∧ (dry_run = false → step = None → entries ≠ [] → r.1 = Ok tt →
        ∃ refined,
          (SharePipeline._parse_refined_entries out' entries today).1
          = Ok refined
          ∧ v' = SharePipeline.vault_after isocalendar refined v)).
Proof.
  intros entries r out out' v v'.
  destruct (main_effects isdecimal service isocalendar step dry_run
              input_dir listing output_dir vault_dir api_key today st)
    as (_ & Hout & Hvault & _).
  exact (conj Hout Hvault).
Qed.

(** A run of [main] of [share_pipeline.py] that raises leaves with
    the [SystemExit] of the missing API key, with the [SystemExit] of the
    empty answer, or with [ValueError] for a date; it never stops on a
    missing artifact, since each step reads what the step before it
    wrote. *)
Theorem pipeline_main_errors (isdecimal : char → bool)
    (service : nat → Remote.outcome) (isocalendar : str → option (N * N))
    (step : option PipelineMain.step_choice) (dry_run : bool)
    (input_dir : str) (listing : option (list ExtractStep.md_file))
    (output_dir vault_dir : ShareToSocial.path) (api_key today : str)
    (st : PipelineMain.state) :
  ∀ e,
    (PipelineMain.main isdecimal service isocalendar step dry_run input_dir
       listing output_dir vault_dir api_key today st).1 = Raised e →
    e = SystemExit Config.api_key_missing
    ∨ e = SystemExit PipelineMain.twitter_empty
    ∨ e = ValueError.
Proof.
  apply (main_effects isdecimal service isocalendar step dry_run input_dir
           listing output_dir vault_dir api_key today st).
Qed.

(** A full run on the sample note without an API key. *)
Lemma pipeline_main_errors_witness :
  let e := SystemExit Config.api_key_missing in
  (PipelineMain.main Extract.ascii_digit service_400 (λ _, None) None false
     (lit "in") sample_listing (false, [lit "out"]) (false, [lit "vault"])
     [] (lit "2024-01-08") (PipelineMain.mk_state Remote.w0 ∅ ∅)).1
  = Raised e
  ∧ (e = SystemExit Config.api_key_missing
     ∨ e = SystemExit PipelineMain.twitter_empty
     ∨ e = ValueError).
Proof.
  intros e.
  assert ((PipelineMain.main Extract.ascii_digit service_400 (λ _, None) None
             false (lit "in") sample_listing (false, [lit "out"])
             (false, [lit "vault"]) [] (lit "2024-01-08")
             (PipelineMain.mk_state Remote.w0 ∅ ∅)).1 = Raised e) as H
    by (by vm_compute).
  split; [exact H|].
  exact (pipeline_main_errors _ _ _ _ _ _ _ _ _ _ _ _ e H).
Defined.

(** *** [share_to_social.py]: what a run of [main] does *)

(** A run of [main] of [share_to_social.py] sends at most
    [MAX_RETRIES] requests, and it sends none in a dry run, with
    [--step extract], without an API key, or when no entry is found. *)
Theorem social_main_request_budget (isdecimal isword : char → bool)
    (service : nat → Remote.outcome)
    (refuses : ShareToSocial.path → option ShareToSocial.fs_error)
    (step : option SocialMain.step_choice) (dry_run : bool)
    (input_dir : str) (listing : option (list ExtractStep.md_file))
    (output_dir manual_dir : ShareToSocial.path) (api_key today : str)
    (st : SocialMain.state) :
  let entries :=
    (ExtractStep.extract_share_entries has_share_tag isdecimal input_dir
       listing).1 in
  let r := SocialMain.main isdecimal isword service refuses step dry_run
             input_dir listing output_dir manual_dir api_key today st in
  let before := Remote.sent (SocialMain.st_world st) in
  let after := Remote.sent (SocialMain.st_world r.2) in
  (before ≤ after ≤ before + Config.MAX_RETRIES)%nat
  ∧ (dry_run = true ∨ step = Some SocialMain.StepExtract ∨ api_key = []
     ∨ entries = [] → after = before).
Proof.
  apply (social_main_effects isdecimal isword service refuses step dry_run
           input_dir listing output_dir manual_dir api_key today st).
Qed.

(** In the output directory a run of [main] of [share_to_social.py]
    removes no file and changes none but [01_extracted.md] and
    [02_social.md]; when entries are found, [01_extracted.md] holds their
    text after the run, also in a dry run.  Below the content vault no file
    that is there is changed or removed, whether the run returns or
    raises; nothing is written there in a dry run, with [--step], without
    entries and when the run leaves with [SystemExit]; and after a run
    that reaches step 3, the files are those that [save_to_content_vault]
    leaves for the posts read back from [02_social.md], and the run
    raises when that raises, with the files that were written before. *)
Theorem social_main_files (isdecimal isword : char → bool)
    (service : nat → Remote.outcome)
    (refuses : ShareToSocial.path → option ShareToSocial.fs_error)
    (step : option SocialMain.step_choice) (dry_run : bool)
    (input_dir : str) (listing : option (list ExtractStep.md_file))
    (output_dir manual_dir : ShareToSocial.path) (api_key today : str)
    (st : SocialMain.state) :
  let entries :=
    (ExtractStep.extract_share_entries has_share_tag isdecimal input_dir
       listing).1 in
  let r := SocialMain.main isdecimal isword service refuses step dry_run
             input_dir listing output_dir manual_dir api_key today st in
  let out := SocialMain.st_out st in
  let out' := SocialMain.st_out r.2 in
  let fs := SocialMain.st_files st in
  let fs' := SocialMain.st_files r.2 in
  ((∀ n, is_Some (out !! n) → is_Some (out' !! n))
   ∧ (∀ n, n ≠ lit "01_extracted.md" → n ≠ lit "02_social.md" →
           out' !! n = out !! n)
   ∧ (entries = [] → out' = out)
   ∧ (entries ≠ [] →
      out' !! lit "01_extracted.md"
      = Some (ExtractStep.extracted_text entries)))
  ∧ ((∀ p, is_Some (fs !! p) → fs' !! p = fs !! p)
     ∧ (dry_run = true ∨ step ≠ None ∨ entries = []
        ∨ (∃ msg, r.1 = Raised (SystemExit msg)) →
        fs' = fs)
     ∧ (dry_run = false → step = None → entries ≠ [] →
        (∀ msg, r.1 ≠ Raised (SystemExit msg)) →
        ∃ posts,
          (SocialParse._parse_social_posts isword out' entries today).1
          = Ok posts
          ∧ fs' = ShareToSocial.files
                    (ShareToSocial.save_to_content_vault refuses posts
                       manual_dir fs).2
          ∧ r.1 = match (ShareToSocial.save_to_content_vault refuses posts
                           manual_dir fs).1 with
                  | Ok _ => Ok tt
                  | Raised e => Raised e
                  end)).
Proof.
  intros entries r out out' fs fs'.
  destruct (social_main_effects isdecimal isword service refuses step
              dry_run input_dir listing output_dir manual_dir api_key today
              st)
    as (_ & Hout & Hfiles & _).
  exact (conj Hout Hfiles).
Qed.

(** A run of [main] of [share_to_social.py] that raises leaves with the
    [SystemExit] of the missing API key, with the [SystemExit] of the
    empty answer, or, in step 3, with the exception of the file system for
    a path of a post that it cannot take ([OSError] for a name that is too
    long, [ValueError] for a NUL character); it never stops on a missing
    artifact. *)
Theorem social_main_errors (isdecimal isword : char → bool)
    (service : nat → Remote.outcome)
    (refuses : ShareToSocial.path → option ShareToSocial.fs_error)
    (step : option SocialMain.step_choice) (dry_run : bool)
    (input_dir : str) (listing : option (list ExtractStep.md_file))
    (output_dir manual_dir : ShareToSocial.path) (api_key today : str)
    (st : SocialMain.state) :
  let entries :=
    (ExtractStep.extract_share_entries has_share_tag isdecimal input_dir
       listing).1 in
  let r := SocialMain.main isdecimal isword service refuses step dry_run
             input_dir listing output_dir manual_dir api_key today st in
  ∀ e,
    r.1 = Raised e →
    e = SystemExit Config.api_key_missing
    ∨ e = SystemExit SocialMain.social_empty
    ∨ ∃ posts post x,
        (SocialParse._parse_social_posts isword (SocialMain.st_out r.2)
           entries today).1 = Ok posts
        ∧ post ∈ posts
        ∧ e = ShareToSocial.fs_exn x
        ∧ (x = ShareToSocial.NameTooLong ∧ e = OSError
           ∨ x = ShareToSocial.EmbeddedNul ∧ e = ValueError)
        ∧ (refuses (ShareToSocial.month_dir_of manual_dir post) = Some x
           ∨ refuses (ShareToSocial.file_path_of manual_dir post) = Some x).
Proof.
  intros entries r e He.
  destruct (social_main_effects isdecimal isword service refuses step
              dry_run input_dir listing output_dir manual_dir api_key today
              st)
    as (_ & _ & _ & Herr).
  destruct (Herr e He) as [?|[?|(posts & post & x & Hp & Hin & -> & Hw)]];
    [by left|by right; left|].
  right; right. exists posts, post, x.
  split; [done|]. split; [done|]. split; [done|]. split; [|done].
  destruct x; [by left|by right].
Qed.

(** A full run on the sample note, with a service that answers with a
    title of 300 letters and a file system that takes no name of more
    than 255 code points: step 3 raises [OSError]. *)
Lemma social_main_errors_witness :
  let r := SocialMain.main Extract.ascii_digit SocialParse.ascii_word
             service_long_title refuses_long None false (lit "in")
             sample_listing (false, [lit "out"]) (false, [lit "manual"])
             (lit "key") (lit "2024-01-08")
             (SocialMain.mk_state Remote.w0 ∅ ∅) in
  r.1 = Raised OSError
  ∧ (OSError = SystemExit Config.api_key_missing
     ∨ OSError = SystemExit SocialMain.social_empty
     ∨ ∃ posts post x,
         (SocialParse._parse_social_posts SocialParse.ascii_word
            (SocialMain.st_out r.2)
            (ExtractStep.extract_share_entries has_share_tag
               Extract.ascii_digit (lit "in") sample_listing).1
            (lit "2024-01-08")).1 = Ok posts
         ∧ post ∈ posts
         ∧ OSError = ShareToSocial.fs_exn x
         ∧ (x = ShareToSocial.NameTooLong ∧ OSError = OSError
            ∨ x = ShareToSocial.EmbeddedNul ∧ OSError = ValueError)
         ∧ (refuses_long
              (ShareToSocial.month_dir_of (false, [lit "manual"]) post)
            = Some x
            ∨ refuses_long
                (ShareToSocial.file_path_of (false, [lit "manual"]) post)
              = Some x)).
Proof.
  intros r.
  assert (r.1 = Raised OSError) as H by (by vm_compute).
  split; [exact H|].
  exact (social_main_errors Extract.ascii_digit SocialParse.ascii_word
           service_long_title refuses_long None false (lit "in")
           sample_listing (false, [lit "out"]) (false, [lit "manual"])
           (lit "key") (lit "2024-01-08")
           (SocialMain.mk_state Remote.w0 ∅ ∅) OSError H).
Defined.

(** *** [share_to_linkedin.py]: what a run of [main] does *)

(** A run of [main] of [share_to_linkedin.py] sends at most
    [2 * MAX_RETRIES] requests, at most [MAX_RETRIES] with
    [--step twitter], and none in a dry run, with [--step extract], without
    an API key, or when no entry is found. *)
Theorem linkedin_main_request_budget (isdecimal : char → bool)
    (service : nat → Remote.outcome)
    (step : option LinkedinMain.step_choice) (dry_run : bool)
    (input_dir : str) (listing : option (list ExtractStep.md_file))
    (output_dir : ShareToSocial.path) (api_key : str)
    (st : LinkedinMain.state) :
  let entries :=
    (ExtractStep.extract_share_entries has_share_tag_strict isdecimal
       input_dir listing).1 in
  let r := LinkedinMain.main isdecimal service step dry_run input_dir
             listing output_dir api_key st in
  let before := Remote.sent (LinkedinMain.st_world st) in
  let after := Remote.sent (LinkedinMain.st_world r.2) in
  (before ≤ after ≤ before + 2 * Config.MAX_RETRIES)%nat
  ∧ (step = Some LinkedinMain.StepTwitter →
     (after ≤ before + Config.MAX_RETRIES)%nat)
  ∧ (dry_run = true ∨ step = Some LinkedinMain.StepExtract ∨ api_key = []
     ∨ entries = [] → after = before).
Proof.
  apply (linkedin_main_effects isdecimal service step dry_run input_dir
           listing output_dir api_key st).
Qed.

(** A run of [main] of [share_to_linkedin.py] removes no file of the
    output directory and changes none but [01_extracted.md],
    [02_twitter.md] and [03_linkedin.md], and only the first in a dry run
    or with [--step extract]; when entries are found, [01_extracted.md]
    holds their text after the run.  A run that raises leaves with the
    [SystemExit] of the missing API key or of an empty answer, never on a
    missing artifact. *)
Theorem linkedin_main_files_and_errors (isdecimal : char → bool)
    (service : nat → Remote.outcome)
    (step : option LinkedinMain.step_choice) (dry_run : bool)
    (input_dir : str) (listing : option (list ExtractStep.md_file))
    (output_dir : ShareToSocial.path) (api_key : str)
    (st : LinkedinMain.state) :
  let entries :=
    (ExtractStep.extract_share_entries has_share_tag_strict isdecimal
       input_dir listing).1 in
  let r := LinkedinMain.main isdecimal service step dry_run input_dir
             listing output_dir api_key st in
  let out := LinkedinMain.st_out st in
  let out' := LinkedinMain.st_out r.2 in
  ((∀ n, is_Some (out !! n) → is_Some (out' !! n))
   ∧ (∀ n, n ≠ lit "01_extracted.md" → n ≠ lit "02_twitter.md" →
           n ≠ lit "03_linkedin.md" → out' !! n = out !! n)
   ∧ (entries = [] → out' = out)
   ∧ (entries ≠ [] →
      out' !! lit "01_extracted.md"
      = Some (ExtractStep.extracted_text entries))
   ∧ (dry_run = true ∨ step = Some LinkedinMain.StepExtract →
      ∀ n, n ≠ lit "01_extracted.md" → out' !! n = out !! n))
  ∧ (∀ e, r.1 = Raised e →
          e = SystemExit Config.api_key_missing
          ∨ e = SystemExit LinkedinMain.twitter_empty
          ∨ e = SystemExit LinkedinMain.linkedin_empty).
Proof.
  intros entries r out out'.
  destruct (linkedin_main_effects isdecimal service step dry_run input_dir
              listing output_dir api_key st) as (_ & Hout & Herr).
  exact (conj Hout Herr).
Qed.
(** ** The records that the parser returns, written and read back *)

(** The title and the content of a record are the heading and the rest
    of its block, stripped. *)
Lemma block_record_parts (entries : list ShareEntry.t) (today : str)
    (i : nat) (block : str) (r : RefinedEntry.t) (l : list str) :
  SharePipeline.block_record entries today i block = Some (r, l) →
  ∃ g rest,
    match_heading block = Some (g, rest)
    ∧ RefinedEntry.title r = strip g
    ∧ RefinedEntry.content r = strip rest.
Proof.
  unfold SharePipeline.block_record.
  destruct (match_heading block) as [[g rest]|]; [|done].
  destruct (match entries !! i with
            | Some e => ShareEntry.source_date e
            | None => []
            end); intros [= <- <-]; by exists g, rest.
Qed.

(** Every record that [_parse_refined_entries] returns has a title on one
    line, and neither its title nor its content has whitespace around it
    or a carriage return.  So records with non-empty titles are read back
    as [merge_to_shared_posts] writes them: every file that a run with
    such records writes is read as it is stored, and after the run the
    title of every record is a heading of the file of its week. *)
Theorem parsed_titles (isocalendar : str → option (N * N))
    (dir : gmap str str) (entries : list ShareEntry.t)
    (today : str) (records : list RefinedEntry.t) (lines : list str) :
  SharePipeline._parse_refined_entries dir entries today
  = (Ok records, lines) →
  (∀ r, r ∈ records →
        (nl ∉ RefinedEntry.title r)
        ∧ (cr ∉ RefinedEntry.title r)
        ∧ strip (RefinedEntry.title r) = RefinedEntry.title r
        ∧ (cr ∉ RefinedEntry.content r)
        ∧ strip (RefinedEntry.content r) = RefinedEntry.content r)
  ∧ (∀ run v,
        (∀ r, r ∈ run → r ∈ records ∧ RefinedEntry.title r ≠ []) →
        dated isocalendar run →
        let st := (SharePipeline.merge_to_shared_posts isocalendar run v).2 in
        (∀ f, f ∈ SharePipeline.written_paths st →
              ∃ c, SharePipeline.vault st !! f = Some c ∧ read_text c = c)
        ∧ (∀ l r,
              r ∈ bucket isocalendar l run →
              RefinedEntry.title r
              ∈ findall_headings
                  (SharePipeline.read_existing (SharePipeline.vault st)
                     (SharePipeline.bucket_file l)))).
Proof.
  unfold SharePipeline._parse_refined_entries.
  destruct (dir !! lit "02_twitter.md") as [stored|]; [|done].
  pose proof (parse_blocks_elem entries today
                (SharePipeline.refined_blocks (read_text stored)) 0)
    as (_ & H & _).
  destruct (SharePipeline.parse_blocks entries today 0
              (SharePipeline.refined_blocks (read_text stored)))
    as [rs ls].
  intros [= <- <-]. cbn [fst] in H.
  assert (∀ r, r ∈ rs →
               (nl ∉ RefinedEntry.title r)
               ∧ (cr ∉ RefinedEntry.title r)
               ∧ strip (RefinedEntry.title r) = RefinedEntry.title r
               ∧ (cr ∉ RefinedEntry.content r)
               ∧ strip (RefinedEntry.content r) = RefinedEntry.content r)
    as Hfields.
  { intros r Hr. destruct (H r Hr) as (j & block & l & Hj & Hrec).
    assert (∀ s : str, (∀ c, c ∈ s → c ∈ block) → cr ∉ s) as Hcr.
    { intros s Hs Hin. apply (read_text_no_cr stored).
      apply (refined_blocks_elem cr _ block); [|by apply Hs].
      by apply list_elem_of_lookup_2 in Hj. }
    pose proof (block_record_title _ _ _ _ _ _ Hrec) as (Hnl & _ & _ & Hsub).
    destruct (block_record_parts _ _ _ _ _ _ Hrec)
      as (g & rest & _ & Ht & Hc).
    split; [done|]. split; [apply Hcr; auto|].
    split; [rewrite Ht; apply strip_strip|].
    split; [apply Hcr; auto|]. rewrite Hc. apply strip_strip. }
  split; [exact Hfields|].
  intros run v Hrun Hd.
  assert (Forall reads_back run) as Hrb.
  { apply Forall_forall. intros r Hr. destruct (Hrun r Hr) as [Hin Hne].
    destruct (Hfields r Hin) as (Hnl & Hcrt & Hst & Hcrc & _).
    split; [|done]. split; [done|]. split; [done|]. split; [done|].
    unfold clean. rewrite <- Hst. apply strip_clean. }
  split.
  - intros f Hf.
    destruct (merge_run_cases isocalendar run v f)
      as [[_ Hnot]|(l & -> & _ & Hnew & _)]; [done|].
    eexists. split; [exact Hnew|]. apply read_new_content.
    + apply read_existing_no_cr.
    + by apply Forall_list_filter, Forall_list_filter.
  - intros l r Hr.
    apply (titles_are_headings isocalendar run v l r); [done| |done].
    by apply group_by_week_some.
Qed.

(** The two records of an artifact of two blocks, merged into the empty
    vault. *)
Lemma parsed_titles_witness :
  let records :=
    [ RefinedEntry.mk (lit "A") (lit "text") (lit "2024-01-08");
      RefinedEntry.mk (lit "B") (lit "more") (lit "2024-02-01") ] in
  let st := (SharePipeline.merge_to_shared_posts Calendar.isocalendar
               records ∅).2 in
  (∀ r, r ∈ records →
        strip (RefinedEntry.title r) = RefinedEntry.title r)
  ∧ ∀ f, f ∈ SharePipeline.written_paths st →
         ∃ c, SharePipeline.vault st !! f = Some c ∧ read_text c = c.
Proof.
  intros records st.
  destruct (parsed_titles Calendar.isocalendar (twitter_dir two_blocks)
              [entry_dated (lit "2024-01-08")] (lit "2024-02-01") records
              [SharePipeline.no_date_warning (lit "B") (lit "2024-02-01")])
    as [Hfields Hrun].
  { vm_compute. reflexivity. }
  split.
  - intros r Hr. by destruct (Hfields r Hr) as (_ & _ & ? & _).
  - destruct (Hrun records ∅) as [Hfiles _]; [| |exact Hfiles].
    + intros r Hr. split; [done|].
      apply elem_of_cons in Hr as [->|Hr]; [done|].
      apply list_elem_of_singleton in Hr as ->. done.
    + repeat constructor; vm_compute; eauto.
Defined.
